(** * AIrhockey: observation encoder, action decoder and reward shapers

    A shallow embedding of [drl_air_hockey/agents/spacer_agent.py] and
    [drl_air_hockey/utils/rewards.py].

    Numbers.  The program computes with IEEE doubles; this development
    computes with exact rationals [Q].  Every statement below is therefore a
    statement about the arithmetic the program approximates; equalities
    between numbers are [Qeq] ([==]).  A float division by a zero divisor
    yields [inf] or [nan] in numpy; neither is a rational, so the embedding
    reports it as the error [NonFinite].  Conversions between float widths
    ([dtype=np.float32]) are the identity here.  Where rounding decides
    what the program does (a velocity that is scaled onto its limit, a clock
    that is compared with a threshold), the code is embedded once more with
    primitive binary64 floats, in [Binary64], and run.

    Randomness.  The values the program draws from [np.random] are an
    input of the embedding (see [Rng]), so that a statement can quantify
    over them.

    Outside.  The policy, the checkpoint loader and the kinematics of the
    robot model are not part of the repository; the kinematics and the
    numpy routines [pinv], [svd], [sin] and [cos] are parameters. *)

From Stdlib Require Import QArith Qabs Qminmax Lqa List Bool ZArith Lia Floats.
Import ListNotations.
Open Scope Q_scope.
Set Warnings "-inexact-float".

(** ** Results of fallible code *)

Inductive exn : Set :=
| NonFinite          (* a zero divisor: numpy would produce inf or nan *)
| ZeroDivisionError  (* np.average: weights sum to zero *)
| ValueError         (* raise ValueError / operands could not be broadcast *)
| IndexError         (* indexing an empty deque *)
| AssertionError     (* a failed assert *)
| AttributeError     (* an attribute that was never set *)
| OutOfFuel.         (* a while loop that did not stop within its fuel *)

Inductive res (A : Type) : Type :=
| Ok (a : A)
| Err (e : exn).
Arguments Ok {A} a.
Arguments Err {A} e.

Definition bind {A B : Type} (m : res A) (k : A -> res B) : res B :=
  match m with
  | Ok a => k a
  | Err e => Err e
  end.

Notation "x <- m ;; k" := (bind m (fun x => k))
  (at level 61, m at next level, right associativity).
Notation "' p <- m ;; k" := (bind m (fun x => match x with p => k end))
  (at level 61, p pattern, m at next level, right associativity).

Fixpoint mapM {A B : Type} (f : A -> res B) (l : list A) : res (list B) :=
  match l with
  | [] => Ok []
  | a :: r => b <- f a ;; bs <- mapM f r ;; Ok (b :: bs)
  end.

(** ** The numpy operations the program uses *)

Module np.

Definition ltb (x y : Q) : bool := negb (Qle_bool y x).

(** [a / b] on floats. *)
Definition div (a b : Q) : res Q :=
  if Qeq_bool b 0 then Err NonFinite else Ok (a / b).

(** [np.clip(x, lo, hi)] is [minimum(hi, maximum(x, lo))]. *)
Definition clip (x lo hi : Q) : Q := Qmin hi (Qmax x lo).

(** [np.sign]. *)
Definition sign (x : Q) : Q :=
  if ltb x 0 then -1 else if ltb 0 x then 1 else 0.

(** [np.copysign(m, s)]; a rational zero carries the positive sign. *)
Definition copysign (m s : Q) : Q :=
  if ltb s 0 then - Qabs m else Qabs m.

Definition sum (l : list Q) : Q := fold_left Qplus l 0.

(** Element-wise binary operation on two arrays of one shape. *)
Fixpoint zip_with {A B C : Type} (f : A -> B -> res C)
    (a : list A) (b : list B) : res (list C) :=
  match a, b with
  | [], [] => Ok []
  | x :: a', y :: b' => z <- f x y ;; zs <- zip_with f a' b' ;; Ok (z :: zs)
  | _, _ => Err ValueError
  end.

End np.

(** ** Points *)

Definition vec2 : Type := Q * Q.
Definition vec3 : Type := Q * Q * Q.

(** [p[:2]] *)
Definition xy (p : vec3) : vec2 := let '(x, y, _) := p in (x, y).
Definition add3 (p n : vec3) : vec3 :=
  let '(x, y, z) := p in let '(a, b, c) := n in (x + a, y + b, z + c).
Definition sub3 (p n : vec3) : vec3 :=
  let '(x, y, z) := p in let '(a, b, c) := n in (x - a, y - b, z - c).
Definition add2 (p n : vec2) : vec2 :=
  let '(x, y) := p in let '(a, b) := n in (x + a, y + b).

(** [np.array(deque).flatten()] for a deque of 2-vectors. *)
Definition flatten (d : list vec2) : list Q :=
  flat_map (fun p => [fst p; snd p]) d.

Definition clip2 (p : vec2) : vec2 :=
  (np.clip (fst p) (-1) 1, np.clip (snd p) (-1) 1).

(** ** [collections.deque(maxlen=n)] *)

Section Deque.
Context {A : Type}.

(** [d.append(x)]: the oldest element leaves when the deque is full. *)
Definition deque_append (maxlen : nat) (d : list A) (x : A) : list A :=
  let d' := d ++ [x] in skipn (length d' - maxlen) d'.

(** [d.extend(xs)] *)
Definition deque_extend (maxlen : nat) (d : list A) (xs : list A) : list A :=
  fold_left (deque_append maxlen) xs d.

(** [d[-1]] *)
Definition deque_last (d : list A) : res A :=
  match rev d with
  | [] => Err IndexError
  | x :: _ => Ok x
  end.

(** [while not n == len(d): d.append(x.copy())] *)
Fixpoint fill_while (fuel n : nat) (d : list A) (x : A) : res (list A) :=
  if Nat.eqb n (length d) then Ok d
  else match fuel with
       | O => Err OutOfFuel
       | S fuel' => fill_while fuel' n (deque_append n d x) x
       end.

(** [d.append(x)] followed by the fill loop of schemes 2 to 4. *)
Definition append_and_fill (n : nat) (d : list A) (x : A) : res (list A) :=
  fill_while n n (deque_append n d x) x.

End Deque.

(** ** Configuration *)

Definition MAX_TIME_UNTIL_PENALTY_S : Q := 15.

(** The observation schemes the constructor accepts. *)
Inductive Scheme : Set := S2 | S3 | S4 | S5 | S6 | S7.

(** The scheme dispatch of [__init__]: 1 and everything else is refused. *)
Definition scheme_of_Z (z : Z) : res Scheme :=
  match z with
  | 2%Z => Ok S2 | 3%Z => Ok S3 | 4%Z => Ok S4
  | 5%Z => Ok S5 | 6%Z => Ok S6 | 7%Z => Ok S7
  | _ => Err ValueError
  end.

Definition scheme_to_Z (s : Scheme) : Z :=
  match s with
  | S2 => 2 | S3 => 3 | S4 => 4 | S5 => 5 | S6 => 6 | S7 => 7
  end%Z.

(** [env_info], the part the agent reads. *)
Record EnvInfo : Type := {
  table_length : Q;
  table_width : Q;
  puck_radius : Q;
  mallet_radius : Q;
  robot_ee_desired_height : Q;
  robot_base_frame_x : Q;                  (* robot_base_frame[0][0, 3] *)
  robot_joint_pos_limit : list Q * list Q; (* rows 0 and 1 *)
  robot_joint_vel_limit : list Q * list Q; (* rows 0 and 1 *)
  sim_dt : Q
}.

(** The constructor's arguments; never written after [__init__].  The
    standard deviations of the noise sources only parametrise the random
    draws, which the embedding receives as values (see [Rng]). *)
Record Agent : Type := {
  env_info : EnvInfo;
  evaluate : bool;
  scheme : Scheme;
  vel_constraints_scaling_factor : Q;
  filter_actions_enabled : bool;
  filter_actions_coefficient : Q;
  operating_area_offset_from_centre : Q;
  operating_area_offset_from_table : Q;
  operating_area_offset_from_goal : Q;
  z_position_control_tolerance : Q;
  loss_of_tracking_prob_inc_per_step : Q;
  loss_of_tracking_min_steps : Z;
  loss_of_tracking_max_steps : Z
}.

(** History depths chosen by [__init__] for each scheme. *)
Definition n_stacked_obs_participant_ee_pos (s : Scheme) : nat :=
  match s with S2 => 1 | S3 => 3 | S4 => 2 | S5 => 4 | S6 => 4 | S7 => 2 end.
Definition n_stacked_obs_opponent_ee_pos (s : Scheme) : nat :=
  match s with S2 => 1 | S3 => 5 | S4 => 2 | S5 => 4 | S6 => 4 | S7 => 2 end.
Definition n_stacked_obs_puck_pos (s : Scheme) : nat :=
  match s with S2 => 1 | S3 => 9 | S4 => 2 | S5 => 4 | S6 => 4 | S7 => 10 end.
Definition n_stacked_obs_puck_rot (s : Scheme) : nat :=
  match s with S7 => 2 | _ => 0 end.
(** [n_stacked_obs], which only schemes 5 and 6 define. *)
Definition n_stacked_obs (s : Scheme) : nat :=
  match s with S5 | S6 => 4 | _ => 0 end.

(** The length declared by the [observation_space] property. *)
Definition observation_space (s : Scheme) : nat :=
  let n_obs :=
    (1 + 2 * n_stacked_obs_participant_ee_pos s
       + 2 * n_stacked_obs_opponent_ee_pos s
       + 2 * n_stacked_obs_puck_pos s)%nat in
  let n_obs := match s with S6 | S7 => (n_obs + 7)%nat | _ => n_obs end in
  let n_obs :=
    match s with S7 => (n_obs + 2 * n_stacked_obs_puck_rot s)%nat | _ => n_obs end in
  n_obs.

(** *** [extract_env_info]: derived constants *)

Definition robot_joint_vel_limit_scaled (a : Agent) : list Q * list Q :=
  let k := vel_constraints_scaling_factor a in
  let '(lo, hi) := robot_joint_vel_limit (env_info a) in
  (map (Qmult k) lo, map (Qmult k) hi).

(** Rows are the x and the y range, each as (min, max). *)
Definition ee_table_minmax (a : Agent) : (Q * Q) * (Q * Q) :=
  let e := env_info a in
  ((Qabs (robot_base_frame_x e) - (table_length e / 2) + mallet_radius e
      + operating_area_offset_from_table a + operating_area_offset_from_goal a,
    Qabs (robot_base_frame_x e) - operating_area_offset_from_centre a),
   (- (table_width e / 2) + mallet_radius e + operating_area_offset_from_table a,
    (table_width e / 2) - mallet_radius e - operating_area_offset_from_table a)).

Definition puck_table_minmax (e : EnvInfo) : (Q * Q) * (Q * Q) :=
  ((Qabs (robot_base_frame_x e) - (table_length e / 2) + puck_radius e,
    Qabs (robot_base_frame_x e) + (table_length e / 2) - puck_radius e),
   (- (table_width e / 2) + puck_radius e,
    (table_width e / 2) - puck_radius e)).

(** ** Normalisation *)

Definition _normalize_value (value low_in high_in : Q) : res Q :=
  q <- np.div (2 * (value - low_in)) (high_in - low_in) ;; Ok (q - 1).

Definition _unnormalize_value (value low_out high_out : Q) : Q :=
  (high_out - low_out) * (value + 1) / 2 + low_out.

(** [np.clip(_normalize_value(v, low_in=m[:, 0], high_in=m[:, 1]), -1, 1)]
    for a 2-vector [v] and a table of ranges [m]. *)
Definition normalize_clip_xy (v : vec2) (m : (Q * Q) * (Q * Q)) : res vec2 :=
  let '((xlo, xhi), (ylo, yhi)) := m in
  x <- _normalize_value (fst v) xlo xhi ;;
  y <- _normalize_value (snd v) ylo yhi ;;
  Ok (clip2 (x, y)).

(** The same for the joint positions and their limits. *)
Definition normalize_clip_joints (q : list Q) (lim : list Q * list Q)
  : res (list Q) :=
  ranges <- np.zip_with (fun lo hi => Ok (lo, hi)) (fst lim) (snd lim) ;;
  np.zip_with
    (fun v r => n <- _normalize_value v (fst r) (snd r) ;; Ok (np.clip n (-1) 1))
    q ranges.

Definition unnormalize_xy (v : vec2) (m : (Q * Q) * (Q * Q)) : vec2 :=
  let '((xlo, xhi), (ylo, yhi)) := m in
  (_unnormalize_value (fst v) xlo xhi, _unnormalize_value (snd v) ylo yhi).

(** ** Inputs and state of the agent *)

(** The slices of the raw observation the agent reads
    ([get_joint_pos], [get_puck_pos], [get_opponent_ee_pos]). *)
Record RawObs : Type := {
  get_joint_pos : list Q;
  get_puck_pos : vec3;          (* x, y, yaw *)
  get_opponent_ee_pos : vec3
}.

(** The values the random number generator returns during one tick, in the
    order the program draws them.  Evaluation mode draws none of them. *)
Record Rng : Type := {
  noise_obs_ee_pos : vec3;          (* np.random.normal(0, noise_obs_ee_pos_std, 3) *)
  noise_obs_opponent_ee_pos : vec2; (* np.random.normal(0, noise_obs_opponent_ee_pos_std, 2) *)
  noise_obs_puck_pos : vec3;        (* np.random.normal(0, noise_obs_puck_pos_std, 3) *)
  rand : Q;                         (* np.random.rand() *)
  randint : Z;                      (* np.random.randint(min_steps, max_steps) *)
  noise_act : vec2                  (* np.random.normal(0, noise_act_std, 2) *)
}.

(** The attributes of the agent that change from tick to tick. *)
Record State : Type := {
  current_joint_pos : list Q;
  current_ee_pos : vec3;
  current_ee_pos_xy_norm : vec2;
  lose_tracking_probability : Q;
  lose_tracking_n_steps_remaining : Z;
  previous_ee_pos_xy_norm : option vec2;
  penalty_timer : Q;
  penalty_side : option Q;
  stacked_obs_participant_ee_pos : list vec2;
  stacked_obs_opponent_ee_pos : list vec2;
  stacked_obs_puck_pos : list vec2;
  stacked_obs_puck_rot : list vec2;
  _new_episode : bool
}.

Definition set_current (st : State) (q : list Q) (ee : vec3) (n : vec2) : State :=
  {| current_joint_pos := q;
     current_ee_pos := ee;
     current_ee_pos_xy_norm := n;
     lose_tracking_probability := lose_tracking_probability st;
     lose_tracking_n_steps_remaining := lose_tracking_n_steps_remaining st;
     previous_ee_pos_xy_norm := previous_ee_pos_xy_norm st;
     penalty_timer := penalty_timer st;
     penalty_side := penalty_side st;
     stacked_obs_participant_ee_pos := stacked_obs_participant_ee_pos st;
     stacked_obs_opponent_ee_pos := stacked_obs_opponent_ee_pos st;
     stacked_obs_puck_pos := stacked_obs_puck_pos st;
     stacked_obs_puck_rot := stacked_obs_puck_rot st;
     _new_episode := _new_episode st |}.

Definition set_tracking (st : State) (p : Q) (n : Z) : State :=
  {| current_joint_pos := current_joint_pos st;
     current_ee_pos := current_ee_pos st;
     current_ee_pos_xy_norm := current_ee_pos_xy_norm st;
     lose_tracking_probability := p;
     lose_tracking_n_steps_remaining := n;
     previous_ee_pos_xy_norm := previous_ee_pos_xy_norm st;
     penalty_timer := penalty_timer st;
     penalty_side := penalty_side st;
     stacked_obs_participant_ee_pos := stacked_obs_participant_ee_pos st;
     stacked_obs_opponent_ee_pos := stacked_obs_opponent_ee_pos st;
     stacked_obs_puck_pos := stacked_obs_puck_pos st;
     stacked_obs_puck_rot := stacked_obs_puck_rot st;
     _new_episode := _new_episode st |}.

Definition set_previous (st : State) (p : option vec2) : State :=
  {| current_joint_pos := current_joint_pos st;
     current_ee_pos := current_ee_pos st;
     current_ee_pos_xy_norm := current_ee_pos_xy_norm st;
     lose_tracking_probability := lose_tracking_probability st;
     lose_tracking_n_steps_remaining := lose_tracking_n_steps_remaining st;
     previous_ee_pos_xy_norm := p;
     penalty_timer := penalty_timer st;
     penalty_side := penalty_side st;
     stacked_obs_participant_ee_pos := stacked_obs_participant_ee_pos st;
     stacked_obs_opponent_ee_pos := stacked_obs_opponent_ee_pos st;
     stacked_obs_puck_pos := stacked_obs_puck_pos st;
     stacked_obs_puck_rot := stacked_obs_puck_rot st;
     _new_episode := _new_episode st |}.

Definition set_penalty (st : State) (side : option Q) (timer : Q) : State :=
  {| current_joint_pos := current_joint_pos st;
     current_ee_pos := current_ee_pos st;
     current_ee_pos_xy_norm := current_ee_pos_xy_norm st;
     lose_tracking_probability := lose_tracking_probability st;
     lose_tracking_n_steps_remaining := lose_tracking_n_steps_remaining st;
     previous_ee_pos_xy_norm := previous_ee_pos_xy_norm st;
     penalty_timer := timer;
     penalty_side := side;
     stacked_obs_participant_ee_pos := stacked_obs_participant_ee_pos st;
     stacked_obs_opponent_ee_pos := stacked_obs_opponent_ee_pos st;
     stacked_obs_puck_pos := stacked_obs_puck_pos st;
     stacked_obs_puck_rot := stacked_obs_puck_rot st;
     _new_episode := _new_episode st |}.

(** Writes the four history deques and the first-tick flag. *)
Definition set_stacks (st : State) (puck rot ee opp : list vec2) (fresh : bool)
  : State :=
  {| current_joint_pos := current_joint_pos st;
     current_ee_pos := current_ee_pos st;
     current_ee_pos_xy_norm := current_ee_pos_xy_norm st;
     lose_tracking_probability := lose_tracking_probability st;
     lose_tracking_n_steps_remaining := lose_tracking_n_steps_remaining st;
     previous_ee_pos_xy_norm := previous_ee_pos_xy_norm st;
     penalty_timer := penalty_timer st;
     penalty_side := penalty_side st;
     stacked_obs_participant_ee_pos := ee;
     stacked_obs_opponent_ee_pos := opp;
     stacked_obs_puck_pos := puck;
     stacked_obs_puck_rot := rot;
     _new_episode := fresh |}.

(** [reset].  The policy driver is outside the embedding. *)
Definition reset (a : Agent) (st : State) : State :=
  {| current_joint_pos := current_joint_pos st;
     current_ee_pos := current_ee_pos st;
     current_ee_pos_xy_norm := current_ee_pos_xy_norm st;
     lose_tracking_probability := 0;
     lose_tracking_n_steps_remaining := 0;
     previous_ee_pos_xy_norm :=
       if filter_actions_enabled a then None else previous_ee_pos_xy_norm st;
     penalty_timer := 0;
     penalty_side :=
       match scheme a with S2 => penalty_side st | _ => None end;
     stacked_obs_participant_ee_pos := [];
     stacked_obs_opponent_ee_pos := [];
     stacked_obs_puck_pos := [];
     stacked_obs_puck_rot :=
       match scheme a with S7 => [] | _ => stacked_obs_puck_rot st end;
     _new_episode := true |}.

(** ** The penalty timer *)

(** Scheme 2: time spent on the agent's own half, or -1. *)
Definition penalty_timer_unsigned (dt timer puck_x_norm : Q) : Q * Q :=
  if np.ltb puck_x_norm 0
  then (timer / MAX_TIME_UNTIL_PENALTY_S, timer + dt)
  else (-1, 0).

(** Schemes 3 to 7 repeat this block verbatim: the new side and timer. *)
Definition penalty_timer_step (dt : Q) (side : option Q) (timer puck_x_norm : Q)
  : Q * Q :=
  match side with
  | None => (np.sign puck_x_norm, timer)
  | Some s =>
      if Qeq_bool (np.sign puck_x_norm) s
      then (s, timer + dt)
      else (s * -1, 0)
  end.

(** [penalty_side * penalty_timer / MAX_TIME_UNTIL_PENALTY_S] *)
Definition signed_penalty (side timer : Q) : Q :=
  side * timer / MAX_TIME_UNTIL_PENALTY_S.

(** ** The agent *)

(** The values normalised at the top of [process_raw_obs]. *)
Record Normalized : Type := {
  current_joint_pos_normalized : list Q;
  ee_pos_xy_norm : vec2;
  opponent_ee_pos_xy_norm : vec2;
  puck_pos_xy_norm : vec2;
  puck_rot_yaw_norm : vec2
}.

Section SpaceRAgent.

(** Capabilities the agent consumes from outside the repository: the
    kinematics of the robot model and four numpy routines.  Their results
    are taken as given rationals. *)
Variable forward_kinematics : list Q -> vec3.        (* position of the pose *)
Variable jacobian : list Q -> list (list Q).         (* 6 x N *)
Variable np_linalg_pinv : list (list Q) -> list vec3. (* N x 3 for a 3 x N input *)
Variable np_linalg_svd : list (list Q) -> vec3.      (* singular values *)
Variable np_sin np_cos : Q -> Q.

(** The part of [process_raw_obs] before the scheme dispatch. *)
Definition normalize_obs (a : Agent) (rng : Rng) (obs : RawObs)
  : res (list Q * vec3 * Normalized) :=
  let e := env_info a in
  (* Player's joint positions *)
  let current_joint_pos := get_joint_pos obs in
  joints_norm <-
    normalize_clip_joints current_joint_pos (robot_joint_pos_limit e) ;;
  (* Player's end-effector position *)
  let current_ee_pos := forward_kinematics (get_joint_pos obs) in
  let current_ee_pos :=
    if negb (evaluate a) then add3 current_ee_pos (noise_obs_ee_pos rng)
    else current_ee_pos in
  ee_norm <- normalize_clip_xy (xy current_ee_pos) (puck_table_minmax e) ;;
  (* Opponent's end-effector position *)
  let opponent_ee_pos_xy := xy (get_opponent_ee_pos obs) in
  let opponent_ee_pos_xy :=
    if negb (evaluate a)
    then add2 opponent_ee_pos_xy (noise_obs_opponent_ee_pos rng)
    else opponent_ee_pos_xy in
  opp_norm <- normalize_clip_xy opponent_ee_pos_xy (puck_table_minmax e) ;;
  (* Puck's position *)
  let puck_pos := get_puck_pos obs in
  let puck_pos :=
    if negb (evaluate a) then add3 puck_pos (noise_obs_puck_pos rng)
    else puck_pos in
  puck_norm <- normalize_clip_xy (xy puck_pos) (puck_table_minmax e) ;;
  (* Puck's rotation (sin and cos) *)
  let yaw := snd puck_pos in
  Ok (current_joint_pos, current_ee_pos,
      {| current_joint_pos_normalized := joints_norm;
         ee_pos_xy_norm := ee_norm;
         opponent_ee_pos_xy_norm := opp_norm;
         puck_pos_xy_norm := puck_norm;
         puck_rot_yaw_norm := (np_sin yaw, np_cos yaw) |}).

(** The three deques of schemes 2 to 4: append, then fill up. *)
Definition stack_by_filling (s : Scheme) (st : State) (n : Normalized)
  : res State :=
  puck <- append_and_fill (n_stacked_obs_puck_pos s)
            (stacked_obs_puck_pos st) (puck_pos_xy_norm n) ;;
  ee <- append_and_fill (n_stacked_obs_participant_ee_pos s)
          (stacked_obs_participant_ee_pos st) (ee_pos_xy_norm n) ;;
  opp <- append_and_fill (n_stacked_obs_opponent_ee_pos s)
           (stacked_obs_opponent_ee_pos st) (opponent_ee_pos_xy_norm n) ;;
  Ok (set_stacks st puck (stacked_obs_puck_rot st) ee opp (_new_episode st)).

(** The three deques of schemes 5 and 6. *)
Definition stack_by_episode (s : Scheme) (st : State) (n : Normalized)
  : State :=
  if _new_episode st then
    set_stacks st
      (deque_extend (n_stacked_obs_puck_pos s) (stacked_obs_puck_pos st)
         (repeat (puck_pos_xy_norm n) (n_stacked_obs s)))
      (stacked_obs_puck_rot st)
      (deque_extend (n_stacked_obs_participant_ee_pos s)
         (stacked_obs_participant_ee_pos st)
         (repeat (ee_pos_xy_norm n) (n_stacked_obs s)))
      (deque_extend (n_stacked_obs_opponent_ee_pos s)
         (stacked_obs_opponent_ee_pos st)
         (repeat (opponent_ee_pos_xy_norm n) (n_stacked_obs s)))
      false
  else
    set_stacks st
      (deque_append (n_stacked_obs_puck_pos s) (stacked_obs_puck_pos st)
         (puck_pos_xy_norm n))
      (stacked_obs_puck_rot st)
      (deque_append (n_stacked_obs_participant_ee_pos s)
         (stacked_obs_participant_ee_pos st) (ee_pos_xy_norm n))
      (deque_append (n_stacked_obs_opponent_ee_pos s)
         (stacked_obs_opponent_ee_pos st) (opponent_ee_pos_xy_norm n))
      (_new_episode st).

(** The puck deques of scheme 7 after the first tick, with the loss of
    tracking emulated in training. *)
Definition stack_puck_tracked (a : Agent) (st : State) (rng : Rng)
    (n : Normalized) : res (list vec2 * list vec2 * Q * Z) :=
  let s := scheme a in
  if evaluate a then
    Ok (deque_append (n_stacked_obs_puck_pos s) (stacked_obs_puck_pos st)
          (puck_pos_xy_norm n),
        deque_append (n_stacked_obs_puck_rot s) (stacked_obs_puck_rot st)
          (puck_rot_yaw_norm n),
        lose_tracking_probability st, lose_tracking_n_steps_remaining st)
  else if (0 <? lose_tracking_n_steps_remaining st)%Z then
    last_pos <- deque_last (stacked_obs_puck_pos st) ;;
    last_rot <- deque_last (stacked_obs_puck_rot st) ;;
    Ok (deque_append (n_stacked_obs_puck_pos s) (stacked_obs_puck_pos st)
          last_pos,
        deque_append (n_stacked_obs_puck_rot s) (stacked_obs_puck_rot st)
          last_rot,
        lose_tracking_probability st,
        (lose_tracking_n_steps_remaining st - 1)%Z)
  else
    let puck :=
      deque_append (n_stacked_obs_puck_pos s) (stacked_obs_puck_pos st)
        (puck_pos_xy_norm n) in
    let rot :=
      deque_append (n_stacked_obs_puck_rot s) (stacked_obs_puck_rot st)
        (puck_rot_yaw_norm n) in
    if np.ltb (rand rng) (lose_tracking_probability st)
    then Ok (puck, rot, 0, randint rng)
    else Ok (puck, rot,
             lose_tracking_probability st
               + loss_of_tracking_prob_inc_per_step a,
             lose_tracking_n_steps_remaining st).

(** The four deques of scheme 7. *)
Definition stack_scheme7 (a : Agent) (st : State) (rng : Rng) (n : Normalized)
  : res State :=
  let s := scheme a in
  if _new_episode st then
    Ok (set_stacks st
          (deque_extend (n_stacked_obs_puck_pos s) (stacked_obs_puck_pos st)
             (repeat (puck_pos_xy_norm n) (n_stacked_obs_puck_pos s)))
          (deque_extend (n_stacked_obs_puck_rot s) (stacked_obs_puck_rot st)
             (repeat (puck_rot_yaw_norm n) (n_stacked_obs_puck_rot s)))
          (deque_extend (n_stacked_obs_participant_ee_pos s)
             (stacked_obs_participant_ee_pos st)
             (repeat (ee_pos_xy_norm n) (n_stacked_obs_participant_ee_pos s)))
          (deque_extend (n_stacked_obs_opponent_ee_pos s)
             (stacked_obs_opponent_ee_pos st)
             (repeat (opponent_ee_pos_xy_norm n)
                (n_stacked_obs_opponent_ee_pos s)))
          false)
  else
    '(puck, rot, p, k) <- stack_puck_tracked a st rng n ;;
    Ok (set_stacks (set_tracking st p k) puck rot
          (deque_append (n_stacked_obs_participant_ee_pos s)
             (stacked_obs_participant_ee_pos st) (ee_pos_xy_norm n))
          (deque_append (n_stacked_obs_opponent_ee_pos s)
             (stacked_obs_opponent_ee_pos st) (opponent_ee_pos_xy_norm n))
          (_new_episode st)).

(** The signed timer of schemes 3 to 7: the value before any clipping and
    the state with the new side and timer. *)
Definition update_signed_penalty (a : Agent) (st : State) (n : Normalized)
  : Q * State :=
  let '(side, timer) :=
    penalty_timer_step (sim_dt (env_info a)) (penalty_side st)
      (penalty_timer st) (fst (puck_pos_xy_norm n)) in
  (signed_penalty side timer, set_penalty st (Some side) timer).

(** The scheme dispatch of [process_raw_obs]. *)
Definition encode (a : Agent) (st : State) (rng : Rng) (n : Normalized)
  : res (list Q * State) :=
  let s := scheme a in
  match s with
  | S2 =>
      st <- stack_by_filling s st n ;;
      let '(current_penalty_timer, timer) :=
        penalty_timer_unsigned (sim_dt (env_info a)) (penalty_timer st)
          (fst (puck_pos_xy_norm n)) in
      let st := set_penalty st (penalty_side st) timer in
      Ok (map (fun x => np.clip x (-1) 1)
            ([current_penalty_timer]
               ++ flatten (stacked_obs_puck_pos st)
               ++ flatten (stacked_obs_participant_ee_pos st)
               ++ flatten (stacked_obs_opponent_ee_pos st)),
          st)
  | S3 | S4 =>
      st <- stack_by_filling s st n ;;
      let '(current_penalty_timer, st) := update_signed_penalty a st n in
      Ok (map (fun x => np.clip x (-1) 1)
            ([current_penalty_timer]
               ++ flatten (stacked_obs_puck_pos st)
               ++ flatten (stacked_obs_participant_ee_pos st)
               ++ flatten (stacked_obs_opponent_ee_pos st)),
          st)
  | S5 =>
      let '(current_penalty_timer, st) := update_signed_penalty a st n in
      let current_penalty_timer := np.clip current_penalty_timer (-1) 1 in
      let st := stack_by_episode s st n in
      Ok ([current_penalty_timer]
            ++ flatten (stacked_obs_puck_pos st)
            ++ flatten (stacked_obs_participant_ee_pos st)
            ++ flatten (stacked_obs_opponent_ee_pos st),
          st)
  | S6 =>
      joints_norm <-
        normalize_clip_joints (current_joint_pos st)
          (robot_joint_pos_limit (env_info a)) ;;
      let '(current_penalty_timer, st) := update_signed_penalty a st n in
      let current_penalty_timer := np.clip current_penalty_timer (-1) 1 in
      let st := stack_by_episode s st n in
      Ok ([current_penalty_timer]
            ++ joints_norm
            ++ flatten (stacked_obs_puck_pos st)
            ++ flatten (stacked_obs_participant_ee_pos st)
            ++ flatten (stacked_obs_opponent_ee_pos st),
          st)
  | S7 =>
      joints_norm <-
        normalize_clip_joints (current_joint_pos st)
          (robot_joint_pos_limit (env_info a)) ;;
      let '(current_penalty_timer, st) := update_signed_penalty a st n in
      let current_penalty_timer := np.clip current_penalty_timer (-1) 1 in
      st <- stack_scheme7 a st rng n ;;
      Ok ([current_penalty_timer]
            ++ joints_norm
            ++ flatten (stacked_obs_puck_pos st)
            ++ flatten (stacked_obs_puck_rot st)
            ++ flatten (stacked_obs_participant_ee_pos st)
            ++ flatten (stacked_obs_opponent_ee_pos st),
          st)
  end.

Definition process_raw_obs (a : Agent) (st : State) (rng : Rng) (obs : RawObs)
  : res (list Q * State) :=
  '(q, ee, n) <- normalize_obs a rng obs ;;
  let st := set_current st q ee (ee_pos_xy_norm n) in
  '(o, st) <- encode a st rng n ;;
  (* assert obs.shape == self.observation_space.shape *)
  if Nat.eqb (length o) (observation_space (scheme a))
  then Ok (o, st)
  else Err AssertionError.

(** *** The action decoder *)

(** The action filter at the top of [process_raw_act]: the filtered target
    and the state with the new [previous_ee_pos_xy_norm]. *)
Definition filter_action (a : Agent) (st : State) (action : vec2)
  : vec2 * State :=
  let target_ee_pos_xy := action in
  if filter_actions_enabled a then
    let previous :=
      match previous_ee_pos_xy_norm st with
      | None => current_ee_pos_xy_norm st
      | Some p => p
      end in
    let c := filter_actions_coefficient a in
    let target_ee_pos_xy :=
      (c * fst previous + (1 - c) * fst target_ee_pos_xy,
       c * snd previous + (1 - c) * snd target_ee_pos_xy) in
    (target_ee_pos_xy, set_previous st (Some target_ee_pos_xy))
  else (target_ee_pos_xy, st).

(** The 3-D target: the un-normalised filtered action at the desired
    height, with actuation noise in training.  [dtype=action.dtype] rounds
    the target when the action is a float32 array; like all rounding it is
    the identity here. *)
Definition target_position (a : Agent) (rng : Rng) (target_ee_pos_xy : vec2)
  : vec3 :=
  let target_ee_pos :=
    (unnormalize_xy target_ee_pos_xy (ee_table_minmax a),
     robot_ee_desired_height (env_info a)) in
  if negb (evaluate a)
  then (add2 (fst target_ee_pos) (noise_act rng), snd target_ee_pos)
  else target_ee_pos.

(** The weights derived from the singular values. *)
Definition svd_weights (a : Agent) (s : vec3) : res vec3 :=
  let '(s0, s1, s2) := s in
  (* s[:2] = np.mean(s[:2]) *)
  let m := (s0 + s1) / 2 in
  let '(s0, s1) := (m, m) in
  (* s[2] *= self.z_position_control_tolerance *)
  let s2 := s2 * z_position_control_tolerance a in
  (* s = 1 / s *)
  s0 <- np.div 1 s0 ;;
  s1 <- np.div 1 s1 ;;
  s2 <- np.div 1 s2 ;;
  (* s = s / np.sum(s) *)
  let total := np.sum [s0; s1; s2] in
  w0 <- np.div s0 total ;;
  w1 <- np.div s1 total ;;
  w2 <- np.div s2 total ;;
  Ok (w0, w1, w2).

(** [np.average(row, weights=w)] for one row of [jac_pinv * target_ee_disp]. *)
Definition np_average (row w : vec3) : res Q :=
  let '(r0, r1, r2) := row in
  let '(w0, w1, w2) := w in
  let scl := np.sum [w0; w1; w2] in
  if Qeq_bool scl 0 then Err ZeroDivisionError
  else Ok (np.sum [r0 * w0; r1 * w1; r2 * w2] / scl).

(** The joint velocities before the limits are enforced. *)
Definition inverse_jacobian_vel (a : Agent) (st : State) (target_ee_pos : vec3)
  : res (list Q) :=
  let '(dx, dy, dz) := sub3 target_ee_pos (current_ee_pos st) in
  let jac := firstn 3 (jacobian (current_joint_pos st)) in
  let jac_pinv := np_linalg_pinv jac in
  s <- svd_weights a (np_linalg_svd jac) ;;
  let joint_disp :=
    map (fun r : vec3 => let '(p0, p1, p2) := r in (p0 * dx, p1 * dy, p2 * dz))
      jac_pinv in
  joint_disp <- mapM (fun row => np_average row s) joint_disp ;;
  mapM (fun d => np.div d (sim_dt (env_info a))) joint_disp.

(** A joint, its proposed velocity and its scaled limits. *)
Definition outside_vel_limit (j : Q * (Q * Q)) : bool :=
  let '(v, (lo, hi)) := j in np.ltb v lo || np.ltb hi v.

(** The body of [for joint_i in np.where(joints_outside_vel_limit)[0]]. *)
Fixpoint downscaling_loop (offending : list (Q * (Q * Q)))
    (downscaling_factor : Q) : res Q :=
  match offending with
  | [] => Ok downscaling_factor
  | (v, (lo, hi)) :: rest =>
      let limit := if np.ltb hi v then hi else lo in
      q <- np.div (v - limit) v ;;
      downscaling_loop rest (Qmin downscaling_factor (1 - q))
  end.

(** Limit the joint velocities to the maximum allowed.  The products are
    exact here; [Binary64.limit_joint_vel] rounds them as the program
    does. *)
Definition limit_joint_vel (joint_vel : list Q) (limits : list Q * list Q)
  : res (list Q) :=
  ranges <- np.zip_with (fun lo hi => Ok (lo, hi)) (fst limits) (snd limits) ;;
  joints <- np.zip_with (fun v r => Ok (v, r)) joint_vel ranges ;;
  if existsb outside_vel_limit joints then
    downscaling_factor <-
      downscaling_loop (filter outside_vel_limit joints) 1 ;;
    Ok (map (fun v => v * downscaling_factor) joint_vel)
  else Ok joint_vel.

(** [process_raw_act]: the pair (joint_pos, joint_vel) and the new state. *)
Definition process_raw_act (a : Agent) (st : State) (rng : Rng) (action : vec2)
  : res ((list Q * list Q) * State) :=
  let '(target_ee_pos_xy, st) := filter_action a st action in
  let target_ee_pos := target_position a rng target_ee_pos_xy in
  joint_vel <- inverse_jacobian_vel a st target_ee_pos ;;
  joint_vel <- limit_joint_vel joint_vel (robot_joint_vel_limit_scaled a) ;;
  joint_pos <-
    np.zip_with (fun q v => Ok (q + sim_dt (env_info a) * v))
      (current_joint_pos st) joint_vel ;;
  Ok ((joint_pos, joint_vel), st).

(** [draw_action] for a policy given as a function: encode, infer, clip,
    decode.  [__init__] sets [self.policy_driver] only when [self.evaluate]
    holds, so in training [infer_action] fails on the missing attribute,
    after the observation has been processed. *)
Definition draw_action (policy : list Q -> vec2)
    (a : Agent) (st : State) (rng : Rng) (obs : RawObs)
  : res ((list Q * list Q) * State) :=
  '(o, st) <- process_raw_obs a st rng obs ;;
  if evaluate a then process_raw_act a st rng (clip2 (policy o))
  else Err AttributeError.

(** A run of the encoder over the ticks of an episode: the vectors it
    returned, oldest first, and the final state. *)
Fixpoint run_obs (a : Agent) (st : State) (ticks : list (Rng * RawObs))
  : res (list (list Q) * State) :=
  match ticks with
  | [] => Ok ([], st)
  | (rng, obs) :: rest =>
      '(o, st) <- process_raw_obs a st rng obs ;;
      '(os, st) <- run_obs a st rest ;;
      Ok (o :: os, st)
  end.

End SpaceRAgent.

(** ** Reward shapers ([utils/rewards.py]) *)

(** What the reward functions read from the environment [mdp] and from
    [mdp.get_puck(next_state)]. *)
Record Mdp : Type := {
  mdp_dt : Q;             (* mdp.env_info["dt"] *)
  mdp_table_length : Q;   (* mdp.env_info["table"]["length"] *)
  mdp_table_width : Q;    (* mdp.env_info["table"]["width"] *)
  mdp_goal_width : Q;     (* mdp.env_info["table"]["goal_width"] *)
  mdp_puck_radius : Q;    (* mdp.env_info["puck"]["radius"] *)
  mdp_time : Q;           (* mdp._data.time *)
  puck_pos : vec3;        (* x, y, yaw in the frame of the table centre *)
  puck_vel : vec3
}.

Module TournamentReward.

Definition MAX_TIME_UNTIL_PENALTY_S : Q := 15.

(** [self._penalty_threshold], which [__init__] sets to this constant and
    nothing writes afterwards. *)
Definition _penalty_threshold : Q := (75 # 100) * MAX_TIME_UNTIL_PENALTY_S.

Record t : Type := {
  _reward_agent_score_goal : Q;
  _reward_agent_receive_goal : Q;
  _reward_opponent_faul : Q;
  _reward_agent_faul : Q;
  _reward_agent_cause_puck_stuck : Q;
  penalty_timer : Q;
  penalty_side : option Q
}.

Definition __init__ (score_goal receive_goal opponent_faul agent_faul
    cause_puck_stuck : Q) : t :=
  {| _reward_agent_score_goal := score_goal;
     _reward_agent_receive_goal := receive_goal;
     _reward_opponent_faul := opponent_faul;
     _reward_agent_faul := agent_faul;
     _reward_agent_cause_puck_stuck := cause_puck_stuck;
     penalty_timer := 0;
     penalty_side := None |}.

Definition set_timer (self : t) (timer : Q) (side : option Q) : t :=
  {| _reward_agent_score_goal := _reward_agent_score_goal self;
     _reward_agent_receive_goal := _reward_agent_receive_goal self;
     _reward_opponent_faul := _reward_opponent_faul self;
     _reward_agent_faul := _reward_agent_faul self;
     _reward_agent_cause_puck_stuck := _reward_agent_cause_puck_stuck self;
     penalty_timer := timer;
     penalty_side := side |}.

(** Penalty checking (timer update): the new side and timer.  The sum is
    exact here; [Binary64.timer_update] adds as the program does. *)
Definition timer_update (self : t) (dt px : Q) : Q * Q :=
  (* Determine which side the puck is on on the first step *)
  let side :=
    match penalty_side self with
    | None => np.sign px
    | Some s => s
    end in
  if Qeq_bool (np.sign px) side
  then (side, penalty_timer self + dt)
  else (side * -1, 0).

(** Penalty checking: the fault reward, if one is due. *)
Definition penalty_checking (self : t) (side timer px r : Q) : res Q :=
  if np.ltb _penalty_threshold timer && Qle_bool (15 # 100) (Qabs px)
  then
    if Qeq_bool side (-1) then Ok (_reward_agent_faul self)
    else if Qeq_bool side 1 then Ok (_reward_opponent_faul self)
    else Err ValueError
  else Ok r.

(** Puck stuck in the middle. *)
Definition puck_stuck (self : t) (px vx r : Q) : Q :=
  if np.ltb (Qabs px) (15 # 100) && np.ltb (Qabs vx) (25 # 1000)
  then _reward_agent_cause_puck_stuck self
  else r.

(** Goal checking. *)
Definition goal_checking (self : t) (mdp : Mdp) (px py r : Q) : Q :=
  if Qle_bool (Qabs py - mdp_goal_width mdp / 2) 0 then
    if np.ltb (mdp_table_length mdp / 2) px
    then _reward_agent_score_goal self
    else if np.ltb px (- mdp_table_length mdp / 2)
         then _reward_agent_receive_goal self
         else r
  else r.

(** [__call__]: the reward and the shaper after the call. *)
Definition __call__ (self : t) (mdp : Mdp) (absorbing : bool) : res (Q * t) :=
  let r := 0 in
  let '(px, py, _) := puck_pos mdp in
  let '(vx, _, _) := puck_vel mdp in
  let '(side, timer) := timer_update self (mdp_dt mdp) px in
  if absorbing || np.ltb (mdp_time mdp) (mdp_dt mdp * 2) then
    r <- penalty_checking self side timer px r ;;
    let r := puck_stuck self px vx r in
    let r := goal_checking self mdp px py r in
    (* Reset the penalty timer and side (it is the end of episode) *)
    Ok (r, set_timer self 0 None)
  else Ok (r, set_timer self timer (Some side)).

End TournamentReward.

Module HitReward.

(** [goal = np.array([0.98, 0])] *)
Definition goal : vec2 := (98 # 100, 0).

(** Width of table minus radius of puck. *)
Definition effective_width (mdp : Mdp) : Q :=
  mdp_table_width mdp / 2 - mdp_puck_radius mdp.

(** The divisor of the bounce point. *)
Definition bounce_denominator (mdp : Mdp) : Q :=
  let '(_, py, _) := puck_pos mdp in
  Qabs py + snd goal - 2 * effective_width mdp.

(** The bounce point on the side wall, assuming incoming angle equals
    outgoing angle. *)
Definition side_point (mdp : Mdp) : res vec2 :=
  let '(px, py, _) := puck_pos mdp in
  let effective_width := effective_width mdp in
  w <- np.div
         (Qabs py * fst goal + snd goal * px
            - effective_width * px - effective_width * fst goal)
         (Qabs py + snd goal - 2 * effective_width) ;;
  Ok (w, np.copysign effective_width py).

End HitReward.

(** *** The other reward shapers and the hit detection *)

(** What the hit, defend and prepare rewards read besides [Mdp]. *)
Record RewardInput : Type := {
  mdp : Mdp;
  mdp_mallet_radius : Q;   (* mdp.env_info["mallet"]["radius"] *)
  mdp_ee_pos : vec3;       (* mdp.get_ee()[0] *)
  puck_cur_pos : vec3;     (* mdp.get_puck(state)[0] *)
  next_joint_pos : list Q; (* mdp.get_joints(next_state)[0] *)
  init_state : list Q      (* mdp.init_state *)
}.

Section RewardShapers.

(** [np.linalg.norm], taken as given. *)
Variable np_linalg_norm : list Q -> Q.

(** [_has_hit(mdp, state)] *)
Definition _has_hit (i : RewardInput) : bool :=
  let '(ex, ey, _) := mdp_ee_pos i in
  let '(cx, cy, _) := puck_cur_pos i in
  np.ltb (np_linalg_norm [ex - cx; ey - cy])
    (mdp_puck_radius (mdp i) + mdp_mallet_radius i + (5 # 1000)).

(** [np.linalg.norm(q - mdp.init_state)] *)
Definition joint_deviation (i : RewardInput) : res Q :=
  d <- np.zip_with (fun q q0 => Ok (q - q0)) (next_joint_pos i) (init_state i) ;;
  Ok (np_linalg_norm d).

(** [(a - b) / np.linalg.norm(a - b)] for 2-vectors. *)
Definition unit_vector (a b : vec2) : res vec2 :=
  let d := (fst a - fst b, snd a - snd b) in
  let n := np_linalg_norm [fst d; snd d] in
  x <- np.div (fst d) n ;;
  y <- np.div (snd d) n ;;
  Ok (x, y).

(** [u @ v] for 2-vectors. *)
Definition dot (u v : vec2) : Q := fst u * fst v + snd u * snd v.

(** [absorbing or mdp._data.time < mdp.env_info["dt"] * 2] *)
Definition episode_boundary (m : Mdp) (absorbing : bool) : bool :=
  absorbing || np.ltb (mdp_time m) (mdp_dt m * 2).

(** [HitReward.__call__]: the reward and [self.has_hit] after the call.  The
    direction vectors the source computes first are only read before the
    first contact; a zero divisor in them is reported there. *)
Definition HitReward__call__ (has_hit : bool) (i : RewardInput)
    (absorbing : bool) : res (Q * bool) :=
  let m := mdp i in
  let '(px, py, _) := puck_pos m in
  let '(vx, _, _) := puck_vel m in
  let has_hit := if negb has_hit then _has_hit i else has_hit in
  if episode_boundary m absorbing then
    (* If the hit scores *)
    let r :=
      if np.ltb 0 (px - mdp_table_length m / 2)
         && np.ltb (Qabs py - mdp_goal_width m / 2) 0
      then 50 else 0 in
    Ok (r, false)
  else if negb has_hit then
    (* encourage the robot to get closer to the puck *)
    vec_puck_goal <- unit_vector HitReward.goal (px, py) ;;
    side_point <- HitReward.side_point m ;;
    vec_puck_side <- unit_vector side_point (px, py) ;;
    let ee_pos := xy (mdp_ee_pos i) in
    let dist_ee_puck := np_linalg_norm [px - fst ee_pos; py - snd ee_pos] in
    ux <- np.div (px - fst ee_pos) dist_ee_puck ;;
    uy <- np.div (py - snd ee_pos) dist_ee_puck ;;
    let vec_ee_puck := (ux, uy) in
    let cos_ang_side := np.clip (dot vec_puck_side vec_ee_puck) 0 1 in
    let cos_ang_goal := np.clip (dot vec_puck_goal vec_ee_puck) 0 1 in
    let cos_ang := Qmax cos_ang_goal cos_ang_side in
    Ok (- dist_ee_puck / 2 + (cos_ang - 1) * (5 # 10), has_hit)
  else
    let r := Qmin 1 ((3 # 10) * Qmax vx 0) in
    (* Encourage the puck to end in the middle *)
    let r :=
      if np.ltb (7 # 10) px && np.ltb (1 # 10) vx
      then r + ((5 # 10) - Qabs py)
      else r in
    (* penalizes the joint velocity *)
    dev <- joint_deviation i ;;
    Ok (r - (1 # 100) * dev, has_hit).

(** [DefendReward.__call__] *)
Definition DefendReward__call__ (has_hit : bool) (i : RewardInput)
    (absorbing : bool) : res (Q * bool) :=
  let m := mdp i in
  let '(px, py, _) := puck_pos m in
  let '(vx, _, _) := puck_vel m in
  let has_hit := if episode_boundary m absorbing then false else has_hit in
  let has_hit := if negb has_hit then _has_hit i else has_hit in
  let r :=
    if absorbing then
      (* puck position is behind table going to the negative side *)
      if np.ltb (px + mdp_table_length m / 2) 0
         && np.ltb (Qabs py - mdp_goal_width m / 2) 0
      then -100
      else if np.ltb (np_linalg_norm [vx]) (1 # 10) then 150
      else 0
    else
      (* If the puck bounced off the head walls, there is no reward. *)
      if Qle_bool px (- (85 # 100)) || np.ltb (3 # 10) vx then -1
      (* if the puck has been hit, or bounced off the wall *)
      else if np.ltb (- (2 # 10)) vx then (3 # 10) - Qabs vx
      else
        let ee_pos := xy (mdp_ee_pos i) in
        let ee_des := (- (6 # 10), py) in
        - np_linalg_norm [fst ee_des - fst ee_pos; snd ee_des - snd ee_pos] in
  (* penalizes the joint velocity *)
  dev <- joint_deviation i ;;
  Ok (r - (5 # 1000) * dev, has_hit).

(** [PrepareReward.__call__] *)
Definition PrepareReward__call__ (has_hit : bool) (i : RewardInput)
    (absorbing : bool) : res (Q * bool) :=
  let m := mdp i in
  let '(px, py, _) := puck_pos m in
  let ee_pos := xy (mdp_ee_pos i) in
  let has_hit := if episode_boundary m absorbing then false else has_hit in
  let has_hit := if negb has_hit then _has_hit i else has_hit in
  if absorbing && np.ltb (Qabs py) (3 # 10)
     && (np.ltb (- (8 # 10)) px && np.ltb px (- (2 # 10)))
  then Ok (10, has_hit)
  else if absorbing then Ok (-10, has_hit)
  else if negb has_hit then
    (* encourage make contact *)
    let dist_ee_puck := np_linalg_norm [px - fst ee_pos; py - snd ee_pos] in
    ux <- np.div (px - fst ee_pos) dist_ee_puck ;;
    uy <- np.div (py - snd ee_pos) dist_ee_puck ;;
    let vec_ee_puck := (ux, uy) in
    let cos_ang :=
      if np.ltb (- (65 # 100)) px then
        np.clip (dot vec_ee_puck (0, np.copysign 1 py)) 0 1
      else
        let cos_ang_side :=
          np.clip
            (dot vec_ee_puck
               (np.copysign (5 # 100) (- (5 # 10) - px),
                np.copysign (8 # 10) py)) 0 1 in
        let cos_ang_bottom := np.clip (dot vec_ee_puck (-1, 0)) 0 1 in
        Qmax cos_ang_side cos_ang_bottom in
    Ok (- dist_ee_puck / 2 + (cos_ang - 1) * (5 # 10), has_hit)
  else
    let r :=
      if (np.ltb (- (5 # 10)) px && np.ltb px (- (2 # 10)))
         && np.ltb py (3 # 10)
      then np.clip (Qabs (- (5 # 10) - px) / 2) 0 1 + ((3 # 10) - Qabs py)
      else 0 in
    dev <- joint_deviation i ;;
    Ok (r - (5 # 1000) * dev, has_hit).

End RewardShapers.

(** The tournament reward called step after step on one shaper object, as
    the environment does during an episode: the rewards, oldest first, and
    the shaper after the last call. *)
Fixpoint tournament_run (self : TournamentReward.t) (steps : list (Mdp * bool))
  : res (list Q * TournamentReward.t) :=
  match steps with
  | [] => Ok ([], self)
  | (m, absorbing) :: rest =>
      '(r, self) <- TournamentReward.__call__ self m absorbing ;;
      '(rs, self) <- tournament_run self rest ;;
      Ok (r :: rs, self)
  end.

(** [draw_action] called tick after tick, as the environment does during an
    episode: the commands, oldest first, and the final state. *)
Fixpoint run_actions (forward_kinematics : list Q -> vec3)
    (jacobian : list Q -> list (list Q))
    (np_linalg_pinv : list (list Q) -> list vec3)
    (np_linalg_svd : list (list Q) -> vec3)
    (np_sin np_cos : Q -> Q) (policy : list Q -> vec2)
    (a : Agent) (st : State) (ticks : list (Rng * RawObs))
  : res (list (list Q * list Q) * State) :=
  match ticks with
  | [] => Ok ([], st)
  | (rng, obs) :: rest =>
      '(c, st) <-
        draw_action forward_kinematics jacobian np_linalg_pinv np_linalg_svd
          np_sin np_cos policy a st rng obs ;;
      '(cs, st) <-
        run_actions forward_kinematics jacobian np_linalg_pinv np_linalg_svd
          np_sin np_cos policy a st rest ;;
      Ok (c :: cs, st)
  end.

(** ** Sample states in the middle of an episode *)

Module Scenario.

(** Scheme 4 after two ticks: the puck moved from the centre to the right. *)
Definition running : State :=
  {| current_joint_pos := [0; 0; 0; 0; 0; 0; 0];
     current_ee_pos := (65 # 100, 0, 1645 # 10000);
     current_ee_pos_xy_norm := (- (1 # 2), 0);
     lose_tracking_probability := 0;
     lose_tracking_n_steps_remaining := 0;
     previous_ee_pos_xy_norm := Some (- (1 # 2), 0);
     penalty_timer := 1 # 50;
     penalty_side := Some 1;
     stacked_obs_participant_ee_pos := [(- (1 # 2), 0); (- (1 # 2), 0)];
     stacked_obs_opponent_ee_pos := [(1 # 2, 0); (1 # 2, 0)];
     stacked_obs_puck_pos := [(0, 0); (1 # 10, 0)];
     stacked_obs_puck_rot := [];
     _new_episode := false |}.

(** Scheme 7 in training, three blind steps to go. *)
Definition blinded : State :=
  {| current_joint_pos := [0; 0; 0; 0; 0; 0; 0];
     current_ee_pos := (65 # 100, 0, 1645 # 10000);
     current_ee_pos_xy_norm := (- (1 # 2), 0);
     lose_tracking_probability := 0;
     lose_tracking_n_steps_remaining := 3;
     previous_ee_pos_xy_norm := Some (- (1 # 2), 0);
     penalty_timer := 1 # 5;
     penalty_side := Some 1;
     stacked_obs_participant_ee_pos := [(- (1 # 2), 0); (- (1 # 2), 0)];
     stacked_obs_opponent_ee_pos := [(1 # 2, 0); (1 # 2, 0)];
     stacked_obs_puck_pos := repeat (0, 0) 9 ++ [(1 # 10, 0)];
     stacked_obs_puck_rot := [(0, 1); (0, 1)];
     _new_episode := false |}.

(** An agent whose numbers are all dyadic, so that the program computes
    its operating area and its targets without rounding: a table of 2 by 1,
    on which the operating area is [0.609375, 1.375] by
    [-0.40625, 0.40625]. *)
Definition dyadic_agent : Agent :=
  {| env_info :=
       {| table_length := 2;
          table_width := 1;
          puck_radius := 1 # 32;
          mallet_radius := 1 # 16;
          robot_ee_desired_height := 1 # 8;
          robot_base_frame_x := - (3 # 2);
          robot_joint_pos_limit :=
            (repeat (- (3)) 7, repeat 3 7);
          robot_joint_vel_limit :=
            (repeat (- (2)) 7, repeat 2 7);
          sim_dt := 1 # 64 |};
     evaluate := true;
     scheme := S7;
     vel_constraints_scaling_factor := 1 # 2;
     filter_actions_enabled := true;
     filter_actions_coefficient := 3 # 4;
     operating_area_offset_from_centre := 1 # 8;
     operating_area_offset_from_table := 1 # 32;
     operating_area_offset_from_goal := 1 # 64;
     z_position_control_tolerance := 1 # 4;
     loss_of_tracking_prob_inc_per_step := 0;
     loss_of_tracking_min_steps := 2;
     loss_of_tracking_max_steps := 5 |}.

(** The arm of [dyadic_agent] at rest with the end effector on the spot the
    action [(-1/2, 0)] asks for. *)
Definition on_target : State :=
  {| current_joint_pos := [0; 0; 0; 0; 0; 0; 0];
     current_ee_pos := (205 # 256, 0, 1 # 8);
     current_ee_pos_xy_norm := (- (1 # 2), 0);
     lose_tracking_probability := 0;
     lose_tracking_n_steps_remaining := 0;
     previous_ee_pos_xy_norm := None;
     penalty_timer := 0;
     penalty_side := None;
     stacked_obs_participant_ee_pos := [];
     stacked_obs_opponent_ee_pos := [];
     stacked_obs_puck_pos := [];
     stacked_obs_puck_rot := [];
     _new_episode := true |}.

(** A stand-in for [np.linalg.norm] with rational values: the sum of the
    absolute values. *)
Definition norm1 (v : list Q) : Q := fold_right (fun x s => Qabs x + s) 0 v.

(** The table of the challenge two seconds into an episode, the puck in the
    robot's half moving slowly towards the opponent. *)
Definition table : Mdp :=
  {| mdp_dt := 1 # 50; mdp_table_length := 1948 # 1000;
     mdp_table_width := 1038 # 1000; mdp_goal_width := 25 # 100;
     mdp_puck_radius := 3165 # 100000; mdp_time := 2;
     puck_pos := (- (1 # 2), 1 # 10, 0); puck_vel := (1 # 5, 0, 0) |}.

(** The mallet half a metre behind the puck, the arm in its initial
    configuration. *)
Definition approach : RewardInput :=
  {| mdp := table;
     mdp_mallet_radius := 4815 # 100000;
     mdp_ee_pos := (- 1, 0, 0);
     puck_cur_pos := (- (1 # 2), 1 # 10, 0);
     next_joint_pos := [0; 0; 0; 0; 0; 0; 0];
     init_state := [0; 0; 0; 0; 0; 0; 0] |}.

End Scenario.

(** ** A sample configuration

    The table and the 7-joint arm of the air hockey challenge with the
    defaults of [__init__], used to run the definitions on concrete
    inputs. *)

Module Sample.

Definition joint_pos_limit : list Q :=
  [2967 # 1000; 2094 # 1000; 2967 # 1000; 2094 # 1000;
   2967 # 1000; 2094 # 1000; 3054 # 1000].

Definition joint_vel_limit : list Q :=
  [1483 # 1000; 1483 # 1000; 1745 # 1000; 1308 # 1000;
   2268 # 1000; 2356 # 1000; 2356 # 1000].

Definition env_with_dt (dt : Q) : EnvInfo :=
  {| table_length := 1948 # 1000;
     table_width := 1038 # 1000;
     puck_radius := 3165 # 100000;
     mallet_radius := 4815 # 100000;
     robot_ee_desired_height := 1645 # 10000;
     robot_base_frame_x := - (151 # 100);
     robot_joint_pos_limit := (map Qopp joint_pos_limit, joint_pos_limit);
     robot_joint_vel_limit := (map Qopp joint_vel_limit, joint_vel_limit);
     sim_dt := dt |}.

(** The simulation runs at 50 Hz. *)
Definition env : EnvInfo := env_with_dt (1 # 50).

(** The defaults of the constructor for a scheme, a mode and a time step. *)
Definition agent_with_dt (s : Scheme) (train : bool) (dt : Q) : Agent :=
  {| env_info := env_with_dt dt;
     evaluate := negb train;
     scheme := s;
     vel_constraints_scaling_factor := 65 # 100;
     filter_actions_enabled := true;
     filter_actions_coefficient := 75 # 100;
     operating_area_offset_from_centre := 17 # 100;
     operating_area_offset_from_table := 2 # 100;
     operating_area_offset_from_goal := 1 # 100;
     z_position_control_tolerance := 35 # 100;
     loss_of_tracking_prob_inc_per_step := 5 # 1000000;
     loss_of_tracking_min_steps := 2;
     loss_of_tracking_max_steps := 5 |}.

Definition agent (s : Scheme) (train : bool) : Agent :=
  agent_with_dt s train (1 # 50).

(** The attributes before the first [reset]. *)
Definition state : State :=
  {| current_joint_pos := [];
     current_ee_pos := (0, 0, 0);
     current_ee_pos_xy_norm := (0, 0);
     lose_tracking_probability := 0;
     lose_tracking_n_steps_remaining := 0;
     previous_ee_pos_xy_norm := None;
     penalty_timer := 0;
     penalty_side := None;
     stacked_obs_participant_ee_pos := [];
     stacked_obs_opponent_ee_pos := [];
     stacked_obs_puck_pos := [];
     stacked_obs_puck_rot := [];
     _new_episode := true |}.

(** The attributes after a first observation of the arm at rest. *)
Definition state_at_rest : State :=
  {| current_joint_pos := [0; 0; 0; 0; 0; 0; 0];
     current_ee_pos := (65 # 100, 0, 1645 # 10000);
     current_ee_pos_xy_norm := (- (1 # 2), 0);
     lose_tracking_probability := 0;
     lose_tracking_n_steps_remaining := 0;
     previous_ee_pos_xy_norm := None;
     penalty_timer := 0;
     penalty_side := None;
     stacked_obs_participant_ee_pos := [];
     stacked_obs_opponent_ee_pos := [];
     stacked_obs_puck_pos := [];
     stacked_obs_puck_rot := [];
     _new_episode := true |}.

(** A raw observation: the arm at rest, the puck at [(x, y)] with no yaw
    and the opponent's mallet at the far end. *)
Definition raw_obs (x y : Q) : RawObs :=
  {| get_joint_pos := [0; 0; 0; 0; 0; 0; 0];
     get_puck_pos := (x, y, 0);
     get_opponent_ee_pos := (25 # 10, 0, 0) |}.

Definition no_noise : Rng :=
  {| noise_obs_ee_pos := (0, 0, 0);
     noise_obs_opponent_ee_pos := (0, 0);
     noise_obs_puck_pos := (0, 0, 0);
     rand := 1 # 2;
     randint := 2;
     noise_act := (0, 0) |}.

Definition some_noise : Rng :=
  {| noise_obs_ee_pos := (1 # 1000, - (1 # 1000), 0);
     noise_obs_opponent_ee_pos := (1 # 100, 1 # 100);
     noise_obs_puck_pos := (2 # 1000, 1 # 1000, 1 # 100);
     rand := 0;
     randint := 3;
     noise_act := (1 # 1000, 1 # 1000) |}.

(** A stand-in for the kinematics: the mallet sits at a fixed point, and
    the first three joints move it along x, y and z. *)
Definition forward_kinematics (q : list Q) : vec3 :=
  (65 # 100, 0, 1645 # 10000).
Definition jacobian (q : list Q) : list (list Q) :=
  [[1; 0; 0; 0; 0; 0; 0]; [0; 1; 0; 0; 0; 0; 0]; [0; 0; 1; 0; 0; 0; 0];
   [0; 0; 0; 0; 0; 0; 0]; [0; 0; 0; 0; 0; 0; 0]; [0; 0; 0; 0; 0; 0; 0]].
(** Pseudo-inverse and singular values of the first three rows above. *)
Definition pinv (j : list (list Q)) : list vec3 :=
  [(1, 0, 0); (0, 1, 0); (0, 0, 1);
   (0, 0, 0); (0, 0, 0); (0, 0, 0); (0, 0, 0)].
Definition svd (j : list (list Q)) : vec3 := (1, 1, 1).
(** Sine and cosine at the yaw of [raw_obs]. *)
Definition sin (yaw : Q) : Q := 0.
Definition cos (yaw : Q) : Q := 1.

End Sample.

(** * The same code in binary64

    The decoder and the possession clock of the tournament reward once
    more, with the IEEE doubles of the program: Rocq's primitive floats,
    rounding to nearest as numpy does.  Nothing is proved here by algebra;
    the definitions are run, and statements about them are about the
    numbers the program computes.  Actions are float64 arrays, so that
    [dtype=action.dtype] casts nothing. *)

Module Binary64.

Local Open Scope float_scope.

Definition vec2 : Type := float * float.
Definition vec3 : Type := float * float * float.

(** [np.sum] over a short axis: the additive identity, then left to
    right. *)
Definition sum (l : list float) : float := fold_left PrimFloat.add l 0.

(** Python's [min(a, b)]: the first argument unless the second is less. *)
Definition min (a b : float) : float := if b <? a then b else a.

(** [np.abs] and [np.sign]. *)
Definition sign (x : float) : float :=
  if x <? 0 then -1 else if 0 <? x then 1 else if x =? 0 then 0 else nan.

Record EnvInfo : Type := {
  table_length : float;
  table_width : float;
  puck_radius : float;
  mallet_radius : float;
  robot_ee_desired_height : float;
  robot_base_frame_x : float;
  robot_joint_vel_limit : list float * list float;
  sim_dt : float
}.

Record Agent : Type := {
  env_info : EnvInfo;
  evaluate : bool;
  vel_constraints_scaling_factor : float;
  filter_actions_enabled : bool;
  filter_actions_coefficient : float;
  operating_area_offset_from_centre : float;
  operating_area_offset_from_table : float;
  operating_area_offset_from_goal : float;
  z_position_control_tolerance : float
}.

(** The attributes [process_raw_act] reads and writes. *)
Record State : Type := {
  current_joint_pos : list float;
  current_ee_pos : vec3;
  current_ee_pos_xy_norm : vec2;
  previous_ee_pos_xy_norm : option vec2
}.

(** [extract_env_info]: the derived constants of the decoder. *)
Definition robot_joint_vel_limit_scaled (a : Agent)
  : list float * list float :=
  let k := vel_constraints_scaling_factor a in
  let '(lo, hi) := robot_joint_vel_limit (env_info a) in
  (map (PrimFloat.mul k) lo, map (PrimFloat.mul k) hi).

Definition ee_table_minmax (a : Agent) : (float * float) * (float * float) :=
  let e := env_info a in
  ((abs (robot_base_frame_x e) - (table_length e / 2) + mallet_radius e
      + operating_area_offset_from_table a + operating_area_offset_from_goal a,
    abs (robot_base_frame_x e) - operating_area_offset_from_centre a),
   (- (table_width e / 2) + mallet_radius e + operating_area_offset_from_table a,
    (table_width e / 2) - mallet_radius e - operating_area_offset_from_table a)).

Definition _unnormalize_value (value low_out high_out : float) : float :=
  (high_out - low_out) * (value + 1) / 2 + low_out.

Section Decoder.

(** [self.jacobian], [np.linalg.pinv] and [np.linalg.svd], taken as
    given. *)
Variable jacobian : list float -> list (list float).
Variable np_linalg_pinv : list (list float) -> list vec3.
Variable np_linalg_svd : list (list float) -> vec3.

(** The action filter. *)
Definition filter_action (a : Agent) (st : State) (action : vec2)
  : vec2 * State :=
  if filter_actions_enabled a then
    let previous :=
      match previous_ee_pos_xy_norm st with
      | None => current_ee_pos_xy_norm st
      | Some p => p
      end in
    let c := filter_actions_coefficient a in
    let target_ee_pos_xy :=
      (c * fst previous + (1 - c) * fst action,
       c * snd previous + (1 - c) * snd action) in
    (target_ee_pos_xy,
     {| current_joint_pos := current_joint_pos st;
        current_ee_pos := current_ee_pos st;
        current_ee_pos_xy_norm := current_ee_pos_xy_norm st;
        previous_ee_pos_xy_norm := Some target_ee_pos_xy |})
  else (action, st).

(** The 3-D target; [noise] is what [np.random.normal] returned. *)
Definition target_position (a : Agent) (noise : vec2) (target_ee_pos_xy : vec2)
  : vec3 :=
  let '((xlo, xhi), (ylo, yhi)) := ee_table_minmax a in
  let x := _unnormalize_value (fst target_ee_pos_xy) xlo xhi in
  let y := _unnormalize_value (snd target_ee_pos_xy) ylo yhi in
  let z := robot_ee_desired_height (env_info a) in
  if negb (evaluate a) then (x + fst noise, y + snd noise, z) else (x, y, z).

(** The weights derived from the singular values. *)
Definition svd_weights (a : Agent) (s : vec3) : vec3 :=
  let '(s0, s1, s2) := s in
  let m := sum [s0; s1] / 2 in
  let s2 := s2 * z_position_control_tolerance a in
  let '(i0, i1, i2) := (1 / m, 1 / m, 1 / s2) in
  let total := sum [i0; i1; i2] in
  (i0 / total, i1 / total, i2 / total).

(** [np.average(row, weights=w)] *)
Definition np_average (row w : vec3) : res float :=
  let '(r0, r1, r2) := row in
  let '(w0, w1, w2) := w in
  let scl := sum [w0; w1; w2] in
  if scl =? 0 then Err ZeroDivisionError
  else Ok (sum [r0 * w0; r1 * w1; r2 * w2] / scl).

(** The joint velocities before the limits are enforced. *)
Definition inverse_jacobian_vel (a : Agent) (st : State) (target_ee_pos : vec3)
  : res (list float) :=
  let '(tx, ty, tz) := target_ee_pos in
  let '(cx, cy, cz) := current_ee_pos st in
  let '(dx, dy, dz) := (tx - cx, ty - cy, tz - cz) in
  let jac := firstn 3 (jacobian (current_joint_pos st)) in
  let jac_pinv := np_linalg_pinv jac in
  let s := svd_weights a (np_linalg_svd jac) in
  let joint_disp :=
    map (fun r : vec3 => let '(p0, p1, p2) := r in (p0 * dx, p1 * dy, p2 * dz))
      jac_pinv in
  joint_disp <- mapM (fun row => np_average row s) joint_disp ;;
  Ok (map (fun d => d / sim_dt (env_info a)) joint_disp).

Definition outside_vel_limit (j : float * (float * float)) : bool :=
  let '(v, (lo, hi)) := j in (v <? lo) || (hi <? v).

(** The body of [for joint_i in np.where(joints_outside_vel_limit)[0]]. *)
Fixpoint downscaling_loop (offending : list (float * (float * float)))
    (downscaling_factor : float) : float :=
  match offending with
  | [] => downscaling_factor
  | (v, (lo, hi)) :: rest =>
      let limit := if hi <? v then hi else lo in
      downscaling_loop rest (min downscaling_factor (1 - (v - limit) / v))
  end.

(** Limit the joint velocities to the maximum allowed. *)
Definition limit_joint_vel (joint_vel : list float)
    (limits : list float * list float) : res (list float) :=
  ranges <- np.zip_with (fun lo hi => Ok (lo, hi)) (fst limits) (snd limits) ;;
  joints <- np.zip_with (fun v r => Ok (v, r)) joint_vel ranges ;;
  if existsb outside_vel_limit joints then
    let downscaling_factor :=
      downscaling_loop (filter outside_vel_limit joints) 1 in
    Ok (map (fun v => v * downscaling_factor) joint_vel)
  else Ok joint_vel.

(** [process_raw_act]: the pair (joint_pos, joint_vel) and the new state. *)
Definition process_raw_act (a : Agent) (st : State) (noise : vec2)
    (action : vec2) : res ((list float * list float) * State) :=
  let '(target_ee_pos_xy, st) := filter_action a st action in
  let target_ee_pos := target_position a noise target_ee_pos_xy in
  joint_vel <- inverse_jacobian_vel a st target_ee_pos ;;
  joint_vel <- limit_joint_vel joint_vel (robot_joint_vel_limit_scaled a) ;;
  joint_pos <-
    np.zip_with (fun q v => Ok (q + sim_dt (env_info a) * v))
      (current_joint_pos st) joint_vel ;;
  Ok ((joint_pos, joint_vel), st).

End Decoder.

(** A velocity between the limits of its joint. *)
Definition within_limits (j : float * (float * float)) : bool :=
  let '(v, (lo, hi)) := j in (lo <=? v) && (v <=? hi).

(** The sample configuration of [Sample], in doubles. *)
Definition joint_vel_limit : list float :=
  [1.483; 1.483; 1.745; 1.308; 2.268; 2.356; 2.356].

Definition env : EnvInfo :=
  {| table_length := 1.948;
     table_width := 1.038;
     puck_radius := 0.03165;
     mallet_radius := 0.04815;
     robot_ee_desired_height := 0.1645;
     robot_base_frame_x := -1.51;
     robot_joint_vel_limit := (map PrimFloat.opp joint_vel_limit, joint_vel_limit);
     sim_dt := 0.02 |}.

Definition agent : Agent :=
  {| env_info := env;
     evaluate := true;
     vel_constraints_scaling_factor := 0.65;
     filter_actions_enabled := true;
     filter_actions_coefficient := 0.75;
     operating_area_offset_from_centre := 0.17;
     operating_area_offset_from_table := 0.02;
     operating_area_offset_from_goal := 0.01;
     z_position_control_tolerance := 0.35 |}.

Definition state_at_rest : State :=
  {| current_joint_pos := [0; 0; 0; 0; 0; 0; 0];
     current_ee_pos := (0.65, 0, 0.1645);
     current_ee_pos_xy_norm := (-0.5, 0);
     previous_ee_pos_xy_norm := None |}.

Definition jacobian (q : list float) : list (list float) :=
  [[1; 0; 0; 0; 0; 0; 0]; [0; 1; 0; 0; 0; 0; 0]; [0; 0; 1; 0; 0; 0; 0];
   [0; 0; 0; 0; 0; 0; 0]; [0; 0; 0; 0; 0; 0; 0]; [0; 0; 0; 0; 0; 0; 0]].
Definition pinv (j : list (list float)) : list vec3 :=
  [(1, 0, 0); (0, 1, 0); (0, 0, 1);
   (0, 0, 0); (0, 0, 0); (0, 0, 0); (0, 0, 0)].
Definition svd (j : list (list float)) : vec3 := (1, 1, 1).

(** [Scenario.dyadic_agent] and [Scenario.on_target], in doubles. *)
Definition dyadic_agent : Agent :=
  {| env_info :=
       {| table_length := 2;
          table_width := 1;
          puck_radius := 0.03125;
          mallet_radius := 0.0625;
          robot_ee_desired_height := 0.125;
          robot_base_frame_x := -1.5;
          robot_joint_vel_limit := (repeat (-2) 7, repeat 2 7);
          sim_dt := 0.015625 |};
     evaluate := true;
     vel_constraints_scaling_factor := 0.5;
     filter_actions_enabled := true;
     filter_actions_coefficient := 0.75;
     operating_area_offset_from_centre := 0.125;
     operating_area_offset_from_table := 0.03125;
     operating_area_offset_from_goal := 0.015625;
     z_position_control_tolerance := 0.25 |}.

Definition on_target : State :=
  {| current_joint_pos := [0; 0; 0; 0; 0; 0; 0];
     current_ee_pos := (0.80078125, 0, 0.125);
     current_ee_pos_xy_norm := (-0.5, 0);
     previous_ee_pos_xy_norm := None |}.

(** ** The possession clock of [TournamentReward] *)

(** What the reward reads from [mdp] and [mdp.get_puck(next_state)]. *)
Record Mdp : Type := {
  mdp_dt : float;
  mdp_table_length : float;
  mdp_goal_width : float;
  mdp_time : float;
  puck_pos : vec3;
  puck_vel : vec3
}.

Record Tournament : Type := {
  _reward_agent_score_goal : float;
  _reward_agent_receive_goal : float;
  _reward_opponent_faul : float;
  _reward_agent_faul : float;
  _reward_agent_cause_puck_stuck : float;
  penalty_timer : float;
  penalty_side : option float
}.

Definition MAX_TIME_UNTIL_PENALTY_S : float := 15.

Definition _penalty_threshold : float := 0.75 * MAX_TIME_UNTIL_PENALTY_S.

Definition __init__ (score_goal receive_goal opponent_faul agent_faul
    cause_puck_stuck : float) : Tournament :=
  {| _reward_agent_score_goal := score_goal;
     _reward_agent_receive_goal := receive_goal;
     _reward_opponent_faul := opponent_faul;
     _reward_agent_faul := agent_faul;
     _reward_agent_cause_puck_stuck := cause_puck_stuck;
     penalty_timer := 0;
     penalty_side := None |}.

Definition set_timer (self : Tournament) (timer : float) (side : option float)
  : Tournament :=
  {| _reward_agent_score_goal := _reward_agent_score_goal self;
     _reward_agent_receive_goal := _reward_agent_receive_goal self;
     _reward_opponent_faul := _reward_opponent_faul self;
     _reward_agent_faul := _reward_agent_faul self;
     _reward_agent_cause_puck_stuck := _reward_agent_cause_puck_stuck self;
     penalty_timer := timer;
     penalty_side := side |}.

(** Penalty checking (timer update): the new side and timer. *)
Definition timer_update (self : Tournament) (dt px : float) : float * float :=
  let side :=
    match penalty_side self with
    | None => sign px
    | Some s => s
    end in
  if sign px =? side
  then (side, penalty_timer self + dt)
  else (side * -1, 0).

(** Penalty checking: the fault reward, if one is due. *)
Definition penalty_checking (self : Tournament) (side timer px r : float)
  : res float :=
  if (_penalty_threshold <? timer) && (0.15 <=? abs px)
  then
    if side =? -1 then Ok (_reward_agent_faul self)
    else if side =? 1 then Ok (_reward_opponent_faul self)
    else Err ValueError
  else Ok r.

(** Puck stuck in the middle. *)
Definition puck_stuck (self : Tournament) (px vx r : float) : float :=
  if (abs px <? 0.15) && (abs vx <? 0.025)
  then _reward_agent_cause_puck_stuck self
  else r.

(** Goal checking. *)
Definition goal_checking (self : Tournament) (m : Mdp) (px py r : float)
  : float :=
  if abs py - mdp_goal_width m / 2 <=? 0 then
    if mdp_table_length m / 2 <? px
    then _reward_agent_score_goal self
    else if px <? - mdp_table_length m / 2
         then _reward_agent_receive_goal self
         else r
  else r.

(** [absorbing or mdp._data.time < mdp.env_info["dt"] * 2] *)
Definition episode_boundary (m : Mdp) (absorbing : bool) : bool :=
  absorbing || (mdp_time m <? mdp_dt m * 2).

(** [TournamentReward.__call__]: the reward and the shaper after the call. *)
Definition __call__ (self : Tournament) (m : Mdp) (absorbing : bool)
  : res (float * Tournament) :=
  let r := 0 in
  let '(px, py, _) := puck_pos m in
  let '(vx, _, _) := puck_vel m in
  let '(side, timer) := timer_update self (mdp_dt m) px in
  if episode_boundary m absorbing then
    r <- penalty_checking self side timer px r ;;
    let r := puck_stuck self px vx r in
    let r := goal_checking self m px py r in
    Ok (r, set_timer self 0 None)
  else Ok (r, set_timer self timer (Some side)).

(** The reward called step after step on one shaper object. *)
Fixpoint tournament_run (self : Tournament) (steps : list (Mdp * bool))
  : res (list float * Tournament) :=
  match steps with
  | [] => Ok ([], self)
  | (m, absorbing) :: rest =>
      '(r, self) <- __call__ self m absorbing ;;
      '(rs, self) <- tournament_run self rest ;;
      Ok (r :: rs, self)
  end.

(** The puck strictly on the negative side of the centre line, or
    strictly on the positive one. *)
Definition on_side (negative : bool) (m : Mdp) : Prop :=
  let px := fst (fst (puck_pos m)) in
  if negative then (px <? 0) = true
  else (px <? 0) = false /\ (0 <? px) = true.

(** The puck at least 0.15 from the centre line and not past an end of the
    table, as the tests of [__call__] see it. *)
Definition in_open_play (m : Mdp) : Prop :=
  let px := fst (fst (puck_pos m)) in
  (0.15 <=? abs px) = true /\ (abs px <? 0.15) = false
  /\ (mdp_table_length m / 2 <? px) = false
  /\ (px <? - mdp_table_length m / 2) = false.

(** The table of the challenge with the puck at [(x, 0.1)], [t] seconds
    into an episode with steps of [dt]. *)
Definition table (dt t x : float) : Mdp :=
  {| mdp_dt := dt; mdp_table_length := 1.948; mdp_goal_width := 0.25;
     mdp_time := t; puck_pos := (x, 0.1, 0); puck_vel := (0, 0, 0) |}.

End Binary64.

(** * Vocabulary of the statements *)

(** ** Numbers and vectors *)

(** The closed interval [[-1, 1]]. *)
Definition in_unit (x : Q) : Prop := -1 <= x <= 1.

(** Both components of a 2-vector satisfy [P]. *)
Definition both (P : Q -> Prop) (p : vec2) : Prop := P (fst p) /\ P (snd p).

(** The property every number has. *)
Definition any (x : Q) : Prop := True.

(** Equality of 2-vectors, component by component. *)
Definition eq2 (p q : vec2) : Prop := fst p == fst q /\ snd p == snd q.

(** ** Well-formed inputs of the encoder *)

(** The declared physical ranges are proper intervals: the puck is narrower
    than the table, and every joint has its lower limit below its upper
    limit. *)
Record wf_env (e : EnvInfo) : Prop := {
  wf_table_length : 2 * puck_radius e < table_length e;
  wf_table_width : 2 * puck_radius e < table_width e;
  wf_joint_pos_limit :
    Forall2 Qlt (fst (robot_joint_pos_limit e)) (snd (robot_joint_pos_limit e))
}.

(** The raw observation carries one position per joint limit. *)
Definition wf_obs (e : EnvInfo) (obs : RawObs) : Prop :=
  length (get_joint_pos obs) = length (fst (robot_joint_pos_limit e)).

(** Schemes 6 and 7 put the joint positions into the vector, and the
    declared length counts seven of them. *)
Definition joints_fit (s : Scheme) (obs : RawObs) : Prop :=
  match s with
  | S6 | S7 => length (get_joint_pos obs) = 7%nat
  | _ => True
  end.

(** A well-formed raw observation for the agent [a]. *)
Definition obs_ok (a : Agent) (obs : RawObs) : Prop :=
  wf_obs (env_info a) obs /\ joints_fit (scheme a) obs.

(** The normalised readings of a tick all satisfy [P]. *)
Definition bounded_obs (P : Q -> Prop) (n : Normalized) : Prop :=
  Forall P (current_joint_pos_normalized n)
  /\ both P (ee_pos_xy_norm n)
  /\ both P (opponent_ee_pos_xy_norm n)
  /\ both P (puck_pos_xy_norm n)
  /\ both P (puck_rot_yaw_norm n).

(** ** The deques during an episode *)

(** What the deques look like between two ticks of an episode: empty with
    the first-tick flag up, or full. Schemes 2 to 4 only need the bound the
    deque itself enforces. *)
Definition stacks_inv (s : Scheme) (st : State) : Prop :=
  match s with
  | S2 | S3 | S4 =>
      (length (stacked_obs_puck_pos st) <= n_stacked_obs_puck_pos s)%nat
      /\ (length (stacked_obs_participant_ee_pos st)
          <= n_stacked_obs_participant_ee_pos s)%nat
      /\ (length (stacked_obs_opponent_ee_pos st)
          <= n_stacked_obs_opponent_ee_pos s)%nat
  | S5 | S6 | S7 =>
      if _new_episode st then
        stacked_obs_puck_pos st = []
        /\ stacked_obs_participant_ee_pos st = []
        /\ stacked_obs_opponent_ee_pos st = []
        /\ (s = S7 -> stacked_obs_puck_rot st = [])
      else
        length (stacked_obs_puck_pos st) = n_stacked_obs_puck_pos s
        /\ length (stacked_obs_participant_ee_pos st)
           = n_stacked_obs_participant_ee_pos s
        /\ length (stacked_obs_opponent_ee_pos st)
           = n_stacked_obs_opponent_ee_pos s
        /\ (s = S7 ->
            length (stacked_obs_puck_rot st) = n_stacked_obs_puck_rot s)
  end.

(** Every stored reading satisfies [P]. *)
Definition stacks_bounded (P : Q -> Prop) (s : Scheme) (st : State) : Prop :=
  Forall (both P) (stacked_obs_puck_pos st)
  /\ Forall (both P) (stacked_obs_participant_ee_pos st)
  /\ Forall (both P) (stacked_obs_opponent_ee_pos st)
  /\ (s = S7 -> Forall (both P) (stacked_obs_puck_rot st)).

(** The deques right after a tick: all full. *)
Definition stacks_full (s : Scheme) (st : State) : Prop :=
  length (stacked_obs_puck_pos st) = n_stacked_obs_puck_pos s
  /\ length (stacked_obs_participant_ee_pos st)
     = n_stacked_obs_participant_ee_pos s
  /\ length (stacked_obs_opponent_ee_pos st) = n_stacked_obs_opponent_ee_pos s
  /\ (s = S7 -> length (stacked_obs_puck_rot st) = n_stacked_obs_puck_rot s)
  /\ (s <> S2 -> s <> S3 -> s <> S4 -> _new_episode st = false).

(** The state [st1] that stacking the readings [n] onto [st] leaves: full
    deques of readings that satisfy [P] whose newest puck reading, in evaluation, is the one
    of this tick; everything but the deques, the first-tick flag and the
    tracking counters as in [st]. *)
Definition stacked (P : Q -> Prop) (a : Agent) (n : Normalized)
    (st st1 : State) : Prop :=
  stacks_full (scheme a) st1
  /\ stacks_bounded P (scheme a) st1
  /\ (evaluate a = true ->
      deque_last (stacked_obs_puck_pos st1) = Ok (puck_pos_xy_norm n)
      /\ (scheme a = S7 ->
          deque_last (stacked_obs_puck_rot st1) = Ok (puck_rot_yaw_norm n)))
  /\ penalty_timer st1 = penalty_timer st
  /\ penalty_side st1 = penalty_side st
  /\ current_joint_pos st1 = current_joint_pos st
  /\ current_ee_pos st1 = current_ee_pos st
  /\ current_ee_pos_xy_norm st1 = current_ee_pos_xy_norm st
  /\ previous_ee_pos_xy_norm st1 = previous_ee_pos_xy_norm st.

(** ** The vector a tick returns *)

(** The number of entries the scheme dispatch concatenates when the raw
    observation has [joints] joint positions. *)
Definition encoded_length (s : Scheme) (joints : nat) : nat :=
  (1 + 2 * n_stacked_obs_puck_pos s
     + 2 * n_stacked_obs_participant_ee_pos s
     + 2 * n_stacked_obs_opponent_ee_pos s
     + match s with S6 | S7 => joints | _ => 0 end
     + 2 * n_stacked_obs_puck_rot s)%nat.

(** The first entry of the vector and the timer state a tick leaves. *)
Definition penalty_emitted (a : Agent) (n : Normalized) (st : State)
    (o : list Q) (st' : State) : Prop :=
  match scheme a with
  | S2 =>
      let r := penalty_timer_unsigned (sim_dt (env_info a)) (penalty_timer st)
                 (fst (puck_pos_xy_norm n)) in
      hd 0 o = np.clip (fst r) (-1) 1 /\ penalty_timer st' = snd r
  | _ =>
      let r := penalty_timer_step (sim_dt (env_info a)) (penalty_side st)
                 (penalty_timer st) (fst (puck_pos_xy_norm n)) in
      hd 0 o = np.clip (signed_penalty (fst r) (snd r)) (-1) 1
      /\ penalty_side st' = Some (fst r)
      /\ penalty_timer st' = snd r
  end.

(** What [encode] returns for the readings [n] from the state [st]. *)
Definition encoded (P : Q -> Prop) (a : Agent) (n : Normalized) (st : State)
    (o : list Q) (st' : State) : Prop :=
  stacks_full (scheme a) st'
  /\ stacks_bounded P (scheme a) st'
  /\ Forall P o
  /\ length o
     = encoded_length (scheme a) (length (current_joint_pos_normalized n))
  /\ penalty_emitted a n st o st'
  /\ (evaluate a = true ->
      deque_last (stacked_obs_puck_pos st') = Ok (puck_pos_xy_norm n)
      /\ (scheme a = S7 ->
          deque_last (stacked_obs_puck_rot st') = Ok (puck_rot_yaw_norm n)))
  /\ current_joint_pos st' = current_joint_pos st
  /\ current_ee_pos st' = current_ee_pos st
  /\ current_ee_pos_xy_norm st' = current_ee_pos_xy_norm st
  /\ previous_ee_pos_xy_norm st' = previous_ee_pos_xy_norm st.

(** The first entry, the side and the timer after each tick of a run. *)
Fixpoint penalty_trace (forward_kinematics : list Q -> vec3)
    (np_sin np_cos : Q -> Q) (a : Agent) (st : State)
    (ticks : list (Rng * RawObs)) : res (list (Q * option Q * Q)) :=
  match ticks with
  | [] => Ok []
  | (rng, obs) :: rest =>
      '(o, st) <- process_raw_obs forward_kinematics np_sin np_cos a st rng obs ;;
      tr <- penalty_trace forward_kinematics np_sin np_cos a st rest ;;
      Ok ((Qred (hd 0 o), option_map Qred (penalty_side st),
           Qred (penalty_timer st)) :: tr)
  end.

(** The first entry of the last vector of a run, with the side and the
    timer the run leaves. *)
Definition final_penalty (r : res (list (list Q) * State))
  : option (Q * option Q * Q) :=
  match r with
  | Ok (outs, st') =>
      Some (hd 0 (last outs []), penalty_side st', penalty_timer st')
  | Err _ => None
  end.

(** ** The decoder *)

(** The value the filter smooths towards: the stored previous target, or the
    current normalised end-effector position when none is stored. *)
Definition filter_previous (st : State) : vec2 :=
  match previous_ee_pos_xy_norm st with
  | None => current_ee_pos_xy_norm st
  | Some p => p
  end.

(** The limit an offending joint is measured against, and the factor that
    brings it exactly onto that limit. *)
Definition binding_limit (j : Q * (Q * Q)) : Q :=
  let '(v, (lo, hi)) := j in if np.ltb hi v then hi else lo.
Definition joint_factor (j : Q * (Q * Q)) : Q :=
  let '(v, _) := j in 1 - (v - binding_limit j) / v.

(** A joint whose lower limit is negative and upper limit positive. *)
Definition signed_limits (j : Q * (Q * Q)) : Prop :=
  let '(_, (lo, hi)) := j in lo < 0 /\ 0 < hi.

(** A velocity between the limits of its joint. *)
Definition within_limits (j : Q * (Q * Q)) : Prop :=
  let '(v, (lo, hi)) := j in lo <= v <= hi.

(** The weights in the words of the specification: replace the first two
    singular values by their mean, multiply the third by the tolerance,
    invert each, and divide by the sum of the three. *)
Definition spec_weights (s : vec3) (tolerance : Q) : vec3 :=
  let '(s0, s1, s2) := s in
  let mean := (s0 + s1) / 2 in
  let i0 := / mean in
  let i1 := / mean in
  let i2 := / (s2 * tolerance) in
  (i0 / (i0 + i1 + i2), i1 / (i0 + i1 + i2), i2 / (i0 + i1 + i2)).

(** The weighted sum over the three Cartesian directions for one joint,
    divided by the time step. *)
Definition spec_joint_vel (w : vec3) (row : vec3) (disp : vec3) (dt : Q) : Q :=
  let '(w0, w1, w2) := w in
  let '(p0, p1, p2) := row in
  let '(d0, d1, d2) := disp in
  (w0 * p0 * d0 + w1 * p1 * d1 + w2 * p2 * d2) / dt.

(** Three positive singular values: a Jacobian of full rank. *)
Definition positive3 (s : vec3) : Prop :=
  let '(s0, s1, s2) := s in 0 < s0 /\ 0 < s1 /\ 0 < s2.

(** The first three rows of the Jacobian at the current joint positions. *)
Definition jac_of (jacobian : list Q -> list (list Q)) (st : State)
  : list (list Q) :=
  firstn 3 (jacobian (current_joint_pos st)).

(** The solve meets no zero divisor: the Jacobian has full rank, the
    tolerance is positive and time advances. *)
Definition solvable (jacobian : list Q -> list (list Q))
    (np_linalg_svd : list (list Q) -> vec3) (a : Agent) (st : State) : Prop :=
  positive3 (np_linalg_svd (jac_of jacobian st))
  /\ 0 < z_position_control_tolerance a
  /\ ~ sim_dt (env_info a) == 0.

(** A call of [process_raw_act] with a solvable Jacobian, as many joint
    limits and joint positions as the pseudo-inverse has rows, and limits
    that enclose zero. *)
Definition decodable (jacobian : list Q -> list (list Q))
    (np_linalg_pinv : list (list Q) -> list vec3)
    (np_linalg_svd : list (list Q) -> vec3) (a : Agent) (st : State) : Prop :=
  let n := length (np_linalg_pinv (jac_of jacobian st)) in
  solvable jacobian np_linalg_svd a st
  /\ length (fst (robot_joint_vel_limit_scaled a)) = n
  /\ length (snd (robot_joint_vel_limit_scaled a)) = n
  /\ length (current_joint_pos st) = n
  /\ Forall (fun l => l < 0) (fst (robot_joint_vel_limit_scaled a))
  /\ Forall (fun h => 0 < h) (snd (robot_joint_vel_limit_scaled a)).

(** ** Tracking of the puck and the layout of the vector *)

(** The puck reading the encoder trusts: in evaluation, outside scheme 7,
    and in training while no blind interval is running. *)
Definition tracking (a : Agent) (st : State) : Prop :=
  scheme a <> S7 \/ evaluate a = true
  \/ (lose_tracking_n_steps_remaining st <= 0)%Z.

(** A blind interval of scheme 7 in training. *)
Definition blind (a : Agent) (st : State) : Prop :=
  scheme a = S7 /\ evaluate a = false
  /\ (0 < lose_tracking_n_steps_remaining st)%Z.

(** What follows the first entry of the vector of a tick: in schemes 6 and
    7 the normalised joint positions, then the flattened deques of the state
    the tick leaves, the puck first, in scheme 7 followed by its rotation,
    then the two end effectors. *)
Definition layout (s : Scheme) (joints_norm : list Q) (st : State) : list Q :=
  match s with
  | S2 | S3 | S4 | S5 =>
      flatten (stacked_obs_puck_pos st)
        ++ flatten (stacked_obs_participant_ee_pos st)
        ++ flatten (stacked_obs_opponent_ee_pos st)
  | S6 =>
      joints_norm
        ++ flatten (stacked_obs_puck_pos st)
        ++ flatten (stacked_obs_participant_ee_pos st)
        ++ flatten (stacked_obs_opponent_ee_pos st)
  | S7 =>
      joints_norm
        ++ flatten (stacked_obs_puck_pos st)
        ++ flatten (stacked_obs_puck_rot st)
        ++ flatten (stacked_obs_participant_ee_pos st)
        ++ flatten (stacked_obs_opponent_ee_pos st)
  end.

(** ** What an episode can see of the state *)

(** The result of a call with [f] applied to its value. *)
Definition res_map {A B : Type} (f : A -> B) (m : res A) : res B :=
  match m with
  | Ok a => Ok (f a)
  | Err e => Err e
  end.

(** The part of the state the calls of an episode read: not the side of the
    timer in scheme 2, not the rotation deque outside scheme 7, not the
    filter memory when the filter is off; and, before the observation of a
    tick is processed ([current = false]), not the joint and end-effector
    positions of the previous tick. *)
Definition episode_view (a : Agent) (current : bool) (st : State) : State :=
  {| current_joint_pos := if current then current_joint_pos st else [];
     current_ee_pos := if current then current_ee_pos st else (0, 0, 0);
     current_ee_pos_xy_norm :=
       if current then current_ee_pos_xy_norm st else (0, 0);
     lose_tracking_probability := lose_tracking_probability st;
     lose_tracking_n_steps_remaining := lose_tracking_n_steps_remaining st;
     previous_ee_pos_xy_norm :=
       if filter_actions_enabled a then previous_ee_pos_xy_norm st else None;
     penalty_timer := penalty_timer st;
     penalty_side :=
       match scheme a with S2 => None | _ => penalty_side st end;
     stacked_obs_participant_ee_pos := stacked_obs_participant_ee_pos st;
     stacked_obs_opponent_ee_pos := stacked_obs_opponent_ee_pos st;
     stacked_obs_puck_pos := stacked_obs_puck_pos st;
     stacked_obs_puck_rot :=
       match scheme a with S7 => stacked_obs_puck_rot st | _ => [] end;
     _new_episode := _new_episode st |}.

(** * Properties *)

(** ** Facts about the numeric layer *)

(** The constructor accepts exactly the schemes 2 to 7. *)
Lemma scheme_of_Z_accepts (z : Z) (s : Scheme) :
  scheme_of_Z z = Ok s <-> z = scheme_to_Z s.
Proof.
  split.
  - destruct z as [|p|p]; try discriminate.
    destruct p as [[[q|q|]|[q|q|]|]|[[q|q|]|[q|q|]|]|]; simpl;
      try discriminate; intro H; inversion H; reflexivity.
  - intros ->. destruct s; reflexivity.
Qed.

Lemma ltb_true (x y : Q) : np.ltb x y = true <-> x < y.
Proof.
  unfold np.ltb. rewrite negb_true_iff.
  split; intro H.
  - apply Qnot_le_lt. intro L. apply Qle_bool_iff in L. congruence.
  - destruct (Qle_bool y x) eqn:E; [|reflexivity].
    apply Qle_bool_iff in E. lra.
Qed.

Lemma ltb_false (x y : Q) : np.ltb x y = false <-> y <= x.
Proof.
  unfold np.ltb. rewrite negb_false_iff. apply Qle_bool_iff.
Qed.

Lemma leb_false (x y : Q) : Qle_bool x y = false <-> y < x.
Proof.
  rewrite <- ltb_true. unfold np.ltb.
  destruct (Qle_bool x y); simpl; intuition congruence.
Qed.

Lemma eqb_false (x y : Q) : Qeq_bool x y = false <-> ~ x == y.
Proof.
  split.
  - intros E H. apply Qeq_bool_iff in H. congruence.
  - intro H. destruct (Qeq_bool x y) eqn:E; [|reflexivity].
    apply Qeq_bool_iff in E. contradiction.
Qed.

Ltac bools :=
  repeat match goal with
  | H : np.ltb _ _ = true |- _ => apply ltb_true in H
  | H : np.ltb _ _ = false |- _ => apply ltb_false in H
  | H : Qle_bool _ _ = true |- _ => apply Qle_bool_iff in H
  | H : Qle_bool _ _ = false |- _ => apply leb_false in H
  | H : Qeq_bool _ _ = true |- _ => apply Qeq_bool_iff in H
  | H : Qeq_bool _ _ = false |- _ => apply eqb_false in H
  end.

(** [lra] after division by the constants of the program is turned into
    multiplication. *)
Ltac qlra :=
  unfold Qdiv in *;
  change (/ 2) with (1 # 2) in *;
  change (/ 15) with (1 # 15) in *;
  lra.

(** Comparisons between closed rationals, by evaluation. *)
Ltac qcompute :=
  vm_compute; first [reflexivity | discriminate | intro; discriminate].

Lemma div_ok (a b : Q) : ~ b == 0 -> np.div a b = Ok (a / b).
Proof.
  intro H. unfold np.div. apply eqb_false in H. now rewrite H.
Qed.

Lemma clip_unit (x : Q) : in_unit (np.clip x (-1) 1).
Proof.
  unfold in_unit, np.clip.
  destruct (Q.max_spec x (-1)) as [[? ->] | [? ->]];
    destruct (Q.min_spec 1 (-1)) as [[? E] | [? E]];
    try (destruct (Q.min_spec 1 x) as [[? ->] | [? ->]]); 
    try rewrite E; lra.
Qed.

Lemma clip_id (x : Q) : in_unit x -> np.clip x (-1) 1 == x.
Proof.
  unfold in_unit, np.clip. intros [L U].
  rewrite (Q.max_l x (-1)) by lra.
  rewrite Q.min_r by lra. reflexivity.
Qed.

Lemma normalize_ok (x lo hi : Q) :
  ~ lo == hi -> _normalize_value x lo hi = Ok (2 * (x - lo) / (hi - lo) - 1).
Proof.
  intro H. unfold _normalize_value.
  rewrite div_ok by lra. reflexivity.
Qed.

(** ** Round trip of the normalisation *)

(** C8. For a range with [low < high] and every [x] strictly inside it,
    [_normalize_value] returns a number that [_unnormalize_value] maps back
    to [x], exactly over the rationals. *)
Theorem unnormalize_normalize (x low high : Q) :
  low < high -> low < x -> x < high ->
  exists y,
    _normalize_value x low high = Ok y /\
    y == 2 * (x - low) / (high - low) - 1 /\
    _unnormalize_value y low high == x.
Proof.
  intros Hr Hl Hh.
  exists (2 * (x - low) / (high - low) - 1).
  split; [apply normalize_ok; lra|].
  split; [reflexivity|].
  unfold _unnormalize_value. field. lra.
Qed.

Lemma unnormalize_normalize_witness :
  exists y,
    _normalize_value (1 # 4) 0 1 = Ok y /\
    y == 2 * ((1 # 4) - 0) / (1 - 0) - 1 /\
    _unnormalize_value y 0 1 == 1 # 4.
Proof.
  apply (unnormalize_normalize (1 # 4) 0 1); reflexivity.
Defined.

(** ** The action filter *)

Lemma filter_action_enabled (a : Agent) (st : State) (action : vec2) :
  filter_actions_enabled a = true ->
  let c := filter_actions_coefficient a in
  let smoothed :=
    (c * fst (filter_previous st) + (1 - c) * fst action,
     c * snd (filter_previous st) + (1 - c) * snd action) in
  filter_action a st action = (smoothed, set_previous st (Some smoothed)).
Proof.
  intro H. unfold filter_action, filter_previous. rewrite H. reflexivity.
Qed.

Section ActionFilter.

Variable jacobian : list Q -> list (list Q).
Variable np_linalg_pinv : list (list Q) -> list vec3.
Variable np_linalg_svd : list (list Q) -> vec3.

Lemma process_raw_act_previous (a : Agent) (st st' : State) (rng : Rng)
    (action : vec2) (out : list Q * list Q) :
  process_raw_act jacobian np_linalg_pinv np_linalg_svd a st rng action
    = Ok (out, st') ->
  st' = snd (filter_action a st action).
Proof.
  unfold process_raw_act.
  destruct (filter_action a st action) as [t st1]. simpl.
  destruct (inverse_jacobian_vel _ _ _ _ _ _) as [v|]; [simpl|discriminate].
  destruct (limit_joint_vel _ _) as [v'|]; [simpl|discriminate].
  destruct (np.zip_with _ _ _) as [p|]; [simpl|discriminate].
  intro H. now inversion H.
Qed.

(** C7. With filtering enabled the filter returns
    [alpha * previous + (1 - alpha) * target] and stores it as the new
    previous value, also in the state [process_raw_act] returns; with
    [alpha = 1] the result is the previous value, with [alpha = 0] it is
    the target; right after [reset] the previous value is the current
    normalised end-effector position. *)
Theorem action_filter_smoothing (a : Agent) (st : State) (action : vec2) :
  filter_actions_enabled a = true ->
  let alpha := filter_actions_coefficient a in
  let previous := filter_previous st in
  let smoothed := fst (filter_action a st action) in
  smoothed = (alpha * fst previous + (1 - alpha) * fst action,
              alpha * snd previous + (1 - alpha) * snd action)
  /\ previous_ee_pos_xy_norm (snd (filter_action a st action)) = Some smoothed
  /\ (forall rng out st',
        process_raw_act jacobian np_linalg_pinv np_linalg_svd a st rng action
          = Ok (out, st') ->
        previous_ee_pos_xy_norm st' = Some smoothed)
  /\ (alpha == 1 -> eq2 smoothed previous)
  /\ (alpha == 0 -> eq2 smoothed action)
  /\ (previous_ee_pos_xy_norm st = None ->
      previous = current_ee_pos_xy_norm st)
  /\ previous_ee_pos_xy_norm (reset a st) = None
  /\ filter_previous (reset a st) = current_ee_pos_xy_norm st.
Proof.
  intros En alpha previous smoothed.
  pose proof (filter_action_enabled a st action En) as E. simpl in E.
  subst smoothed. rewrite E. simpl.
  fold previous. fold alpha.
  split; [reflexivity|].
  split; [reflexivity|].
  split.
  { intros rng out st' H.
    apply process_raw_act_previous in H. rewrite E in H. now subst st'. }
  split.
  { intro A. split; simpl; rewrite A; ring. }
  split.
  { intro A. split; simpl; rewrite A; ring. }
  split.
  { unfold previous, filter_previous. now intros ->. }
  split.
  { unfold reset. simpl. now rewrite En. }
  unfold filter_previous, reset. simpl. now rewrite En.
Qed.

End ActionFilter.

Lemma action_filter_smoothing_witness :
  fst (filter_action (Sample.agent S7 false) Sample.state (1, 0))
  = ((75 # 100) * 0 + (1 - (75 # 100)) * 1, (75 # 100) * 0 + (1 - (75 # 100)) * 0).
Proof.
  exact (proj1 (action_filter_smoothing Sample.jacobian Sample.pinv Sample.svd
                  (Sample.agent S7 false) Sample.state (1, 0) eq_refl)).
Defined.

(** ** The bounce point of the hit reward *)

Lemma Qabs_cases (x : Q) : (0 <= x /\ Qabs x == x) \/ (x < 0 /\ Qabs x == - x).
Proof.
  destruct (Qlt_le_dec x 0) as [N | P].
  - right. split; [assumption|]. apply Qabs_neg. lra.
  - left. split; [assumption|]. now apply Qabs_pos.
Qed.

(** C10. For a puck on the table, [|puck_y| <= table_width / 2 - puck_radius]
    with [0 < puck_radius < table_width / 2], the divisor of the bounce point
    is strictly negative, so [side_point] is computed: the division does not
    meet a zero divisor. *)
Theorem side_point_denominator_negative (mdp : Mdp) :
  0 < mdp_puck_radius mdp ->
  mdp_puck_radius mdp < mdp_table_width mdp / 2 ->
  Qabs (snd (fst (puck_pos mdp))) <= mdp_table_width mdp / 2 - mdp_puck_radius mdp ->
  HitReward.bounce_denominator mdp < 0
  /\ ~ HitReward.bounce_denominator mdp == 0
  /\ exists w,
       HitReward.side_point mdp
         = Ok (w, np.copysign (HitReward.effective_width mdp)
                    (snd (fst (puck_pos mdp))))
       /\ w * HitReward.bounce_denominator mdp
          == Qabs (snd (fst (puck_pos mdp))) * fst HitReward.goal
             + snd HitReward.goal * fst (fst (puck_pos mdp))
             - HitReward.effective_width mdp * fst (fst (puck_pos mdp))
             - HitReward.effective_width mdp * fst HitReward.goal.
Proof.
  intros Hr Hw Hy.
  assert (D : HitReward.bounce_denominator mdp < 0).
  { unfold HitReward.bounce_denominator, HitReward.effective_width.
    destruct (puck_pos mdp) as [[px py] yaw]. simpl in *. lra. }
  split; [exact D|]. split; [lra|].
  unfold HitReward.side_point, HitReward.bounce_denominator in *.
  destruct (puck_pos mdp) as [[px py] yaw]. simpl in *.
  rewrite div_ok by lra. simpl.
  eexists. split; [reflexivity|].
  field. lra.
Qed.

Lemma side_point_denominator_negative_witness :
  HitReward.bounce_denominator
    {| mdp_dt := 1 # 50; mdp_table_length := 1948 # 1000;
       mdp_table_width := 1038 # 1000; mdp_goal_width := 25 # 100;
       mdp_puck_radius := 3165 # 100000; mdp_time := 1;
       puck_pos := (- (7 # 10), 2 # 10, 0); puck_vel := (0, 0, 0) |} < 0.
Proof.
  apply side_point_denominator_negative; qcompute.
Defined.

(** ** The tournament reward *)

Lemma sign_values (x : Q) :
  (x < 0 /\ np.sign x = -1) \/ (x == 0 /\ np.sign x = 0) \/ (0 < x /\ np.sign x = 1).
Proof.
  unfold np.sign.
  destruct (np.ltb x 0) eqn:N; bools; [now left|].
  destruct (np.ltb 0 x) eqn:P; bools; [now right; right|].
  right; left. split; [lra|reflexivity].
Qed.

(** The fault branch is entered only with a side that is -1 or 1, so the
    penalty check returns a reward and does not raise. *)
Lemma penalty_checking_decided (self : TournamentReward.t) (dt px r : Q) :
  exists r',
    TournamentReward.penalty_checking self
      (fst (TournamentReward.timer_update self dt px))
      (snd (TournamentReward.timer_update self dt px)) px r = Ok r'.
Proof.
  unfold TournamentReward.timer_update, TournamentReward.penalty_checking.
  set (side0 := match TournamentReward.penalty_side self with
                | Some s => s | None => np.sign px end).
  destruct (Qeq_bool (np.sign px) side0) eqn:Same; cbn [fst snd].
  - destruct (np.ltb _ _ && Qle_bool (15 # 100) (Qabs px)) eqn:Fault;
      [|eauto].
    apply andb_prop in Fault. destruct Fault as [_ Far]. bools.
    destruct (sign_values px) as [[N S] | [[Z S] | [P S]]].
    + rewrite S in Same.
      assert (E : Qeq_bool side0 (-1) = true)
        by (apply Qeq_bool_iff; symmetry; exact Same).
      rewrite E. eauto.
    + exfalso. rewrite Z in Far. revert Far. cbn. unfold Qle. simpl. lia.
    + rewrite S in Same.
      assert (E1 : Qeq_bool side0 (-1) = false) by (apply eqb_false; lra).
      assert (E2 : Qeq_bool side0 1 = true)
        by (apply Qeq_bool_iff; symmetry; exact Same).
      rewrite E1, E2. eauto.
  - (* the side flips and the timer restarts below the threshold *)
    replace (np.ltb TournamentReward._penalty_threshold 0) with false
      by reflexivity.
    simpl. eauto.
Qed.

Lemma tournament_terminal (self : TournamentReward.t) (mdp : Mdp) :
  exists r,
    TournamentReward.__call__ self mdp true
    = Ok (TournamentReward.goal_checking self mdp
            (fst (fst (puck_pos mdp))) (snd (fst (puck_pos mdp)))
            (TournamentReward.puck_stuck self
               (fst (fst (puck_pos mdp))) (fst (fst (puck_vel mdp))) r),
          TournamentReward.set_timer self 0 None).
Proof.
  unfold TournamentReward.__call__.
  destruct (puck_pos mdp) as [[px py] yaw].
  destruct (puck_vel mdp) as [[vx vy] vyaw]. cbn [fst snd].
  destruct (penalty_checking_decided self (mdp_dt mdp) px 0) as [r' E].
  destruct (TournamentReward.timer_update self (mdp_dt mdp) px) as [side timer].
  cbn [fst snd orb] in *. rewrite E. cbn [bind]. eauto.
Qed.

(** C9. On a terminal step with the puck within the length of the table,
    less than 0.15 from the centre line and slower than 0.025 along x, the
    reward is the configured puck-stuck value; and every terminal step
    returns a reward and leaves the timer at 0 and the side unset. *)
Theorem tournament_terminal_step :
  (forall (self : TournamentReward.t) (mdp : Mdp),
     let px := fst (fst (puck_pos mdp)) in
     let vx := fst (fst (puck_vel mdp)) in
     Qabs px < 15 # 100 ->
     Qabs vx < 25 # 1000 ->
     Qabs px <= mdp_table_length mdp / 2 ->
     exists self',
       TournamentReward.__call__ self mdp true
         = Ok (TournamentReward._reward_agent_cause_puck_stuck self, self'))
  /\ (forall (self : TournamentReward.t) (mdp : Mdp),
        exists r self',
          TournamentReward.__call__ self mdp true = Ok (r, self')
          /\ TournamentReward.penalty_timer self' = 0
          /\ TournamentReward.penalty_side self' = None).
Proof.
  split.
  - intros self mdp px vx Hx Hv Ht.
    destruct (tournament_terminal self mdp) as [r E]. rewrite E.
    fold px. fold vx. clearbody px vx.
    unfold TournamentReward.puck_stuck, TournamentReward.goal_checking.
    apply ltb_true in Hx, Hv. rewrite Hx, Hv. cbn [andb]. bools.
    assert (G1 : np.ltb (mdp_table_length mdp / 2) px = false)
      by (apply ltb_false; destruct (Qabs_cases px) as [[? A]|[? A]]; qlra).
    assert (G2 : np.ltb px (- mdp_table_length mdp / 2) = false)
      by (apply ltb_false; destruct (Qabs_cases px) as [[? A]|[? A]]; qlra).
    rewrite G1, G2.
    destruct (Qle_bool _ 0); eauto.
  - intros self mdp.
    destruct (tournament_terminal self mdp) as [r E]. rewrite E.
    eauto.
Qed.

Lemma tournament_terminal_step_witness :
  let self := TournamentReward.__init__ 1 (-1) (1 # 3) (- 1 # 3) 0 in
  let mdp :=
    {| mdp_dt := 1 # 50; mdp_table_length := 1948 # 1000;
       mdp_table_width := 1038 # 1000; mdp_goal_width := 25 # 100;
       mdp_puck_radius := 3165 # 100000; mdp_time := 30;
       puck_pos := (0, 1 # 10, 0); puck_vel := (1 # 100, 0, 0) |} in
  exists self', TournamentReward.__call__ self mdp true = Ok (0, self').
Proof.
  intros self mdp.
  apply (proj1 tournament_terminal_step self mdp); qcompute.
Defined.

(** ** Facts about the deques *)

Section DequeFacts.
Context {A : Type}.
Variable P : A -> Prop.

Lemma In_skipn (k : nat) (l : list A) (y : A) : In y (skipn k l) -> In y l.
Proof.
  intro H. rewrite <- (firstn_skipn k l). apply in_or_app. now right.
Qed.

Lemma deque_append_length (n : nat) (d : list A) (x : A) :
  length (deque_append n d x) = Nat.min n (S (length d)).
Proof.
  unfold deque_append. rewrite length_skipn, length_app. simpl. lia.
Qed.

Lemma deque_append_Forall (n : nat) (d : list A) (x : A) :
  Forall P d -> P x -> Forall P (deque_append n d x).
Proof.
  intros Hd Hx. unfold deque_append.
  apply Forall_forall. intros y Hy.
  apply In_skipn in Hy.
  apply in_app_or in Hy. destruct Hy as [Hy | [<- | []]]; [|assumption].
  revert y Hy. now apply Forall_forall.
Qed.

(** The newest element of a deque with room for one is the one appended. *)
Lemma deque_append_last (n : nat) (d : list A) (x : A) :
  (0 < n)%nat -> deque_last (deque_append n d x) = Ok x.
Proof.
  intro Hn. unfold deque_last, deque_append.
  assert (E : skipn (length (d ++ [x]) - n) (d ++ [x])
              = skipn (length (d ++ [x]) - n) d ++ [x]).
  { rewrite skipn_app.
    replace (length (d ++ [x]) - n - length d)%nat with O
      by (rewrite length_app; simpl; lia).
    reflexivity. }
  rewrite E, rev_app_distr. reflexivity.
Qed.

Lemma deque_extend_Forall (n : nat) (xs d : list A) :
  Forall P d -> Forall P xs -> Forall P (deque_extend n d xs).
Proof.
  unfold deque_extend. revert d.
  induction xs as [|x xs IH]; intros d Hd Hxs; simpl; [assumption|].
  inversion Hxs; subst. apply IH; [|assumption].
  now apply deque_append_Forall.
Qed.

(** The fill loop stops within [n - length d] rounds on a deque that is
    not over-full, and leaves it full; it only adds copies of [x]. *)
Lemma fill_while_full (n : nat) (x : A) (fuel : nat) (d : list A) :
  (length d <= n)%nat -> (n - length d <= fuel)%nat -> Forall P d -> P x ->
  exists d',
    fill_while fuel n d x = Ok d' /\ length d' = n /\ Forall P d'
    /\ (deque_last d = Ok x -> deque_last d' = Ok x).
Proof.
  revert d. induction fuel as [|fuel IH]; intros d Hle Hf Hd Hx; simpl.
  - replace (Nat.eqb n (length d)) with true
      by (symmetry; apply Nat.eqb_eq; lia).
    exists d. split; [reflexivity|]. split; [lia|]. split; auto.
  - destruct (Nat.eqb n (length d)) eqn:E.
    + apply Nat.eqb_eq in E. exists d. split; [reflexivity|]. split; auto.
    + apply Nat.eqb_neq in E.
      destruct (IH (deque_append n d x)) as (d' & R & L & F & La).
      * rewrite deque_append_length. lia.
      * rewrite deque_append_length. lia.
      * now apply deque_append_Forall.
      * assumption.
      * exists d'. split; [assumption|]. split; [assumption|].
        split; [assumption|].
        intros _. apply La. apply deque_append_last. lia.
Qed.

Lemma append_and_fill_full (n : nat) (x : A) (d : list A) :
  (0 < n)%nat -> (length d <= n)%nat -> Forall P d -> P x ->
  exists d',
    append_and_fill n d x = Ok d' /\ length d' = n /\ Forall P d'
    /\ deque_last d' = Ok x.
Proof.
  intros Hn Hle Hd Hx. unfold append_and_fill.
  destruct (fill_while_full n x n (deque_append n d x))
    as (d' & R & L & F & La).
  - rewrite deque_append_length. lia.
  - lia.
  - now apply deque_append_Forall.
  - assumption.
  - exists d'. split; [assumption|]. split; [assumption|].
    split; [assumption|].
    apply La. now apply deque_append_last.
Qed.

(** The newest element of a non-empty deque. *)
Lemma deque_last_Forall (d : list A) :
  Forall P d -> d <> [] -> exists x, deque_last d = Ok x /\ P x.
Proof.
  intros F Hne. unfold deque_last.
  destruct (rev d) as [|x r] eqn:E.
  - apply (f_equal (@rev A)) in E. rewrite rev_involutive in E.
    simpl in E. contradiction.
  - exists x. split; [reflexivity|].
    rewrite Forall_forall in F. apply F. apply in_rev.
    rewrite E. now left.
Qed.

End DequeFacts.

(** ** The observation encoder, one tick *)

Section Encoder.

(** The property of the entries that is followed through the encoder:
    every clipped value has it. *)
Variable P : Q -> Prop.
Hypothesis P_clip : forall x, P (np.clip x (-1) 1).

Lemma stacks_full_inv (s : Scheme) (st : State) :
  stacks_full s st -> stacks_inv s st.
Proof.
  intros (Lp & E & O & R & N). unfold stacks_inv.
  destruct s; try (repeat split; lia);
    rewrite N by discriminate; auto.
Qed.

Lemma reset_stacks_inv (a : Agent) (st : State) :
  stacks_inv (scheme a) (reset a st) /\ stacks_bounded P (scheme a) (reset a st).
Proof.
  unfold stacks_inv, stacks_bounded, reset.
  destruct (scheme a); simpl; repeat split; auto with arith; discriminate.
Qed.

Lemma flatten_length (d : list vec2) : length (flatten d) = (2 * length d)%nat.
Proof.
  unfold flatten. induction d as [|p d IH]; simpl; [reflexivity|].
  rewrite IH. lia.
Qed.

Lemma flatten_both (d : list vec2) : Forall (both P) d -> Forall P (flatten d).
Proof.
  unfold flatten. induction 1 as [|p d [H1 H2] _ IH]; simpl; auto.
Qed.

Lemma normalize_clip_xy_ok (v : vec2) (e : EnvInfo) :
  wf_env e ->
  exists x y,
    normalize_clip_xy v (puck_table_minmax e) = Ok (clip2 (x, y))
    /\ _normalize_value (fst v) (fst (fst (puck_table_minmax e)))
         (snd (fst (puck_table_minmax e))) = Ok x
    /\ _normalize_value (snd v) (fst (snd (puck_table_minmax e)))
         (snd (snd (puck_table_minmax e))) = Ok y.
Proof.
  intros [HL HW _]. unfold normalize_clip_xy, puck_table_minmax.
  cbn [fst snd].
  rewrite !normalize_ok by qlra. cbn [bind]. eauto.
Qed.

Lemma normalize_clip_joints_ok (q lo hi : list Q) :
  Forall2 Qlt lo hi -> length q = length lo ->
  exists r,
    normalize_clip_joints q (lo, hi) = Ok r
    /\ length r = length q /\ Forall P r.
Proof.
  unfold normalize_clip_joints. cbn [fst snd].
  intro H. revert q.
  induction H as [|l h lo hi Hlt _ IH]; intros q Hq.
  - destruct q; [|discriminate]. simpl. eauto.
  - destruct q as [|v q]; [discriminate|]. simpl in Hq.
    destruct (IH q) as (r & E & L & F); [lia|].
    simpl.
    destruct (np.zip_with (fun lo hi => Ok (lo, hi)) lo hi) as [ranges|];
      [|discriminate].
    simpl in *. rewrite normalize_ok by lra. cbn [bind].
    rewrite E. cbn [bind].
    eexists. split; [reflexivity|]. split; [simpl; lia|].
    constructor; [apply P_clip | assumption].
Qed.

Section EncoderStep.

Variable forward_kinematics : list Q -> vec3.
Variable np_sin np_cos : Q -> Q.
Hypothesis sin_bounded : forall x, P (np_sin x).
Hypothesis cos_bounded : forall x, P (np_cos x).

Variable a : Agent.
Hypothesis env_ok : wf_env (env_info a).

(** The normalisation never meets a zero divisor and clips every value. *)
Lemma normalize_obs_ok (rng : Rng) (obs : RawObs) :
  wf_obs (env_info a) obs ->
  exists ee n,
    normalize_obs forward_kinematics np_sin np_cos a rng obs
      = Ok (get_joint_pos obs, ee, n)
    /\ bounded_obs P n
    /\ normalize_clip_joints (get_joint_pos obs)
         (robot_joint_pos_limit (env_info a))
       = Ok (current_joint_pos_normalized n)
    /\ length (current_joint_pos_normalized n) = length (get_joint_pos obs)
    /\ (evaluate a = true ->
        ee = forward_kinematics (get_joint_pos obs)
        /\ normalize_clip_xy (xy (get_puck_pos obs))
             (puck_table_minmax (env_info a)) = Ok (puck_pos_xy_norm n)
        /\ puck_rot_yaw_norm n
           = (np_sin (snd (get_puck_pos obs)), np_cos (snd (get_puck_pos obs)))).
Proof.
  intro Hobs. unfold normalize_obs.
  destruct (robot_joint_pos_limit (env_info a)) as [lo hi] eqn:Lim.
  destruct (normalize_clip_joints_ok (get_joint_pos obs) lo hi)
    as (jn & Ej & Lj & Fj).
  { pose proof (wf_joint_pos_limit _ env_ok) as W. now rewrite Lim in W. }
  { unfold wf_obs in Hobs. now rewrite Lim in Hobs. }
  rewrite Ej. cbn [bind].
  set (ee := if negb (evaluate a) then _ else _).
  set (opp := if negb (evaluate a) then _ else _).
  set (puck := if negb (evaluate a) then _ else _).
  destruct (normalize_clip_xy_ok (xy ee) _ env_ok) as (x1 & y1 & E1 & _).
  destruct (normalize_clip_xy_ok opp _ env_ok) as (x2 & y2 & E2 & _).
  destruct (normalize_clip_xy_ok (xy puck) _ env_ok) as (x3 & y3 & E3 & _).
  rewrite E1. cbn [bind]. rewrite E2. cbn [bind]. rewrite E3. cbn [bind].
  eexists. eexists. split; [reflexivity|].
  split.
  { unfold bounded_obs. cbn.
    repeat split; try apply P_clip; try apply sin_bounded;
      try apply cos_bounded; assumption. }
  split; [reflexivity|]. split; [assumption|].
  intro Ev. subst ee puck. rewrite Ev in *. cbn [negb] in *.
  repeat split; assumption.
Qed.

End EncoderStep.

(** ** Stacking *)


Section Stacking.

Variable a : Agent.
Variable n : Normalized.
Variable st : State.
Hypothesis inv : stacks_inv (scheme a) st.
Hypothesis bounded : stacks_bounded P (scheme a) st.
Hypothesis fresh : bounded_obs P n.

Lemma stack_by_filling_ok :
  scheme a = S2 \/ scheme a = S3 \/ scheme a = S4 ->
  exists st1, stack_by_filling (scheme a) st n = Ok st1 /\ stacked P a n st st1.
Proof.
  intro Hs. unfold stack_by_filling.
  destruct bounded as (Bp & Be & Bo & _).
  destruct fresh as (_ & Fe & Fo & Fp & _).
  assert (L : (length (stacked_obs_puck_pos st)
                 <= n_stacked_obs_puck_pos (scheme a))%nat
              /\ (length (stacked_obs_participant_ee_pos st)
                  <= n_stacked_obs_participant_ee_pos (scheme a))%nat
              /\ (length (stacked_obs_opponent_ee_pos st)
                  <= n_stacked_obs_opponent_ee_pos (scheme a))%nat).
  { unfold stacks_inv in inv.
    destruct Hs as [E | [E | E]]; rewrite E in *; exact inv. }
  destruct L as (Lp & Le & Lo).
  destruct (append_and_fill_full (both P) (n_stacked_obs_puck_pos (scheme a))
              (puck_pos_xy_norm n) (stacked_obs_puck_pos st))
    as (p' & Ep & Np & Fp' & Lastp); auto.
  { destruct (scheme a); simpl; lia. }
  destruct (append_and_fill_full (both P)
              (n_stacked_obs_participant_ee_pos (scheme a))
              (ee_pos_xy_norm n) (stacked_obs_participant_ee_pos st))
    as (e' & Ee & Ne & Fe' & _); auto.
  { destruct (scheme a); simpl; lia. }
  destruct (append_and_fill_full (both P)
              (n_stacked_obs_opponent_ee_pos (scheme a))
              (opponent_ee_pos_xy_norm n) (stacked_obs_opponent_ee_pos st))
    as (o' & Eo & No & Fo' & _); auto.
  { destruct (scheme a); simpl; lia. }
  rewrite Ep, Ee, Eo. cbn [bind].
  eexists. split; [reflexivity|].
  unfold stacked, stacks_full, stacks_bounded. cbn.
  repeat split; auto.
  all: destruct Hs as [E | [E | E]]; congruence.
Qed.

Lemma stack_by_episode_ok :
  scheme a = S5 \/ scheme a = S6 ->
  stacked P a n st (stack_by_episode (scheme a) st n).
Proof.
  intro Hs. unfold stack_by_episode.
  destruct bounded as (Bp & Be & Bo & _).
  destruct fresh as (_ & Fe & Fo & Fp & _).
  unfold stacks_inv in inv.
  assert (N : n_stacked_obs (scheme a) = 4%nat
              /\ n_stacked_obs_puck_pos (scheme a) = 4%nat
              /\ n_stacked_obs_participant_ee_pos (scheme a) = 4%nat
              /\ n_stacked_obs_opponent_ee_pos (scheme a) = 4%nat)
    by (destruct Hs as [E | E]; rewrite E; auto).
  destruct N as (N0 & N1 & N2 & N3).
  assert (I : if _new_episode st then
                stacked_obs_puck_pos st = []
                /\ stacked_obs_participant_ee_pos st = []
                /\ stacked_obs_opponent_ee_pos st = []
              else
                length (stacked_obs_puck_pos st) = 4%nat
                /\ length (stacked_obs_participant_ee_pos st) = 4%nat
                /\ length (stacked_obs_opponent_ee_pos st) = 4%nat).
  { destruct Hs as [E | E]; rewrite E in inv; simpl in inv;
      destruct (_new_episode st); tauto. }
  rewrite N0, N1, N2, N3.
  unfold stacked, stacks_full, stacks_bounded.
  destruct (_new_episode st) eqn:New.
  - destruct I as (-> & -> & ->). cbn.
    repeat split; auto using deque_extend_Forall, repeat_spec.
    all: try (intro E7; destruct Hs; congruence).
    all: try (repeat constructor; try apply Fp; try apply Fe; try apply Fo).
    all: auto.
  - destruct I as (Ip & Ie & Io). cbn.
    rewrite !deque_append_length, Ip, Ie, Io, ?N1, ?N2, ?N3.
    repeat split; auto using deque_append_Forall.
    all: try (intro E7; destruct Hs; congruence).
    all: try (apply deque_append_last; lia).
Qed.

End Stacking.

Section StackingScheme7.

Variable a : Agent.
Variable n : Normalized.
Variable st : State.
Variable rng : Rng.
Hypothesis scheme7 : scheme a = S7.
Hypothesis inv : stacks_inv (scheme a) st.
Hypothesis bounded : stacks_bounded P (scheme a) st.
Hypothesis fresh : bounded_obs P n.

(** After the first tick: what the puck deques receive. *)
Lemma stack_puck_tracked_ok :
  _new_episode st = false ->
  exists puck rot p k,
    stack_puck_tracked a st rng n = Ok (puck, rot, p, k)
    /\ length puck = 10%nat /\ length rot = 2%nat
    /\ Forall (both P) puck /\ Forall (both P) rot
    /\ (evaluate a = true ->
        deque_last puck = Ok (puck_pos_xy_norm n)
        /\ deque_last rot = Ok (puck_rot_yaw_norm n)).
Proof.
  intro New. unfold stacks_inv in inv. rewrite scheme7, New in inv.
  destruct inv as (Ip & _ & _ & Ir). specialize (Ir eq_refl).
  simpl in Ip, Ir.
  destruct bounded as (Bp & _ & _ & Br). specialize (Br scheme7).
  destruct fresh as (_ & _ & _ & Fp & Fr).
  unfold stack_puck_tracked. rewrite scheme7. simpl.
  destruct (evaluate a).
  - do 4 eexists. split; [reflexivity|].
    rewrite !deque_append_length, Ip, Ir.
    repeat split; auto using deque_append_Forall.
    all: apply deque_append_last; lia.
  - destruct (0 <? lose_tracking_n_steps_remaining st)%Z.
    + destruct (deque_last_Forall (both P) (stacked_obs_puck_pos st) Bp)
        as (lp & Elp & Plp).
      { intro E. rewrite E in Ip. discriminate. }
      destruct (deque_last_Forall (both P) (stacked_obs_puck_rot st) Br)
        as (lr & Elr & Plr).
      { intro E. rewrite E in Ir. discriminate. }
      rewrite Elp, Elr. cbn [bind].
      do 4 eexists. split; [reflexivity|].
      rewrite !deque_append_length, Ip, Ir.
      repeat split; auto using deque_append_Forall; discriminate.
    + destruct (np.ltb (rand rng) (lose_tracking_probability st)).
      all: do 4 eexists; (split; [reflexivity|]).
      all: rewrite !deque_append_length, Ip, Ir.
      all: repeat split; auto using deque_append_Forall; discriminate.
Qed.

Lemma stack_scheme7_ok :
  exists st1, stack_scheme7 a st rng n = Ok st1 /\ stacked P a n st st1.
Proof.
  unfold stack_scheme7.
  destruct (_new_episode st) eqn:New.
  - unfold stacks_inv in inv. rewrite scheme7, New in inv.
    destruct inv as (Ip & Ie & Io & Ir). specialize (Ir eq_refl).
    destruct fresh as (_ & Fe & Fo & Fp & Fr).
    eexists. split; [reflexivity|].
    unfold stacked, stacks_full, stacks_bounded.
    rewrite scheme7, Ip, Ie, Io, Ir. cbn.
    repeat split; auto.
    all: repeat constructor; try apply Fp; try apply Fe; try apply Fo;
      try apply Fr.
  - destruct (stack_puck_tracked_ok New)
      as (puck & rot & p & k & E & Lp & Lr & Fp & Fr & La).
    rewrite E. cbn [bind].
    eexists. split; [reflexivity|].
    unfold stacks_inv in inv. rewrite scheme7, New in inv.
    destruct inv as (_ & Ie & Io & _).
    destruct bounded as (_ & Be & Bo & _).
    destruct fresh as (_ & Fe & Fo & _ & _).
    unfold stacked, stacks_full, stacks_bounded.
    rewrite scheme7. cbn.
    rewrite !deque_append_length, Ie, Io.
    repeat split; auto using deque_append_Forall.
    all: try intro; apply La; assumption.
Qed.

End StackingScheme7.

(** ** One tick of the encoder *)

Lemma map_clip_all (l : list Q) : Forall P (map (fun x => np.clip x (-1) 1) l).
Proof.
  induction l; simpl; constructor; auto using P_clip.
Qed.

Section Encode.

Variable a : Agent.
Variable n : Normalized.
Variable st : State.
Variable rng : Rng.
Hypothesis inv : stacks_inv (scheme a) st.
Hypothesis bounded : stacks_bounded P (scheme a) st.
Hypothesis fresh : bounded_obs P n.
Hypothesis joints :
  normalize_clip_joints (current_joint_pos st)
    (robot_joint_pos_limit (env_info a))
  = Ok (current_joint_pos_normalized n).

Lemma encode_ok : exists o st', encode a st rng n = Ok (o, st') /\ encoded P a n st o st'.
Proof.
  unfold encode.
  destruct (scheme a) eqn:Sch; rewrite <- Sch in inv, bounded.
  - (* scheme 2 *)
    destruct (stack_by_filling_ok a n st inv bounded fresh (or_introl Sch))
      as (st1 & E & S).
    rewrite Sch in E. rewrite E. cbn [bind].
    destruct (penalty_timer_unsigned _ _ _) as [cur timer] eqn:Pen.
    eexists. eexists. split; [reflexivity|].
    destruct S as (F & B & La & Pt & Ps & Cj & Ce & Cn & Pr).
    rewrite Sch in *.
    unfold encoded, penalty_emitted. rewrite Sch.
    split; [exact F|]. split; [exact B|].
    split; [apply map_clip_all|].
    split.
    { destruct F as (Lp & Le & Lo & _).
      cbn. rewrite length_map, !length_app, !flatten_length. cbn.
      rewrite Lp, Le, Lo. reflexivity. }
    split.
    { cbn. rewrite <- Pt, Pen. split; reflexivity. }
    cbn. auto.
  - (* scheme 3 *)
    destruct (stack_by_filling_ok a n st inv bounded fresh
                (or_intror (or_introl Sch))) as (st1 & E & S).
    rewrite Sch in E. rewrite E. cbn [bind].
    destruct S as (F & B & La & Pt & Ps & Cj & Ce & Cn & Pr).
    unfold update_signed_penalty. rewrite Ps, Pt.
    destruct (penalty_timer_step _ _ _ _) as [side timer] eqn:Pen.
    eexists. eexists. split; [reflexivity|].
    rewrite Sch in *.
    unfold encoded, penalty_emitted. rewrite Sch.
    split; [exact F|]. split; [exact B|].
    split; [apply map_clip_all|].
    split.
    { destruct F as (Lp & Le & Lo & _).
      cbn. rewrite length_map, !length_app, !flatten_length. cbn.
      rewrite Lp, Le, Lo. reflexivity. }
    split.
    { cbn. rewrite Pen. repeat split; reflexivity. }
    cbn. auto.
  - (* scheme 4 *)
    destruct (stack_by_filling_ok a n st inv bounded fresh
                (or_intror (or_intror Sch))) as (st1 & E & S).
    rewrite Sch in E. rewrite E. cbn [bind].
    destruct S as (F & B & La & Pt & Ps & Cj & Ce & Cn & Pr).
    unfold update_signed_penalty. rewrite Ps, Pt.
    destruct (penalty_timer_step _ _ _ _) as [side timer] eqn:Pen.
    eexists. eexists. split; [reflexivity|].
    rewrite Sch in *.
    unfold encoded, penalty_emitted. rewrite Sch.
    split; [exact F|]. split; [exact B|].
    split; [apply map_clip_all|].
    split.
    { destruct F as (Lp & Le & Lo & _).
      cbn. rewrite length_map, !length_app, !flatten_length. cbn.
      rewrite Lp, Le, Lo. reflexivity. }
    split.
    { cbn. rewrite Pen. repeat split; reflexivity. }
    cbn. auto.
  - (* scheme 5 *)
    unfold update_signed_penalty.
    destruct (penalty_timer_step _ _ _ _) as [side timer] eqn:Pen.
    pose proof (stack_by_episode_ok a n (set_penalty st (Some side) timer)
                  inv bounded fresh (or_introl Sch)) as S.
    rewrite Sch in S.
    destruct S as (F & B & La & Pt & Ps & Cj & Ce & Cn & Pr).
    eexists. eexists. split; [reflexivity|].
    rewrite Sch in *.
    unfold encoded, penalty_emitted. rewrite Sch.
    split; [exact F|]. split; [exact B|].
    destruct B as (Bp & Be & Bo & _).
    split.
    { constructor; [apply P_clip|].
      repeat (apply Forall_app; split); now apply flatten_both. }
    split.
    { destruct F as (Lp & Le & Lo & _).
      cbn [length app]. rewrite !length_app, !flatten_length.
      rewrite Lp, Le, Lo. reflexivity. }
    split.
    { cbn [hd app]. rewrite Pen, Ps, Pt. repeat split; reflexivity. }
    auto.
  - (* scheme 6 *)
    rewrite joints. cbn [bind].
    unfold update_signed_penalty.
    destruct (penalty_timer_step _ _ _ _) as [side timer] eqn:Pen.
    pose proof (stack_by_episode_ok a n (set_penalty st (Some side) timer)
                  inv bounded fresh (or_intror Sch)) as S.
    rewrite Sch in S.
    destruct S as (F & B & La & Pt & Ps & Cj & Ce & Cn & Pr).
    eexists. eexists. split; [reflexivity|].
    rewrite Sch in *.
    unfold encoded, penalty_emitted. rewrite Sch.
    split; [exact F|]. split; [exact B|].
    destruct B as (Bp & Be & Bo & _).
    split.
    { constructor; [apply P_clip|].
      repeat (apply Forall_app; split); try now apply flatten_both.
      apply fresh. }
    split.
    { destruct F as (Lp & Le & Lo & _).
      cbn [length app]. rewrite !length_app, !flatten_length.
      rewrite Lp, Le, Lo. unfold encoded_length. simpl. lia. }
    split.
    { cbn [hd app]. rewrite Pen, Ps, Pt. repeat split; reflexivity. }
    auto.
  - (* scheme 7 *)
    rewrite joints. cbn [bind].
    unfold update_signed_penalty.
    destruct (penalty_timer_step _ _ _ _) as [side timer] eqn:Pen.
    destruct (stack_scheme7_ok a n (set_penalty st (Some side) timer) rng
                Sch inv bounded fresh) as (st1 & E & S).
    rewrite E. cbn [bind].
    destruct S as (F & B & La & Pt & Ps & Cj & Ce & Cn & Pr).
    eexists. eexists. split; [reflexivity|].
    rewrite Sch in *.
    unfold encoded, penalty_emitted. rewrite Sch.
    split; [exact F|]. split; [exact B|].
    destruct B as (Bp & Be & Bo & Br). specialize (Br eq_refl).
    split.
    { constructor; [apply P_clip|].
      repeat (apply Forall_app; split); try now apply flatten_both.
      apply fresh. }
    split.
    { destruct F as (Lp & Le & Lo & Lr & _). specialize (Lr eq_refl).
      cbn [length app]. rewrite !length_app, !flatten_length.
      rewrite Lp, Le, Lo, Lr. unfold encoded_length. simpl. lia. }
    split.
    { cbn [hd app]. rewrite Pen, Ps, Pt. repeat split; reflexivity. }
    auto.
Qed.

End Encode.

Lemma encoded_length_declared (s : Scheme) (obs : RawObs) :
  joints_fit s obs ->
  encoded_length s (length (get_joint_pos obs)) = observation_space s.
Proof.
  unfold joints_fit, encoded_length, observation_space.
  destruct s; simpl; lia.
Qed.

Section Tick.

Variable forward_kinematics : list Q -> vec3.
Variable np_sin np_cos : Q -> Q.
Hypothesis sin_bounded : forall x, P (np_sin x).
Hypothesis cos_bounded : forall x, P (np_cos x).

Variable a : Agent.
Hypothesis env_ok : wf_env (env_info a).

(** One tick from a state between two ticks: the call returns, the shape
    assertion holds, and the state it leaves is again between two
    ticks. *)
Lemma process_raw_obs_ok (st : State) (rng : Rng) (obs : RawObs) :
  obs_ok a obs ->
  stacks_inv (scheme a) st -> stacks_bounded P (scheme a) st ->
  exists o st' ee n,
    normalize_obs forward_kinematics np_sin np_cos a rng obs
      = Ok (get_joint_pos obs, ee, n)
    /\ process_raw_obs forward_kinematics np_sin np_cos a st rng obs
       = Ok (o, st')
    /\ encoded P a n (set_current st (get_joint_pos obs) ee (ee_pos_xy_norm n))
         o st'
    /\ length o = observation_space (scheme a).
Proof.
  intros [Hobs Hfit] Inv Bnd.
  destruct (normalize_obs_ok forward_kinematics np_sin np_cos
              sin_bounded cos_bounded a env_ok rng obs Hobs)
    as (ee & n & En & Bn & Jn & Ln & _).
  unfold process_raw_obs. rewrite En. cbn [bind].
  destruct (encode_ok a n
              (set_current st (get_joint_pos obs) ee (ee_pos_xy_norm n)) rng
              Inv Bnd Bn Jn) as (o & st' & Ee & Enc).
  rewrite Ee. cbn [bind].
  assert (L : length o = observation_space (scheme a)).
  { destruct Enc as (_ & _ & _ & L & _). rewrite L, Ln.
    now apply encoded_length_declared. }
  rewrite L, Nat.eqb_refl.
  exists o, st', ee, n. auto.
Qed.

(** A whole episode. *)
Lemma run_obs_ok (ticks : list (Rng * RawObs)) (st : State) :
  Forall (fun t => obs_ok a (snd t)) ticks ->
  stacks_inv (scheme a) st -> stacks_bounded P (scheme a) st ->
  exists outs st',
    run_obs forward_kinematics np_sin np_cos a st ticks = Ok (outs, st')
    /\ length outs = length ticks
    /\ Forall (fun o => length o = observation_space (scheme a)) outs
    /\ Forall (Forall P) outs
    /\ stacks_inv (scheme a) st' /\ stacks_bounded P (scheme a) st'.
Proof.
  intro H. revert st.
  induction H as [|[rng obs] ticks Hobs _ IH]; intros st Inv Bnd.
  - exists [], st. simpl.
    split; [reflexivity|]. split; [reflexivity|]. auto.
  - destruct (process_raw_obs_ok st rng obs Hobs Inv Bnd)
      as (o & st1 & ee & n & _ & E & Enc & L).
    destruct Enc as (F & B & U & _).
    destruct (IH st1 (stacks_full_inv _ _ F) B)
      as (outs & st' & R & Ls & Lo & Us & Inv' & Bnd').
    exists (o :: outs), st'. simpl. rewrite E. cbn [bind].
    rewrite R. cbn [bind].
    split; [reflexivity|]. split; [lia|]. auto.
Qed.

End Tick.

End Encoder.

(** With the trivial property the invariant only speaks of lengths. *)
Lemma any_clip (x : Q) : any (np.clip x (-1) 1).
Proof. exact I. Qed.

Lemma stacks_bounded_any (s : Scheme) (st : State) : stacks_bounded any s st.
Proof.
  unfold stacks_bounded.
  assert (T : forall d, Forall (both any) d)
    by (intro d; apply Forall_forall; intros; split; exact I).
  auto.
Qed.

(** ** Length and range of the observation vector *)

(** C3. For every scheme and every episode (a [reset] followed by any
    ticks whose raw observations carry seven joint positions, one per
    declared limit), on a table wider than the puck and joint ranges that
    are proper intervals: every call of [process_raw_obs] returns, from the
    first tick on, a vector of the declared length
    [1 + 2 * n_ee + 2 * n_opponent + 2 * n_puck], plus 7 for schemes 6 and
    7, plus [2 * n_rot] for scheme 7; the shape assertion does not fire. *)
Theorem observation_length_declared
    (forward_kinematics : list Q -> vec3) (np_sin np_cos : Q -> Q)
    (a : Agent) (st0 : State) (ticks : list (Rng * RawObs)) :
  wf_env (env_info a) ->
  Forall (fun t => obs_ok a (snd t)) ticks ->
  exists outs st',
    run_obs forward_kinematics np_sin np_cos a (reset a st0) ticks
      = Ok (outs, st')
    /\ length outs = length ticks
    /\ Forall (fun o => length o = observation_space (scheme a)) outs
    /\ observation_space (scheme a)
       = (1 + 2 * n_stacked_obs_participant_ee_pos (scheme a)
            + 2 * n_stacked_obs_opponent_ee_pos (scheme a)
            + 2 * n_stacked_obs_puck_pos (scheme a)
            + match scheme a with S6 | S7 => 7 | _ => 0 end
            + match scheme a with
              | S7 => 2 * n_stacked_obs_puck_rot (scheme a)
              | _ => 0
              end)%nat.
Proof.
  intros He Ht.
  destruct (run_obs_ok any any_clip forward_kinematics np_sin np_cos
              (fun _ => I) (fun _ => I) a He ticks (reset a st0) Ht
              (proj1 (reset_stacks_inv any a st0)) (stacks_bounded_any _ _))
    as (outs & st' & R & L & Lo & _).
  exists outs, st'. repeat split; try assumption.
  unfold observation_space. destruct (scheme a); simpl; lia.
Qed.

Lemma observation_length_declared_witness :
  exists outs st',
    run_obs Sample.forward_kinematics Sample.sin Sample.cos
      (Sample.agent S7 true) (reset (Sample.agent S7 true) Sample.state)
      [(Sample.some_noise, Sample.raw_obs 2 0);
       (Sample.some_noise, Sample.raw_obs 1 (1 # 10))]
      = Ok (outs, st')
    /\ length outs = 2%nat
    /\ Forall (fun o => length o = 40%nat) outs
    /\ 40%nat = (1 + 2 * 2 + 2 * 2 + 2 * 10 + 7 + 2 * 2)%nat.
Proof.
  apply (observation_length_declared Sample.forward_kinematics Sample.sin
           Sample.cos (Sample.agent S7 true) Sample.state).
  - constructor; [qcompute | qcompute | repeat constructor].
  - repeat constructor.
Defined.

(** C2. For every scheme and every episode (a [reset] followed by any
    ticks), on a table wider than the puck, joint ranges that are proper
    intervals, raw observations with seven joint positions and a sine and
    cosine that stay within [[-1, 1]]: every element of every vector
    [process_raw_obs] returns lies in [[-1, 1]], whatever the physical
    quantities of the raw observations and the noise are.  Schemes 5, 6 and
    7 do not clip the concatenated vector; each of its parts is bounded
    before it is stacked. *)
Theorem observation_in_unit_range
    (forward_kinematics : list Q -> vec3) (np_sin np_cos : Q -> Q)
    (a : Agent) (st0 : State) (ticks : list (Rng * RawObs)) :
  (forall x, in_unit (np_sin x)) -> (forall x, in_unit (np_cos x)) ->
  wf_env (env_info a) ->
  Forall (fun t => obs_ok a (snd t)) ticks ->
  exists outs st',
    run_obs forward_kinematics np_sin np_cos a (reset a st0) ticks
      = Ok (outs, st')
    /\ length outs = length ticks
    /\ Forall (Forall in_unit) outs.
Proof.
  intros Hs Hc He Ht.
  destruct (reset_stacks_inv in_unit a st0) as [Inv Bnd].
  destruct (run_obs_ok in_unit clip_unit forward_kinematics np_sin np_cos
              Hs Hc a He ticks (reset a st0) Ht Inv Bnd)
    as (outs & st' & R & L & _ & U & _).
  exists outs, st'. auto.
Qed.

Lemma observation_in_unit_range_witness :
  exists outs st',
    run_obs Sample.forward_kinematics Sample.sin Sample.cos
      (Sample.agent S6 true) (reset (Sample.agent S6 true) Sample.state)
      [(Sample.some_noise, Sample.raw_obs 5 (-3));
       (Sample.no_noise, Sample.raw_obs 1 (1 # 10))]
      = Ok (outs, st')
    /\ length outs = 2%nat
    /\ Forall (Forall in_unit) outs.
Proof.
  apply (observation_in_unit_range Sample.forward_kinematics Sample.sin
           Sample.cos (Sample.agent S6 true) Sample.state).
  - intro. split; qcompute.
  - intro. split; qcompute.
  - constructor; [qcompute | qcompute | repeat constructor].
  - repeat constructor.
Defined.

(** ** Evaluation mode *)

Section Evaluation.

Variable forward_kinematics : list Q -> vec3.
Variable jacobian : list Q -> list (list Q).
Variable np_linalg_pinv : list (list Q) -> list vec3.
Variable np_linalg_svd : list (list Q) -> vec3.
Variable np_sin np_cos : Q -> Q.

Variable a : Agent.
Hypothesis eval : evaluate a = true.

Lemma normalize_obs_eval (rng1 rng2 : Rng) (obs : RawObs) :
  normalize_obs forward_kinematics np_sin np_cos a rng1 obs
  = normalize_obs forward_kinematics np_sin np_cos a rng2 obs.
Proof. unfold normalize_obs. rewrite eval. reflexivity. Qed.

Lemma encode_eval (rng1 rng2 : Rng) (st : State) (n : Normalized) :
  encode a st rng1 n = encode a st rng2 n.
Proof.
  unfold encode, stack_scheme7, stack_puck_tracked. rewrite eval.
  reflexivity.
Qed.

Lemma process_raw_obs_eval (rng1 rng2 : Rng) (st : State) (obs : RawObs) :
  process_raw_obs forward_kinematics np_sin np_cos a st rng1 obs
  = process_raw_obs forward_kinematics np_sin np_cos a st rng2 obs.
Proof.
  unfold process_raw_obs.
  rewrite (normalize_obs_eval rng1 rng2).
  destruct (normalize_obs _ _ _ _ _ _) as [[[q ee] n]|]; [|reflexivity].
  cbn [bind]. now rewrite (encode_eval rng1 rng2).
Qed.

Lemma process_raw_act_eval (rng1 rng2 : Rng) (st : State) (action : vec2) :
  process_raw_act jacobian np_linalg_pinv np_linalg_svd a st rng1 action
  = process_raw_act jacobian np_linalg_pinv np_linalg_svd a st rng2 action.
Proof.
  unfold process_raw_act, target_position. rewrite eval. reflexivity.
Qed.

End Evaluation.

(** C5. In evaluation mode [process_raw_obs] and [process_raw_act] do not
    depend on any value drawn from the random number generator: from the
    same state and with the same input they return the same output and the
    same next state.  During an episode, on a table wider than the puck and
    with joint ranges that are proper intervals, the newest entry of the
    puck deque
    after a tick is the normalised puck position of that tick's raw
    observation, and for scheme 7 the newest rotation entry is the sine and
    cosine of its yaw: no noise and no stale reading takes its place. *)
Theorem evaluation_is_deterministic
    (forward_kinematics : list Q -> vec3)
    (jacobian : list Q -> list (list Q))
    (np_linalg_pinv : list (list Q) -> list vec3)
    (np_linalg_svd : list (list Q) -> vec3)
    (np_sin np_cos : Q -> Q) (a : Agent) :
  evaluate a = true ->
  (forall rng1 rng2 st obs,
     process_raw_obs forward_kinematics np_sin np_cos a st rng1 obs
     = process_raw_obs forward_kinematics np_sin np_cos a st rng2 obs)
  /\ (forall rng1 rng2 st action,
        process_raw_act jacobian np_linalg_pinv np_linalg_svd a st rng1 action
        = process_raw_act jacobian np_linalg_pinv np_linalg_svd a st rng2 action)
  /\ (wf_env (env_info a) ->
      forall rng st obs,
        obs_ok a obs ->
        stacks_inv (scheme a) st ->
        exists o st' puck,
          process_raw_obs forward_kinematics np_sin np_cos a st rng obs
            = Ok (o, st')
          /\ normalize_clip_xy (xy (get_puck_pos obs))
               (puck_table_minmax (env_info a)) = Ok puck
          /\ deque_last (stacked_obs_puck_pos st') = Ok puck
          /\ (scheme a = S7 ->
              deque_last (stacked_obs_puck_rot st')
              = Ok (np_sin (snd (get_puck_pos obs)),
                    np_cos (snd (get_puck_pos obs))))
          /\ stacks_inv (scheme a) st').
Proof.
  intro Ev.
  split; [intros; now apply process_raw_obs_eval|].
  split; [intros; now apply process_raw_act_eval|].
  intros He rng st obs Hobs Inv.
  destruct (process_raw_obs_ok any any_clip forward_kinematics np_sin np_cos
              (fun _ => I) (fun _ => I) a He st rng obs Hobs Inv
              (stacks_bounded_any _ _))
    as (o & st' & ee & n & En & E & Enc & _).
  destruct (normalize_obs_ok any any_clip forward_kinematics np_sin np_cos
              (fun _ => I) (fun _ => I) a He rng obs (proj1 Hobs))
    as (ee' & n' & En' & _ & _ & _ & Fresh).
  rewrite En in En'. inversion En'; subst ee' n'.
  destruct (Fresh Ev) as (_ & Fp & Fr).
  destruct Enc as (F & _ & _ & _ & _ & La & _).
  destruct (La Ev) as (Lp & Lr).
  exists o, st', (puck_pos_xy_norm n).
  split; [assumption|]. split; [assumption|]. split; [assumption|].
  split; [intro S; rewrite <- Fr; now apply Lr|].
  now apply stacks_full_inv.
Qed.

Lemma evaluation_is_deterministic_witness :
  process_raw_obs Sample.forward_kinematics Sample.sin Sample.cos
    (Sample.agent S7 false) (reset (Sample.agent S7 false) Sample.state)
    Sample.no_noise (Sample.raw_obs 2 0)
  = process_raw_obs Sample.forward_kinematics Sample.sin Sample.cos
      (Sample.agent S7 false) (reset (Sample.agent S7 false) Sample.state)
      Sample.some_noise (Sample.raw_obs 2 0).
Proof.
  exact (proj1 (evaluation_is_deterministic Sample.forward_kinematics
                  Sample.jacobian Sample.pinv Sample.svd Sample.sin Sample.cos
                  (Sample.agent S7 false) eq_refl)
           Sample.no_noise Sample.some_noise
           (reset (Sample.agent S7 false) Sample.state) (Sample.raw_obs 2 0)).
Defined.

(** ** The signed penalty timer *)

(** The puck stays on the far half for 752 ticks of 20 ms: the timer passes
    15 s, the emitted entry is held at 1 and is not side * timer / 15. *)
Lemma emitted_penalty_counterexample :
  exists emitted timer,
    final_penalty
      (run_obs Sample.forward_kinematics Sample.sin Sample.cos
         (Sample.agent S7 false) (reset (Sample.agent S7 false) Sample.state)
         (repeat (Sample.no_noise, Sample.raw_obs 2 0) 752))
    = Some (emitted, Some 1, timer)
    /\ timer == 751 # 50
    /\ emitted == 1
    /\ ~ emitted == 1 * timer / MAX_TIME_UNTIL_PENALTY_S.
Proof.
  eexists. eexists.
  split; [vm_compute; reflexivity|].
  split; [vm_compute; reflexivity|].
  split; [vm_compute; reflexivity|].
  vm_compute. discriminate.
Qed.

(** C4, with the clipping of the emitted value.  In schemes 3 to 7 a tick
    of an episode moves the timer by [penalty_timer_step]: from the unset
    state, which [reset] leaves with timer 0, the side becomes the sign of
    the normalised puck x position and the timer stays; when that sign
    equals the stored side the timer grows by dt; otherwise the side is
    negated and the timer restarts at 0.  The first entry of the returned
    vector is side * timer / 15 clipped to [[-1, 1]], which is
    side * timer / 15 itself as long as that value lies in [[-1, 1]].  For
    the puck-side sequence [+, +, +, -, -] with dt = 0.1 the timers are
    [0, 0.1, 0.2, 0, 0.1], the sides [1, 1, 1, -1, -1] and the emitted
    entries [0, 1/150, 1/75, 0, -1/150]. *)
Theorem signed_penalty_timer :
  (* the transitions *)
  (forall dt timer x,
     penalty_timer_step dt None timer x = (np.sign x, timer))
  /\ (forall dt s timer x,
        np.sign x == s ->
        penalty_timer_step dt (Some s) timer x = (s, timer + dt))
  /\ (forall dt s timer x,
        ~ np.sign x == s ->
        penalty_timer_step dt (Some s) timer x = (s * -1, 0))
  (* the unset state *)
  /\ (forall a st,
        scheme a <> S2 ->
        penalty_side (reset a st) = None /\ penalty_timer (reset a st) = 0)
  (* one tick *)
  /\ (forall forward_kinematics np_sin np_cos a st rng obs,
        wf_env (env_info a) -> obs_ok a obs ->
        stacks_inv (scheme a) st ->
        scheme a <> S2 ->
        exists o st' ee n,
          normalize_obs forward_kinematics np_sin np_cos a rng obs
            = Ok (get_joint_pos obs, ee, n)
          /\ process_raw_obs forward_kinematics np_sin np_cos a st rng obs
             = Ok (o, st')
          /\ let r := penalty_timer_step (sim_dt (env_info a))
                        (penalty_side st) (penalty_timer st)
                        (fst (puck_pos_xy_norm n)) in
             penalty_side st' = Some (fst r)
             /\ penalty_timer st' = snd r
             /\ hd 0 o
                = np.clip (fst r * snd r / MAX_TIME_UNTIL_PENALTY_S) (-1) 1
             /\ (in_unit (fst r * snd r / MAX_TIME_UNTIL_PENALTY_S) ->
                 hd 0 o == fst r * snd r / MAX_TIME_UNTIL_PENALTY_S))
  (* the sequence [+, +, +, -, -] with dt = 0.1 *)
  /\ (forall s,
        s <> S2 ->
        penalty_trace Sample.forward_kinematics Sample.sin Sample.cos
          (Sample.agent_with_dt s false (1 # 10))
          (reset (Sample.agent_with_dt s false (1 # 10)) Sample.state)
          (map (fun x => (Sample.no_noise, Sample.raw_obs x 0))
             [2; 2; 2; 1; 1])
        = Ok [(0, Some 1, 0);
              (1 # 150, Some 1, 1 # 10);
              (1 # 75, Some 1, 1 # 5);
              (0, Some (-1), 0);
              (- 1 # 150, Some (-1), 1 # 10)]).
Proof.
  split; [reflexivity|].
  split.
  { intros dt s timer x E. unfold penalty_timer_step.
    apply Qeq_bool_iff in E. now rewrite E. }
  split.
  { intros dt s timer x E. unfold penalty_timer_step.
    apply eqb_false in E. now rewrite E. }
  split.
  { intros a st Hs. unfold reset. simpl.
    destruct (scheme a); [contradiction| | | | |]; auto. }
  split.
  { intros fk np_sin np_cos a st rng obs He Hobs Inv Hs.
    destruct (process_raw_obs_ok any any_clip fk np_sin np_cos
                (fun _ => I) (fun _ => I) a He st rng obs Hobs Inv
                (stacks_bounded_any _ _))
      as (o & st' & ee & n & En & E & Enc & _).
    exists o, st', ee, n.
    split; [assumption|]. split; [assumption|].
    destruct Enc as (_ & _ & _ & _ & Pen & _).
    unfold penalty_emitted in Pen. cbn in Pen.
    assert (P : hd 0 o
                = np.clip
                    (signed_penalty
                       (fst (penalty_timer_step (sim_dt (env_info a))
                               (penalty_side st) (penalty_timer st)
                               (fst (puck_pos_xy_norm n))))
                       (snd (penalty_timer_step (sim_dt (env_info a))
                               (penalty_side st) (penalty_timer st)
                               (fst (puck_pos_xy_norm n))))) (-1) 1
                /\ penalty_side st'
                   = Some (fst (penalty_timer_step (sim_dt (env_info a))
                                  (penalty_side st) (penalty_timer st)
                                  (fst (puck_pos_xy_norm n))))
                /\ penalty_timer st'
                   = snd (penalty_timer_step (sim_dt (env_info a))
                            (penalty_side st) (penalty_timer st)
                            (fst (puck_pos_xy_norm n)))).
    { destruct (scheme a); [contradiction| | | | |]; exact Pen. }
    destruct P as (Hd & Si & Ti). unfold signed_penalty in Hd.
    cbv zeta.
    split; [assumption|]. split; [assumption|]. split; [assumption|].
    intro U. rewrite Hd. now apply clip_id. }
  intros s Hs.
  destruct s; [contradiction| | | | |]; vm_compute; reflexivity.
Qed.

Lemma signed_penalty_timer_witness :
  let a := Sample.agent S7 false in
  let st := reset a Sample.state in
  let obs := Sample.raw_obs 2 0 in
  exists o st' ee n,
    normalize_obs Sample.forward_kinematics Sample.sin Sample.cos a
      Sample.no_noise obs = Ok (get_joint_pos obs, ee, n)
    /\ process_raw_obs Sample.forward_kinematics Sample.sin Sample.cos a st
         Sample.no_noise obs = Ok (o, st')
    /\ let r := penalty_timer_step (sim_dt (env_info a)) (penalty_side st)
                  (penalty_timer st) (fst (puck_pos_xy_norm n)) in
       penalty_side st' = Some (fst r)
       /\ penalty_timer st' = snd r
       /\ hd 0 o = np.clip (fst r * snd r / MAX_TIME_UNTIL_PENALTY_S) (-1) 1
       /\ (in_unit (fst r * snd r / MAX_TIME_UNTIL_PENALTY_S) ->
           hd 0 o == fst r * snd r / MAX_TIME_UNTIL_PENALTY_S).
Proof.
  intros a st obs.
  apply (proj1 (proj2 (proj2 (proj2 (proj2 signed_penalty_timer))))
           Sample.forward_kinematics Sample.sin Sample.cos a st
           Sample.no_noise obs).
  - constructor; [qcompute | qcompute | repeat constructor].
  - repeat constructor.
  - cbn. repeat split; reflexivity.
  - discriminate.
Defined.

(** ** The velocity limits *)

Lemma zip_with_pair_ok {A B : Type} (l1 : list A) (l2 : list B) :
  length l1 = length l2 ->
  np.zip_with (fun x y => Ok (x, y)) l1 l2 = Ok (combine l1 l2).
Proof.
  revert l2. induction l1 as [|x l1 IH]; intros [|y l2] H; try discriminate.
  - reflexivity.
  - simpl. rewrite IH by (simpl in H; lia). reflexivity.
Qed.

(** An offending joint does not stand still, and its factor lies strictly
    between 0 and 1 and puts it on its limit. *)
Lemma offending_joint (j : Q * (Q * Q)) :
  signed_limits j -> outside_vel_limit j = true ->
  ~ fst j == 0
  /\ 0 < joint_factor j < 1
  /\ fst j * joint_factor j == binding_limit j.
Proof.
  destruct j as [v [lo hi]]. unfold signed_limits, outside_vel_limit,
    joint_factor, binding_limit. cbn [fst].
  intros [Hlo Hhi] Out.
  destruct (np.ltb hi v) eqn:Above; bools.
  - assert (Hv : ~ v == 0) by lra.
    assert (E : 1 - (v - hi) / v == hi / v) by (field; assumption).
    assert (P : 0 < hi / v) by (apply Qlt_shift_div_l; lra).
    assert (U : hi / v < 1) by (apply Qlt_shift_div_r; lra).
    split; [assumption|]. split; [rewrite E; split; assumption|].
    field. assumption.
  - rewrite orb_false_r in Out. bools.
    assert (Hv : ~ v == 0) by lra.
    assert (E : 1 - (v - lo) / v == (- lo) / (- v)) by (field; assumption).
    assert (P : 0 < (- lo) / (- v)) by (apply Qlt_shift_div_l; lra).
    assert (U : (- lo) / (- v) < 1) by (apply Qlt_shift_div_r; lra).
    split; [assumption|]. split; [rewrite E; split; assumption|].
    field. assumption.
Qed.

(** A joint that stands still is inside its limits. *)
Lemma still_joint_inside (j : Q * (Q * Q)) :
  signed_limits j -> fst j == 0 -> outside_vel_limit j = false.
Proof.
  destruct j as [v [lo hi]]. unfold signed_limits, outside_vel_limit.
  cbn [fst]. intros [Hlo Hhi] Hv.
  apply orb_false_iff. split; apply ltb_false; lra.
Qed.

(** The loop returns the minimum of its start value and the factors of the
    joints it visits; no division in it meets a zero divisor. *)
Lemma downscaling_loop_min (offending : list (Q * (Q * Q))) (f0 : Q) :
  Forall signed_limits offending ->
  Forall (fun j => outside_vel_limit j = true) offending ->
  0 < f0 ->
  exists f,
    downscaling_loop offending f0 = Ok f
    /\ 0 < f /\ f <= f0
    /\ Forall (fun j => f <= joint_factor j) offending
    /\ (f == f0 \/ Exists (fun j => f == joint_factor j) offending).
Proof.
  intros Hs. revert f0.
  induction Hs as [|j rest Hj _ IH]; intros f0 Ho Hf.
  - exists f0. simpl.
    split; [reflexivity|]. split; [assumption|]. split; [lra|].
    split; [constructor|]. left. reflexivity.
  - inversion Ho as [|? ? Oj Or]; subst.
    destruct (offending_joint j Hj Oj) as (Hv & [Fl Fu] & _).
    destruct j as [v [lo hi]]. cbn [fst] in Hv.
    unfold joint_factor, binding_limit in Fl, Fu.
    cbn [downscaling_loop].
    rewrite div_ok by assumption. cbn [bind].
    set (r := 1 - (v - (if np.ltb hi v then hi else lo)) / v) in *.
    destruct (IH (Qmin f0 r) Or) as (f & E & Pf & Lf & All & Which).
    { destruct (Q.min_spec f0 r) as [[_ ->] | [_ ->]]; assumption. }
    exists f. split; [exact E|]. split; [exact Pf|].
    pose proof (Q.le_min_l f0 r). pose proof (Q.le_min_r f0 r).
    split; [lra|].
    split.
    { constructor; [|exact All].
      unfold joint_factor, binding_limit. fold r. lra. }
    destruct Which as [W | W].
    + destruct (Q.min_spec f0 r) as [[_ M] | [_ M]].
      * left. rewrite W, M. reflexivity.
      * right. apply Exists_cons_hd.
        unfold joint_factor, binding_limit. fold r. rewrite W, M. reflexivity.
    + right. now apply Exists_cons_tl.
Qed.

(** Scaling by a factor that is at most the factor of the joint keeps the
    joint within its limits. *)
Lemma scaled_joint_within (j : Q * (Q * Q)) (f : Q) :
  signed_limits j -> 0 < f -> f <= 1 ->
  (outside_vel_limit j = true -> f <= joint_factor j) ->
  within_limits (fst j * f, snd j).
Proof.
  intros Hs Pf Uf Hmin.
  destruct (outside_vel_limit j) eqn:Out.
  - destruct (offending_joint j Hs Out) as (Hv & [Fl Fu] & On).
    specialize (Hmin eq_refl).
    destruct j as [v [lo hi]].
    unfold signed_limits, within_limits, binding_limit, outside_vel_limit in *.
    cbn [fst snd] in *. destruct Hs as [Hlo Hhi].
    set (r := joint_factor (v, (lo, hi))) in *.
    destruct (np.ltb hi v) eqn:Above; bools.
    + split; nra.
    + rewrite orb_false_r in Out. bools. split; nra.
  - destruct j as [v [lo hi]].
    unfold signed_limits, within_limits, outside_vel_limit in *.
    cbn [fst snd] in *. destruct Hs as [Hlo Hhi].
    apply orb_false_iff in Out. destruct Out as [O1 O2]. bools.
    split; nra.
Qed.

Lemma combine_signed_limits (v lo hi : list Q) :
  Forall (fun l => l < 0) lo -> Forall (fun h => 0 < h) hi ->
  Forall signed_limits (combine v (combine lo hi)).
Proof.
  intros Hlo. revert v hi.
  induction Hlo as [|l lo Hl _ IH]; intros v hi Hhi.
  - destruct v; constructor.
  - destruct v as [|x v]; [constructor|].
    destruct Hhi as [|h hi Hh Hhi]; [constructor|].
    simpl. constructor; [split; assumption | now apply IH].
Qed.

Lemma combine_map_fst {B : Type} (P : Q * B -> Prop) (g : Q -> Q)
    (v : list Q) (rest : list B) :
  Forall (fun j => P (g (fst j), snd j)) (combine v rest) ->
  Forall P (combine (map g v) rest).
Proof.
  revert rest. induction v as [|x v IH]; intros [|y rest] H; simpl;
    try constructor; inversion H; subst; auto.
Qed.

(** The limiter on any proposed velocities, for limits that enclose zero. *)
Lemma limit_joint_vel_spec (joint_vel lo hi : list Q) :
  length lo = length joint_vel -> length hi = length joint_vel ->
  Forall (fun l => l < 0) lo -> Forall (fun h => 0 < h) hi ->
  let joints := combine joint_vel (combine lo hi) in
  exists out,
    limit_joint_vel joint_vel (lo, hi) = Ok out
    /\ Forall within_limits (combine out (combine lo hi))
    /\ (existsb outside_vel_limit joints = false -> out = joint_vel)
    /\ (existsb outside_vel_limit joints = true ->
        exists f,
          out = map (fun v => v * f) joint_vel
          /\ 0 < f < 1
          /\ Forall (fun j => outside_vel_limit j = true -> f <= joint_factor j)
               joints
          /\ Exists (fun j => outside_vel_limit j = true
                              /\ f == joint_factor j
                              /\ fst j * f == binding_limit j) joints).
Proof.
  intros Llo Lhi Hlo Hhi joints.
  pose proof (combine_signed_limits joint_vel lo hi Hlo Hhi) as Signed.
  fold joints in Signed.
  unfold limit_joint_vel. cbn [fst snd].
  rewrite zip_with_pair_ok by congruence. cbn [bind].
  rewrite zip_with_pair_ok
    by (rewrite length_combine; rewrite Llo, Lhi; lia).
  cbn [bind]. fold joints.
  destruct (existsb outside_vel_limit joints) eqn:Any.
  - (* some joint is outside its limits *)
    destruct (downscaling_loop_min (filter outside_vel_limit joints) 1)
      as (f & E & Pf & Uf & All & Which).
    { apply Forall_forall. intros j Hj. apply filter_In in Hj.
      rewrite Forall_forall in Signed. now apply Signed. }
    { apply Forall_forall. intros j Hj. now apply filter_In in Hj. }
    { reflexivity. }
    rewrite E. cbn [bind].
    assert (Min : Forall (fun j => outside_vel_limit j = true ->
                                   f <= joint_factor j) joints).
    { apply Forall_forall. intros j Hj Oj.
      rewrite Forall_forall in All. apply All. apply filter_In. auto. }
    assert (Bind : Exists (fun j => outside_vel_limit j = true
                                    /\ f == joint_factor j) joints).
    { destruct Which as [W | W].
      - (* the start value 1 is above the factor of an offending joint *)
        apply existsb_exists in Any. destruct Any as (j & Hj & Oj).
        exfalso.
        rewrite Forall_forall in Min, Signed.
        pose proof (Min j Hj Oj).
        destruct (offending_joint j (Signed j Hj) Oj) as (_ & [_ U] & _).
        lra.
      - apply Exists_exists in W. destruct W as (j & Hj & Ej).
        apply filter_In in Hj. apply Exists_exists. exists j. tauto. }
    assert (Lt : f < 1).
    { apply Exists_exists in Bind. destruct Bind as (j & Hj & Oj & Ej).
      rewrite Forall_forall in Signed.
      destruct (offending_joint j (Signed j Hj) Oj) as (_ & [_ U] & _).
      lra. }
    eexists. split; [reflexivity|].
    split.
    { apply combine_map_fst.
      rewrite Forall_forall in Min, Signed. apply Forall_forall.
      intros j Hj. apply scaled_joint_within; auto using Qlt_le_weak. }
    split; [discriminate|].
    intros _. exists f.
    split; [reflexivity|]. split; [split; assumption|].
    split; [assumption|].
    apply Exists_exists in Bind. destruct Bind as (j & Hj & Oj & Ej).
    apply Exists_exists. exists j.
    split; [assumption|]. split; [assumption|]. split; [assumption|].
    rewrite Forall_forall in Signed.
    destruct (offending_joint j (Signed j Hj) Oj) as (_ & _ & On).
    rewrite Ej. exact On.
  - (* every joint is inside *)
    exists joint_vel. split; [reflexivity|].
    split.
    { apply Forall_forall. intros [v [l h]] Hj.
      assert (O : outside_vel_limit (v, (l, h)) = false).
      { destruct (outside_vel_limit (v, (l, h))) eqn:O; [|reflexivity].
        assert (X : existsb outside_vel_limit joints = true)
          by (apply existsb_exists; eauto).
        congruence. }
      unfold outside_vel_limit in O. apply orb_false_iff in O.
      destruct O as [O1 O2]. bools. split; assumption. }
    split; [reflexivity|discriminate].
Qed.

(** ** The inverse-Jacobian solve *)

Lemma Qinv_pos (x : Q) : 0 < x -> 0 < / x.
Proof. apply Qinv_lt_0_compat. Qed.

Lemma svd_weights_ok (a : Agent) (s : vec3) :
  positive3 s -> 0 < z_position_control_tolerance a ->
  exists w0 w1 w2,
    svd_weights a s = Ok (w0, w1, w2)
    /\ w0 == fst (fst (spec_weights s (z_position_control_tolerance a)))
    /\ w1 == snd (fst (spec_weights s (z_position_control_tolerance a)))
    /\ w2 == snd (spec_weights s (z_position_control_tolerance a))
    /\ w0 + w1 + w2 == 1.
Proof.
  destruct s as [[s0 s1] s2]. intros (P0 & P1 & P2) Pt.
  unfold svd_weights, spec_weights.
  set (tol := z_position_control_tolerance a) in *.
  assert (Pm : 0 < (s0 + s1) / 2) by qlra.
  assert (Pz : 0 < s2 * tol) by nra.
  pose proof (Qinv_pos _ Pm) as Im. pose proof (Qinv_pos _ Pz) as Iz.
  rewrite !div_ok by lra. cbn [bind].
  unfold np.sum. cbn [fold_left].
  assert (E1 : 1 / ((s0 + s1) / 2) == / ((s0 + s1) / 2))
    by (unfold Qdiv at 1; ring).
  assert (E2 : 1 / (s2 * tol) == / (s2 * tol)) by (unfold Qdiv; ring).
  assert (Tot : 0 < 0 + 1 / ((s0 + s1) / 2) + 1 / ((s0 + s1) / 2)
                    + 1 / (s2 * tol)) by (rewrite E1, E2; lra).
  rewrite !div_ok by lra. cbn [bind].
  do 3 eexists. split; [reflexivity|]. cbn [fst snd].
  assert (T : 0 + 1 / ((s0 + s1) / 2) + 1 / ((s0 + s1) / 2) + 1 / (s2 * tol)
              == / ((s0 + s1) / 2) + / ((s0 + s1) / 2) + / (s2 * tol))
    by (rewrite E1, E2; ring).
  rewrite !T, !E1, !E2.
  repeat split; try reflexivity.
  field. lra.
Qed.

Section Decoder.

Variable jacobian : list Q -> list (list Q).
Variable np_linalg_pinv : list (list Q) -> list vec3.
Variable np_linalg_svd : list (list Q) -> vec3.

Variable a : Agent.

Lemma inverse_jacobian_vel_ok (st : State) (target : vec3) :
  solvable jacobian np_linalg_svd a st ->
  exists v,
    inverse_jacobian_vel jacobian np_linalg_pinv np_linalg_svd a st target
      = Ok v
    /\ Forall2
         (fun vi row =>
            vi == spec_joint_vel
                    (spec_weights (np_linalg_svd (jac_of jacobian st))
                       (z_position_control_tolerance a))
                    row (sub3 target (current_ee_pos st))
                    (sim_dt (env_info a)))
         v (np_linalg_pinv (jac_of jacobian st)).
Proof.
  intros (Ps & Pt & Pd).
  unfold inverse_jacobian_vel. fold (jac_of jacobian st).
  destruct (sub3 target (current_ee_pos st)) as [[dx dy] dz].
  destruct (svd_weights_ok a _ Ps Pt) as (w0 & w1 & w2 & E & E0 & E1 & E2 & One).
  rewrite E. cbn [bind].
  destruct (spec_weights _ _) as [[u0 u1] u2]. cbn [fst snd] in *.
  induction (np_linalg_pinv (jac_of jacobian st)) as [|[[p0 p1] p2] rows IH].
  - simpl. eauto.
  - destruct IH as (v & Ev & Fv).
    cbn [map mapM] in *.
    unfold np_average at 1. unfold np.sum at 1 2. cbn [fold_left].
    assert (Z : Qeq_bool (0 + w0 + w1 + w2) 0 = false)
      by (apply eqb_false; lra).
    rewrite Z. cbn [bind].
    destruct (mapM (fun row => np_average row (w0, w1, w2)) _) as [ds|];
      [|discriminate].
    cbn [bind mapM] in *.
    rewrite div_ok by assumption. cbn [bind].
    rewrite Ev. cbn [bind].
    eexists. split; [reflexivity|].
    constructor; [|assumption].
    unfold spec_joint_vel. rewrite <- E0, <- E1, <- E2.
    assert (S1 : 0 + w0 + w1 + w2 == 1) by lra.
    rewrite S1. field. assumption.
Qed.

(** What [process_raw_act] computes, stage by stage. *)
Lemma process_raw_act_ok (st : State) (rng : Rng) (action : vec2) :
  decodable jacobian np_linalg_pinv np_linalg_svd a st ->
  let st1 := snd (filter_action a st action) in
  let target := target_position a rng (fst (filter_action a st action)) in
  exists proposed joint_vel joint_pos,
    inverse_jacobian_vel jacobian np_linalg_pinv np_linalg_svd a st1 target
      = Ok proposed
    /\ length proposed = length (np_linalg_pinv (jac_of jacobian st))
    /\ Forall2
         (fun vi row =>
            vi == spec_joint_vel
                    (spec_weights (np_linalg_svd (jac_of jacobian st))
                       (z_position_control_tolerance a))
                    row (sub3 target (current_ee_pos st))
                    (sim_dt (env_info a)))
         proposed (np_linalg_pinv (jac_of jacobian st))
    /\ limit_joint_vel proposed (robot_joint_vel_limit_scaled a)
       = Ok joint_vel
    /\ length joint_vel = length proposed
    /\ joint_pos
       = map (fun qv => fst qv + sim_dt (env_info a) * snd qv)
           (combine (current_joint_pos st) joint_vel)
    /\ length joint_pos = length joint_vel
    /\ process_raw_act jacobian np_linalg_pinv np_linalg_svd a st rng action
       = Ok ((joint_pos, joint_vel), st1).
Proof.
  intros (Solv & Llo & Lhi & Lq & Slo & Shi) st1 target.
  assert (Same : jac_of jacobian st1 = jac_of jacobian st /\ current_ee_pos st1 = current_ee_pos st
                 /\ current_joint_pos st1 = current_joint_pos st).
  { subst st1. unfold filter_action, jac_of.
    destruct (filter_actions_enabled a); auto. }
  destruct Same as (SJ & SE & SQ).
  assert (Solv1 : solvable jacobian np_linalg_svd a st1) by (unfold solvable; now rewrite SJ).
  destruct (inverse_jacobian_vel_ok st1 target Solv1) as (v & Ev & Fv).
  rewrite SJ, SE in Fv.
  assert (Lv : length v = length (np_linalg_pinv (jac_of jacobian st)))
    by (eapply Forall2_length; eassumption).
  destruct (robot_joint_vel_limit_scaled a) as [lo hi] eqn:Lim.
  cbn [fst snd] in *.
  destruct (limit_joint_vel_spec v lo hi) as (jv & Ej & _ & Same & Scaled);
    try congruence.
  assert (Lj : length jv = length v).
  { destruct (existsb outside_vel_limit (combine v (combine lo hi))).
    - destruct (Scaled eq_refl) as (f & -> & _). apply length_map.
    - now rewrite Same. }
  exists v, jv. eexists.
  split; [exact Ev|]. split; [exact Lv|]. split; [exact Fv|].
  split; [exact Ej|]. split; [exact Lj|]. split; [reflexivity|].
  split.
  { rewrite length_map, length_combine. lia. }
  unfold process_raw_act.
  destruct (filter_action a st action) as [t st2] eqn:Fa.
  cbn [fst snd] in *. subst st1. fold target.
  rewrite Ev. cbn [bind]. rewrite Lim, Ej. cbn [bind].
  rewrite SQ.
  assert (Z : forall (q w : list Q),
            length q = length w ->
            np.zip_with (fun x y => Ok (x + sim_dt (env_info a) * y)) q w
            = Ok (map (fun qv => fst qv + sim_dt (env_info a) * snd qv)
                    (combine q w))).
  { induction q as [|x q IH]; intros [|y w] L; try discriminate;
      [reflexivity|].
    simpl. rewrite IH by (simpl in L; lia). reflexivity. }
  rewrite Z by lia. reflexivity.
Qed.

End Decoder.

(** C6. For a call of [process_raw_act] on a full-rank Jacobian with a
    positive tolerance and a non-zero time step: the weights, obtained from
    the singular values by replacing the first two by their mean,
    multiplying the third by the tolerance, inverting and dividing by the
    sum, add up to 1; the velocity of every joint before the limits are
    enforced is the sum over the three Cartesian directions of weight times
    pseudo-inverse entry times displacement, divided by dt, where the
    displacement is the target minus the current end-effector position; and
    the returned joint positions are the current ones plus dt times the
    returned velocities. *)
Theorem weighted_inverse_jacobian
    (jacobian : list Q -> list (list Q))
    (np_linalg_pinv : list (list Q) -> list vec3)
    (np_linalg_svd : list (list Q) -> vec3)
    (a : Agent) (st : State) (rng : Rng) (action : vec2) :
  decodable jacobian np_linalg_pinv np_linalg_svd a st ->
  let jac := firstn 3 (jacobian (current_joint_pos st)) in
  let target_ee_pos := target_position a rng (fst (filter_action a st action)) in
  let target_ee_disp := sub3 target_ee_pos (current_ee_pos st) in
  let w := spec_weights (np_linalg_svd jac) (z_position_control_tolerance a) in
  fst (fst w) + snd (fst w) + snd w == 1
  /\ exists proposed joint_vel joint_pos st',
       inverse_jacobian_vel jacobian np_linalg_pinv np_linalg_svd a st'
         target_ee_pos = Ok proposed
       /\ Forall2
            (fun vi row =>
               vi == (fst (fst w) * fst (fst row) * fst (fst target_ee_disp)
                      + snd (fst w) * snd (fst row) * snd (fst target_ee_disp)
                      + snd w * snd row * snd target_ee_disp)
                     / sim_dt (env_info a))
            proposed (np_linalg_pinv jac)
       /\ limit_joint_vel proposed (robot_joint_vel_limit_scaled a)
          = Ok joint_vel
       /\ process_raw_act jacobian np_linalg_pinv np_linalg_svd a st rng action
          = Ok ((joint_pos, joint_vel), st')
       /\ length joint_pos = length joint_vel
       /\ length joint_vel = length (current_joint_pos st)
       /\ joint_pos
          = map (fun qv => fst qv + sim_dt (env_info a) * snd qv)
              (combine (current_joint_pos st) joint_vel).
Proof.
  intros Dec jac target disp w.
  pose proof Dec as (Solv & _ & _ & Lq & _).
  destruct Solv as (Ps & Pt & Pd).
  split.
  { destruct (svd_weights_ok a _ Ps Pt) as (w0 & w1 & w2 & _ & E0 & E1 & E2 & One).
    subst w jac. unfold jac_of in *. rewrite <- E0, <- E1, <- E2. exact One. }
  destruct (process_raw_act_ok jacobian np_linalg_pinv np_linalg_svd a st rng
              action Dec) as (v & jv & jp & Ev & Lv & Fv & Ej & Lj & Ep & Lp & R).
  exists v, jv, jp, (snd (filter_action a st action)).
  split; [exact Ev|].
  split.
  { unfold jac_of in Fv. fold jac target in Fv. fold disp w in Fv.
    eapply Forall2_impl; [|exact Fv].
    intros vi [[p0 p1] p2] H. rewrite H. unfold spec_joint_vel.
    destruct w as [[w0 w1] w2]. destruct disp as [[d0 d1] d2]. reflexivity. }
  split; [exact Ej|]. split; [exact R|]. split; [exact Lp|].
  split; [unfold jac_of in *; congruence|]. exact Ep.
Qed.



(** The sample arm at rest can be decoded for. *)
Ltac sample_decodable :=
  unfold decodable, solvable; cbn;
  repeat match goal with
         | |- _ /\ _ => split
         | |- Forall _ _ => repeat constructor
         | |- _ => qcompute
         end.

Lemma weighted_inverse_jacobian_witness :
  let w := spec_weights (1, 1, 1) (35 # 100) in
  fst (fst w) + snd (fst w) + snd w == 1.
Proof.
  refine (proj1 (weighted_inverse_jacobian Sample.jacobian Sample.pinv
                   Sample.svd (Sample.agent S7 false) Sample.state_at_rest
                   Sample.no_noise (1, 1) _)).
  sample_decodable.
Defined.


(** * Further properties of the encoder *)

(** ** The halves of the table *)





(** ** The history deques *)

Lemma encode_first_tick (a : Agent) (st : State) (rng : Rng) (n : Normalized)
    (o : list Q) (st' : State) :
  _new_episode st = true ->
  stacked_obs_puck_pos st = [] ->
  stacked_obs_participant_ee_pos st = [] ->
  stacked_obs_opponent_ee_pos st = [] ->
  (scheme a = S7 -> stacked_obs_puck_rot st = []) ->
  encode a st rng n = Ok (o, st') ->
  stacked_obs_puck_pos st'
  = repeat (puck_pos_xy_norm n) (n_stacked_obs_puck_pos (scheme a))
  /\ stacked_obs_participant_ee_pos st'
     = repeat (ee_pos_xy_norm n) (n_stacked_obs_participant_ee_pos (scheme a))
  /\ stacked_obs_opponent_ee_pos st'
     = repeat (opponent_ee_pos_xy_norm n)
         (n_stacked_obs_opponent_ee_pos (scheme a))
  /\ (scheme a = S7 ->
      stacked_obs_puck_rot st'
      = repeat (puck_rot_yaw_norm n) (n_stacked_obs_puck_rot (scheme a))).
Proof.
  intros New Ep Ee Eo Er.
  unfold encode, stack_by_filling, stack_by_episode, stack_scheme7,
    update_signed_penalty.
  destruct (scheme a) eqn:Sch.
  all: try (destruct (normalize_clip_joints _ _) as [j|]; [|discriminate]).
  all: cbn [bind].
  all: cbn [set_penalty _new_episode stacked_obs_puck_pos stacked_obs_puck_rot
              stacked_obs_participant_ee_pos stacked_obs_opponent_ee_pos].
  all: rewrite ?New, ?Ep, ?Ee, ?Eo, ?(Er eq_refl).
  all: cbn.
  all: repeat match goal with
       | |- context [penalty_timer_unsigned ?x ?y ?z] =>
           destruct (penalty_timer_unsigned x y z)
       | |- context [penalty_timer_step ?x ?y ?z ?w] =>
           destruct (penalty_timer_step x y z w)
       end.
  all: cbn; rewrite ?New, ?Ep, ?Ee, ?Eo, ?(Er eq_refl); cbn.
  all: intro H; inversion H; subst; cbn.
  all: repeat split; try reflexivity; discriminate.
Qed.

Lemma process_raw_obs_inv (forward_kinematics : list Q -> vec3)
    (np_sin np_cos : Q -> Q) (a : Agent) (st : State) (rng : Rng)
    (obs : RawObs) (o : list Q) (st' : State) :
  process_raw_obs forward_kinematics np_sin np_cos a st rng obs = Ok (o, st') ->
  exists q ee n,
    normalize_obs forward_kinematics np_sin np_cos a rng obs = Ok (q, ee, n)
    /\ encode a (set_current st q ee (ee_pos_xy_norm n)) rng n = Ok (o, st')
    /\ length o = observation_space (scheme a).
Proof.
  unfold process_raw_obs.
  destruct (normalize_obs _ _ _ _ _ _) as [[[q ee] n]|]; [|discriminate].
  cbn [bind].
  destruct (encode _ _ _ _) as [[o1 st1]|] eqn:Enc; [|discriminate].
  cbn [bind].
  destruct (Nat.eqb (length o1) _) eqn:L; [|discriminate].
  intro H. inversion H; subst. apply Nat.eqb_eq in L.
  exists q, ee, n. auto.
Qed.

(** X2. The first tick after [reset] fills every history deque with copies
    of the reading of that tick, up to its capacity: the puck deque holds
    [n_stacked_obs_puck_pos] copies of the normalised puck position, and
    likewise the two end-effector deques and, in scheme 7, the rotation
    deque.  This holds in all six schemes, in training as in evaluation. *)
Theorem first_tick_replicates_reading
    (forward_kinematics : list Q -> vec3) (np_sin np_cos : Q -> Q)
    (a : Agent) (st0 : State) (rng : Rng) (obs : RawObs) :
  wf_env (env_info a) -> obs_ok a obs ->
  exists o st' ee n,
    normalize_obs forward_kinematics np_sin np_cos a rng obs
      = Ok (get_joint_pos obs, ee, n)
    /\ process_raw_obs forward_kinematics np_sin np_cos a (reset a st0) rng obs
       = Ok (o, st')
    /\ stacked_obs_puck_pos st'
       = repeat (puck_pos_xy_norm n) (n_stacked_obs_puck_pos (scheme a))
    /\ stacked_obs_participant_ee_pos st'
       = repeat (ee_pos_xy_norm n)
           (n_stacked_obs_participant_ee_pos (scheme a))
    /\ stacked_obs_opponent_ee_pos st'
       = repeat (opponent_ee_pos_xy_norm n)
           (n_stacked_obs_opponent_ee_pos (scheme a))
    /\ (scheme a = S7 ->
        stacked_obs_puck_rot st'
        = repeat (puck_rot_yaw_norm n) (n_stacked_obs_puck_rot (scheme a))).
Proof.
  intros He Hobs.
  destruct (process_raw_obs_ok any any_clip forward_kinematics np_sin np_cos
              (fun _ => I) (fun _ => I) a He (reset a st0) rng obs Hobs
              (proj1 (reset_stacks_inv any a st0)) (stacks_bounded_any _ _))
    as (o & st' & ee & n & En & E & _).
  exists o, st', ee, n.
  split; [exact En|]. split; [exact E|].
  destruct (process_raw_obs_inv _ _ _ _ _ _ _ _ _ E) as (q & ee' & n' & En' & Enc & _).
  rewrite En in En'. inversion En'; subst q ee' n'.
  apply (encode_first_tick a
           (set_current (reset a st0) (get_joint_pos obs) ee (ee_pos_xy_norm n))
           rng n o st'); try reflexivity; try exact Enc.
  intro S. unfold reset. simpl. now rewrite S.
Qed.

Lemma first_tick_replicates_reading_witness :
  let a := Sample.agent S3 true in
  exists o st' ee n,
    normalize_obs Sample.forward_kinematics Sample.sin Sample.cos a
      Sample.some_noise (Sample.raw_obs 2 0)
      = Ok (get_joint_pos (Sample.raw_obs 2 0), ee, n)
    /\ process_raw_obs Sample.forward_kinematics Sample.sin Sample.cos a
         (reset a Sample.state) Sample.some_noise (Sample.raw_obs 2 0)
       = Ok (o, st')
    /\ stacked_obs_puck_pos st' = repeat (puck_pos_xy_norm n) 9
    /\ stacked_obs_participant_ee_pos st' = repeat (ee_pos_xy_norm n) 3
    /\ stacked_obs_opponent_ee_pos st'
       = repeat (opponent_ee_pos_xy_norm n) 5
    /\ (S3 = S7 -> stacked_obs_puck_rot st' = repeat (puck_rot_yaw_norm n) 0).
Proof.
  intro a.
  apply (first_tick_replicates_reading Sample.forward_kinematics Sample.sin
           Sample.cos a Sample.state Sample.some_noise (Sample.raw_obs 2 0)).
  - constructor; [qcompute | qcompute | repeat constructor].
  - repeat constructor.
Defined.

(** A full deque drops its oldest element for the new one. *)
Lemma deque_append_slide {A : Type} (n : nat) (d : list A) (x : A) :
  (0 < n)%nat -> length d = n -> deque_append n d x = tl d ++ [x].
Proof.
  intros Hn L. unfold deque_append.
  rewrite length_app. simpl.
  replace (length d + 1 - n)%nat with 1%nat by lia.
  destruct d as [|y d]; [simpl in L; lia|]. reflexivity.
Qed.

Lemma append_and_fill_slide {A : Type} (n : nat) (d : list A) (x : A) :
  (0 < n)%nat -> length d = n -> append_and_fill n d x = Ok (tl d ++ [x]).
Proof.
  intros Hn L. unfold append_and_fill.
  rewrite deque_append_slide by assumption.
  assert (F : length (tl d ++ [x]) = n).
  { destruct d; simpl in *; [lia|]. rewrite length_app. simpl. lia. }
  destruct n; [lia|]. simpl. rewrite F, Nat.eqb_refl. reflexivity.
Qed.

Lemma depths_positive (s : Scheme) :
  (0 < n_stacked_obs_puck_pos s)%nat
  /\ (0 < n_stacked_obs_participant_ee_pos s)%nat
  /\ (0 < n_stacked_obs_opponent_ee_pos s)%nat
  /\ (s = S7 -> 0 < n_stacked_obs_puck_rot s)%nat.
Proof. destruct s; simpl; repeat split; intros; try discriminate; lia. Qed.

Lemma encode_later_tick (a : Agent) (st : State) (rng : Rng) (n : Normalized)
    (o : list Q) (st' : State) :
  stacks_full (scheme a) st ->
  encode a st rng n = Ok (o, st') ->
  stacked_obs_participant_ee_pos st'
  = tl (stacked_obs_participant_ee_pos st) ++ [ee_pos_xy_norm n]
  /\ stacked_obs_opponent_ee_pos st'
     = tl (stacked_obs_opponent_ee_pos st) ++ [opponent_ee_pos_xy_norm n]
  /\ (tracking a st ->
      stacked_obs_puck_pos st'
      = tl (stacked_obs_puck_pos st) ++ [puck_pos_xy_norm n]
      /\ (scheme a = S7 ->
          stacked_obs_puck_rot st'
          = tl (stacked_obs_puck_rot st) ++ [puck_rot_yaw_norm n]))
  /\ (blind a st ->
      exists last_pos last_rot,
        deque_last (stacked_obs_puck_pos st) = Ok last_pos
        /\ deque_last (stacked_obs_puck_rot st) = Ok last_rot
        /\ stacked_obs_puck_pos st' = tl (stacked_obs_puck_pos st) ++ [last_pos]
        /\ stacked_obs_puck_rot st' = tl (stacked_obs_puck_rot st) ++ [last_rot]
        /\ lose_tracking_n_steps_remaining st'
           = (lose_tracking_n_steps_remaining st - 1)%Z
        /\ lose_tracking_probability st' = lose_tracking_probability st).
Proof.
  intros (Lp & Le & Lo & Lr & New).
  destruct (depths_positive (scheme a)) as (Pp & Pe & Po & Pr).
  unfold encode, tracking, blind.
  destruct (scheme a) eqn:Sch.
  - (* scheme 2 *)
    unfold stack_by_filling.
    rewrite !append_and_fill_slide by assumption. cbn [bind].
    destruct (penalty_timer_unsigned _ _ _).
    intro H; inversion H; subst; cbn.
    repeat split; try reflexivity; try discriminate.
    intros (? & _); discriminate.
  - unfold stack_by_filling, update_signed_penalty.
    rewrite !append_and_fill_slide by assumption. cbn [bind].
    destruct (penalty_timer_step _ _ _ _).
    intro H; inversion H; subst; cbn.
    repeat split; try reflexivity; try discriminate.
    intros (? & _); discriminate.
  - unfold stack_by_filling, update_signed_penalty.
    rewrite !append_and_fill_slide by assumption. cbn [bind].
    destruct (penalty_timer_step _ _ _ _).
    intro H; inversion H; subst; cbn.
    repeat split; try reflexivity; try discriminate.
    intros (? & _); discriminate.
  - unfold stack_by_episode, update_signed_penalty.
    destruct (penalty_timer_step _ _ _ _).
    cbn [set_penalty _new_episode stacked_obs_puck_pos stacked_obs_puck_rot
           stacked_obs_participant_ee_pos stacked_obs_opponent_ee_pos
           lose_tracking_n_steps_remaining lose_tracking_probability].
    rewrite New by discriminate.
    rewrite !deque_append_slide by assumption.
    intro H; inversion H; subst; cbn.
    repeat split; try reflexivity; try discriminate.
    intros (? & _); discriminate.
  - unfold stack_by_episode, update_signed_penalty.
    destruct (normalize_clip_joints _ _); [|discriminate]. cbn [bind].
    destruct (penalty_timer_step _ _ _ _).
    cbn [set_penalty _new_episode stacked_obs_puck_pos stacked_obs_puck_rot
           stacked_obs_participant_ee_pos stacked_obs_opponent_ee_pos
           lose_tracking_n_steps_remaining lose_tracking_probability].
    rewrite New by discriminate.
    rewrite !deque_append_slide by assumption.
    intro H; inversion H; subst; cbn.
    repeat split; try reflexivity; try discriminate.
    intros (? & _); discriminate.
  - (* scheme 7 *)
    specialize (Lr eq_refl). specialize (Pr eq_refl).
    unfold stack_scheme7, stack_puck_tracked, update_signed_penalty.
    destruct (normalize_clip_joints _ _); [|discriminate]. cbn [bind].
    destruct (penalty_timer_step _ _ _ _).
    cbn [set_penalty _new_episode stacked_obs_puck_pos stacked_obs_puck_rot
           stacked_obs_participant_ee_pos stacked_obs_opponent_ee_pos
           lose_tracking_n_steps_remaining lose_tracking_probability].
    rewrite New by discriminate. rewrite Sch.
    rewrite !deque_append_slide by assumption.
    destruct (evaluate a) eqn:Ev.
    + cbn. intro H; inversion H; subst; cbn.
      repeat split; try reflexivity. intros (_ & ? & _); discriminate.
    + destruct (0 <? lose_tracking_n_steps_remaining st)%Z eqn:Blind.
      * apply Z.ltb_lt in Blind.
        destruct (deque_last (stacked_obs_puck_pos st)) as [lp|];
          [|discriminate].
        destruct (deque_last (stacked_obs_puck_rot st)) as [lr|];
          [|discriminate].
        cbn. rewrite !deque_append_slide by assumption.
        intro H; inversion H; subst; cbn.
        split; [reflexivity|]. split; [reflexivity|].
        split.
        { intros [C | [C | C]]; [congruence | discriminate | lia]. }
        intros _. exists lp, lr. repeat split; reflexivity.
      * apply Z.ltb_ge in Blind.
        destruct (np.ltb (rand rng) (lose_tracking_probability st)).
        all: cbn; intro H; inversion H; subst; cbn.
        all: repeat split; try reflexivity.
        all: intros (_ & _ & ?); lia.
Qed.

Section LaterTicks.

Variable forward_kinematics : list Q -> vec3.
Variable np_sin np_cos : Q -> Q.
Variable a : Agent.
Hypothesis env_ok : wf_env (env_info a).

Lemma later_tick (st : State) (rng : Rng) (obs : RawObs) :
  obs_ok a obs -> stacks_full (scheme a) st ->
  exists o st' ee n,
    normalize_obs forward_kinematics np_sin np_cos a rng obs
      = Ok (get_joint_pos obs, ee, n)
    /\ process_raw_obs forward_kinematics np_sin np_cos a st rng obs
       = Ok (o, st')
    /\ encode a (set_current st (get_joint_pos obs) ee (ee_pos_xy_norm n))
         rng n = Ok (o, st')
    /\ stacks_full (scheme a) st'.
Proof.
  intros Hobs Full.
  destruct (process_raw_obs_ok any any_clip forward_kinematics np_sin np_cos
              (fun _ => I) (fun _ => I) a env_ok st rng obs Hobs
              (stacks_full_inv _ _ Full) (stacks_bounded_any _ _))
    as (o & st' & ee & n & En & E & Enc & _).
  exists o, st', ee, n.
  split; [exact En|]. split; [exact E|].
  destruct (process_raw_obs_inv _ _ _ _ _ _ _ _ _ E)
    as (q & ee' & n' & En' & Enc' & _).
  rewrite En in En'. inversion En'; subst q ee' n'.
  split; [exact Enc'|]. apply Enc.
Qed.

End LaterTicks.

(** X3. After the first tick of an episode every history deque is a sliding
    window: a tick drops the oldest entry and appends the reading of that
    tick.  The two end-effector deques always take the fresh reading; the
    puck deque (and the rotation deque of scheme 7) takes it in evaluation,
    in schemes 2 to 6, and in training while no blind interval runs. *)
Theorem later_tick_slides_window
    (forward_kinematics : list Q -> vec3) (np_sin np_cos : Q -> Q)
    (a : Agent) (st : State) (rng : Rng) (obs : RawObs) :
  wf_env (env_info a) -> obs_ok a obs -> stacks_full (scheme a) st ->
  exists o st' ee n,
    normalize_obs forward_kinematics np_sin np_cos a rng obs
      = Ok (get_joint_pos obs, ee, n)
    /\ process_raw_obs forward_kinematics np_sin np_cos a st rng obs
       = Ok (o, st')
    /\ stacks_full (scheme a) st'
    /\ stacked_obs_participant_ee_pos st'
       = tl (stacked_obs_participant_ee_pos st) ++ [ee_pos_xy_norm n]
    /\ stacked_obs_opponent_ee_pos st'
       = tl (stacked_obs_opponent_ee_pos st) ++ [opponent_ee_pos_xy_norm n]
    /\ (tracking a st ->
        stacked_obs_puck_pos st'
        = tl (stacked_obs_puck_pos st) ++ [puck_pos_xy_norm n]
        /\ (scheme a = S7 ->
            stacked_obs_puck_rot st'
            = tl (stacked_obs_puck_rot st) ++ [puck_rot_yaw_norm n])).
Proof.
  intros He Hobs Full.
  destruct (later_tick forward_kinematics np_sin np_cos a He st rng obs
              Hobs Full) as (o & st' & ee & n & En & E & Enc & Full').
  exists o, st', ee, n.
  split; [exact En|]. split; [exact E|]. split; [exact Full'|].
  destruct (encode_later_tick a
              (set_current st (get_joint_pos obs) ee (ee_pos_xy_norm n))
              rng n o st' Full Enc) as (Se & So & St & _).
  split; [exact Se|]. split; [exact So|]. exact St.
Qed.

(** X4. During a blind interval of scheme 7 in training (a positive number
    of blind steps remaining) a tick does not record the puck it is shown:
    the puck and rotation deques drop their oldest entry and repeat their
    newest one, the number of remaining blind steps goes down by one and the
    probability of losing track is left alone. *)
Theorem blind_tick_repeats_last_reading
    (forward_kinematics : list Q -> vec3) (np_sin np_cos : Q -> Q)
    (a : Agent) (st : State) (rng : Rng) (obs : RawObs) :
  wf_env (env_info a) -> obs_ok a obs -> stacks_full (scheme a) st ->
  blind a st ->
  exists o st' last_pos last_rot,
    process_raw_obs forward_kinematics np_sin np_cos a st rng obs = Ok (o, st')
    /\ stacks_full (scheme a) st'
    /\ deque_last (stacked_obs_puck_pos st) = Ok last_pos
    /\ deque_last (stacked_obs_puck_rot st) = Ok last_rot
    /\ stacked_obs_puck_pos st' = tl (stacked_obs_puck_pos st) ++ [last_pos]
    /\ stacked_obs_puck_rot st' = tl (stacked_obs_puck_rot st) ++ [last_rot]
    /\ deque_last (stacked_obs_puck_pos st') = Ok last_pos
    /\ deque_last (stacked_obs_puck_rot st') = Ok last_rot
    /\ lose_tracking_n_steps_remaining st'
       = (lose_tracking_n_steps_remaining st - 1)%Z
    /\ lose_tracking_probability st' = lose_tracking_probability st.
Proof.
  intros He Hobs Full Blind.
  destruct (later_tick forward_kinematics np_sin np_cos a He st rng obs
              Hobs Full) as (o & st' & ee & n & En & E & Enc & Full').
  destruct (encode_later_tick a
              (set_current st (get_joint_pos obs) ee (ee_pos_xy_norm n))
              rng n o st' Full Enc) as (_ & _ & _ & B).
  destruct (B Blind) as (lp & lr & Elp & Elr & Sp & Sr & K & Pr).
  exists o, st', lp, lr.
  assert (La : forall (d : list vec2) x, deque_last (d ++ [x]) = Ok x).
  { intros d x. unfold deque_last. now rewrite rev_app_distr. }
  repeat (split; [assumption|]).
  split; [rewrite Sp; apply La|].
  split; [rewrite Sr; apply La|].
  split; assumption.
Qed.

Lemma later_tick_slides_window_witness :
  let a := Sample.agent S4 false in
  exists o st' ee n,
    normalize_obs Sample.forward_kinematics Sample.sin Sample.cos a
      Sample.no_noise (Sample.raw_obs 2 0)
      = Ok (get_joint_pos (Sample.raw_obs 2 0), ee, n)
    /\ process_raw_obs Sample.forward_kinematics Sample.sin Sample.cos a
         Scenario.running Sample.no_noise (Sample.raw_obs 2 0) = Ok (o, st')
    /\ stacks_full S4 st'
    /\ stacked_obs_participant_ee_pos st'
       = [(- (1 # 2), 0); ee_pos_xy_norm n]
    /\ stacked_obs_opponent_ee_pos st'
       = [(1 # 2, 0); opponent_ee_pos_xy_norm n]
    /\ (tracking a Scenario.running ->
        stacked_obs_puck_pos st' = [(1 # 10, 0); puck_pos_xy_norm n]
        /\ (S4 = S7 -> stacked_obs_puck_rot st' = [puck_rot_yaw_norm n])).
Proof.
  intro a.
  apply (later_tick_slides_window Sample.forward_kinematics Sample.sin
           Sample.cos a Scenario.running Sample.no_noise (Sample.raw_obs 2 0)).
  - constructor; [qcompute | qcompute | repeat constructor].
  - repeat constructor.
  - cbn. repeat split; try reflexivity; discriminate.
Defined.

Lemma blind_tick_repeats_last_reading_witness :
  let a := Sample.agent S7 true in
  exists o st' last_pos last_rot,
    process_raw_obs Sample.forward_kinematics Sample.sin Sample.cos a
      Scenario.blinded Sample.some_noise (Sample.raw_obs 2 0) = Ok (o, st')
    /\ stacks_full S7 st'
    /\ Ok (1 # 10, 0) = Ok last_pos
    /\ Ok (0, 1) = Ok last_rot
    /\ stacked_obs_puck_pos st' = repeat (0, 0) 8 ++ [(1 # 10, 0); last_pos]
    /\ stacked_obs_puck_rot st' = [(0, 1); last_rot]
    /\ deque_last (stacked_obs_puck_pos st') = Ok last_pos
    /\ deque_last (stacked_obs_puck_rot st') = Ok last_rot
    /\ lose_tracking_n_steps_remaining st' = 2%Z
    /\ lose_tracking_probability st' = 0.
Proof.
  intro a.
  apply (blind_tick_repeats_last_reading Sample.forward_kinematics Sample.sin
           Sample.cos a Scenario.blinded Sample.some_noise
           (Sample.raw_obs 2 0)).
  - constructor; [qcompute | qcompute | repeat constructor].
  - repeat constructor.
  - cbn. repeat split; reflexivity.
  - repeat split; reflexivity.
Defined.

(** X5. A blind interval of scheme 7 in training lasts exactly as many ticks
    as blind steps remain when it starts: over that many ticks, whatever
    they show, the newest puck and rotation entries stay the ones recorded
    before, and afterwards no blind step remains, so that the next tick
    records the puck again. *)
Theorem blind_interval_runs_out
    (forward_kinematics : list Q -> vec3) (np_sin np_cos : Q -> Q)
    (a : Agent) (ticks : list (Rng * RawObs)) (st : State) :
  wf_env (env_info a) ->
  Forall (fun t => obs_ok a (snd t)) ticks ->
  scheme a = S7 -> evaluate a = false ->
  stacks_full (scheme a) st ->
  lose_tracking_n_steps_remaining st = Z.of_nat (length ticks) ->
  exists outs st' last_pos last_rot,
    run_obs forward_kinematics np_sin np_cos a st ticks = Ok (outs, st')
    /\ deque_last (stacked_obs_puck_pos st) = Ok last_pos
    /\ deque_last (stacked_obs_puck_rot st) = Ok last_rot
    /\ deque_last (stacked_obs_puck_pos st') = Ok last_pos
    /\ deque_last (stacked_obs_puck_rot st') = Ok last_rot
    /\ lose_tracking_n_steps_remaining st' = 0%Z
    /\ lose_tracking_probability st' = lose_tracking_probability st
    /\ stacks_full (scheme a) st'
    /\ tracking a st'.
Proof.
  intros He Ht S7' Tr. revert st.
  induction Ht as [|[rng obs] ticks Hobs _ IH]; intros st Full K.
  - pose proof Full as Full0.
    destruct Full as (Lp & Le & Lo & Lr & New).
    destruct (deque_last_Forall (fun _ => True) (stacked_obs_puck_pos st))
      as (lp & Elp & _).
    { apply Forall_forall. auto. }
    { intro E. rewrite E, S7' in Lp. discriminate. }
    destruct (deque_last_Forall (fun _ => True) (stacked_obs_puck_rot st))
      as (lr & Elr & _).
    { apply Forall_forall. auto. }
    { intro E. specialize (Lr S7'). rewrite E, S7' in Lr. discriminate. }
    exists [], st, lp, lr. simpl in *.
    split; [reflexivity|]. split; [exact Elp|]. split; [exact Elr|].
    split; [exact Elp|]. split; [exact Elr|]. split; [exact K|].
    split; [reflexivity|]. split; [exact Full0|].
    right; right. lia.
  - simpl length in K.
    assert (B : blind a st) by (repeat split; try assumption; lia).
    destruct (later_tick forward_kinematics np_sin np_cos a He st rng obs
                Hobs Full) as (o & st1 & ee & n & En & E & Enc & Full1).
    destruct (encode_later_tick a
                (set_current st (get_joint_pos obs) ee (ee_pos_xy_norm n))
                rng n o st1 Full Enc) as (_ & _ & _ & Bl).
    destruct (Bl B) as (lp & lr & Elp & Elr & Sp & Sr & K1 & Pr).
    cbn in Elp, Elr, Sp, Sr, K1, Pr.
    destruct (IH st1 Full1) as (outs & st' & lp' & lr' & R & Elp1 & Elr1
                                 & Elp' & Elr' & K' & Pr' & Full' & T').
    { rewrite K1, K. lia. }
    assert (La : forall (d : list vec2) x, deque_last (d ++ [x]) = Ok x).
    { intros d x. unfold deque_last. now rewrite rev_app_distr. }
    rewrite Sp, La in Elp1. rewrite Sr, La in Elr1.
    inversion Elp1; subst lp'. inversion Elr1; subst lr'.
    exists (o :: outs), st', lp, lr.
    simpl. rewrite E. cbn [bind]. rewrite R. cbn [bind].
    split; [reflexivity|]. split; [exact Elp|]. split; [exact Elr|].
    split; [exact Elp'|]. split; [exact Elr'|]. split; [exact K'|].
    split; [congruence|]. split; assumption.
Qed.

Lemma blind_interval_runs_out_witness :
  let a := Sample.agent S7 true in
  exists outs st' last_pos last_rot,
    run_obs Sample.forward_kinematics Sample.sin Sample.cos a Scenario.blinded
      [(Sample.some_noise, Sample.raw_obs 2 0);
       (Sample.no_noise, Sample.raw_obs 1 0);
       (Sample.some_noise, Sample.raw_obs 1 (1 # 10))] = Ok (outs, st')
    /\ deque_last (stacked_obs_puck_pos Scenario.blinded) = Ok last_pos
    /\ deque_last (stacked_obs_puck_rot Scenario.blinded) = Ok last_rot
    /\ deque_last (stacked_obs_puck_pos st') = Ok last_pos
    /\ deque_last (stacked_obs_puck_rot st') = Ok last_rot
    /\ lose_tracking_n_steps_remaining st' = 0%Z
    /\ lose_tracking_probability st' = 0
    /\ stacks_full S7 st'
    /\ tracking a st'.
Proof.
  intro a.
  apply (blind_interval_runs_out Sample.forward_kinematics Sample.sin
           Sample.cos a).
  - constructor; [qcompute | qcompute | repeat constructor].
  - repeat constructor.
  - reflexivity.
  - reflexivity.
  - cbn. repeat split; reflexivity.
  - reflexivity.
Defined.

(** ** The penalty timers of the encoder *)

Section PenaltyTick.

Variable forward_kinematics : list Q -> vec3.
Variable np_sin np_cos : Q -> Q.
Variable a : Agent.
Hypothesis env_ok : wf_env (env_info a).

(** What a tick does to the timer, read off [encoded]. *)
Lemma tick_penalty (st : State) (rng : Rng) (obs : RawObs) :
  obs_ok a obs -> stacks_inv (scheme a) st ->
  exists o st' ee n,
    normalize_obs forward_kinematics np_sin np_cos a rng obs
      = Ok (get_joint_pos obs, ee, n)
    /\ process_raw_obs forward_kinematics np_sin np_cos a st rng obs
       = Ok (o, st')
    /\ stacks_inv (scheme a) st'
    /\ penalty_emitted a n st o st'.
Proof.
  intros Hobs Inv.
  destruct (process_raw_obs_ok any any_clip forward_kinematics np_sin np_cos
              (fun _ => I) (fun _ => I) a env_ok st rng obs Hobs Inv
              (stacks_bounded_any _ _))
    as (o & st' & ee & n & En & E & Enc & _).
  exists o, st', ee, n.
  destruct Enc as (F & _ & _ & _ & Pen & _).
  split; [exact En|]. split; [exact E|].
  split; [now apply stacks_full_inv|]. exact Pen.
Qed.

End PenaltyTick.

Lemma clip_mono_zero (x : Q) : 0 <= x -> 0 <= np.clip x (-1) 1 <= 1.
Proof.
  intro H. pose proof (clip_unit x) as [L U]. split; [|exact U].
  unfold np.clip.
  rewrite (Q.max_l x (-1)) by lra.
  destruct (Q.min_spec 1 x) as [[_ ->] | [_ ->]]; lra.
Qed.

(** X6. Scheme 2 keeps an unsigned timer.  While the normalised puck x
    position is negative (the puck is on the agent's half) the first entry
    of the vector is the time accumulated before this tick divided by 15,
    clipped to at most 1, and the timer then grows by dt; otherwise the
    first entry is -1 and the timer restarts at 0.  With dt >= 0 the timer
    never becomes negative, so the entry is -1 or lies in [[0, 1]]. *)
Theorem unsigned_penalty_entry
    (forward_kinematics : list Q -> vec3) (np_sin np_cos : Q -> Q)
    (a : Agent) (st : State) (rng : Rng) (obs : RawObs) :
  scheme a = S2 ->
  wf_env (env_info a) -> obs_ok a obs -> stacks_inv (scheme a) st ->
  0 <= sim_dt (env_info a) -> 0 <= penalty_timer st ->
  exists o st' ee n,
    normalize_obs forward_kinematics np_sin np_cos a rng obs
      = Ok (get_joint_pos obs, ee, n)
    /\ process_raw_obs forward_kinematics np_sin np_cos a st rng obs
       = Ok (o, st')
    /\ (fst (puck_pos_xy_norm n) < 0 ->
        hd 0 o = np.clip (penalty_timer st / MAX_TIME_UNTIL_PENALTY_S) (-1) 1
        /\ 0 <= hd 0 o <= 1
        /\ penalty_timer st' = penalty_timer st + sim_dt (env_info a))
    /\ (0 <= fst (puck_pos_xy_norm n) ->
        hd 0 o == -1 /\ penalty_timer st' = 0)
    /\ 0 <= penalty_timer st'
    /\ stacks_inv (scheme a) st'.
Proof.
  intros S2' He Hobs Inv Hdt Ht.
  destruct (tick_penalty forward_kinematics np_sin np_cos a He st rng obs
              Hobs Inv) as (o & st' & ee & n & En & E & Inv' & Pen).
  exists o, st', ee, n.
  split; [exact En|]. split; [exact E|].
  unfold penalty_emitted in Pen. rewrite S2' in Pen. cbn in Pen.
  unfold penalty_timer_unsigned in Pen.
  destruct Pen as [Hd Ti].
  destruct (np.ltb (fst (puck_pos_xy_norm n)) 0) eqn:Side; bools;
    cbn [fst snd] in *.
  - split.
    { intros _. split; [exact Hd|]. split; [|exact Ti].
      rewrite Hd. apply clip_mono_zero.
      unfold MAX_TIME_UNTIL_PENALTY_S. qlra. }
    split; [intro; lra|]. split; [rewrite Ti; lra | exact Inv'].
  - split; [intro; lra|].
    split.
    { intros _. split; [|exact Ti]. rewrite Hd. apply clip_id.
      split; lra. }
    split; [rewrite Ti; lra | exact Inv'].
Qed.

Lemma unsigned_penalty_entry_witness :
  let a := Sample.agent S2 false in
  exists o st' ee n,
    normalize_obs Sample.forward_kinematics Sample.sin Sample.cos a
      Sample.no_noise (Sample.raw_obs 1 0)
      = Ok (get_joint_pos (Sample.raw_obs 1 0), ee, n)
    /\ process_raw_obs Sample.forward_kinematics Sample.sin Sample.cos a
         (reset a Sample.state) Sample.no_noise (Sample.raw_obs 1 0)
       = Ok (o, st')
    /\ (fst (puck_pos_xy_norm n) < 0 ->
        hd 0 o = np.clip (0 / MAX_TIME_UNTIL_PENALTY_S) (-1) 1
        /\ 0 <= hd 0 o <= 1
        /\ penalty_timer st' = 0 + (1 # 50))
    /\ (0 <= fst (puck_pos_xy_norm n) ->
        hd 0 o == -1 /\ penalty_timer st' = 0)
    /\ 0 <= penalty_timer st'
    /\ stacks_inv S2 st'.
Proof.
  intro a.
  apply (unsigned_penalty_entry Sample.forward_kinematics Sample.sin
           Sample.cos a (reset a Sample.state) Sample.no_noise
           (Sample.raw_obs 1 0)).
  - reflexivity.
  - constructor; [qcompute | qcompute | repeat constructor].
  - repeat constructor.
  - cbn. repeat split; apply Nat.le_0_l.
  - qcompute.
  - qcompute.
Defined.





(** ** Raw observations of the wrong shape *)

Lemma normalize_clip_joints_mismatch (q lo hi : list Q) :
  Forall2 Qlt lo hi -> length q <> length lo ->
  normalize_clip_joints q (lo, hi) = Err ValueError.
Proof.
  unfold normalize_clip_joints. cbn [fst snd].
  intros H Hq.
  rewrite zip_with_pair_ok by (eapply Forall2_length; eassumption).
  cbn [bind]. revert q Hq.
  induction H as [|l h lo hi Hlt _ IH]; intros q Hq.
  - destruct q; [contradiction|reflexivity].
  - destruct q as [|v q]; [reflexivity|].
    simpl in Hq. specialize (IH q (fun E => Hq (f_equal S E))).
    simpl. rewrite normalize_ok by lra. cbn [bind].
    rewrite IH. reflexivity.
Qed.

(** X8. What [process_raw_obs] does with a raw observation of the wrong
    shape, on an otherwise well-formed table.  When the number of joint
    positions differs from the number of joint limits the normalisation
    cannot pair them up (neither being a single value, which would be
    repeated) and the call fails with a ValueError, in every scheme.
    When the two agree but are not seven, schemes 6 and 7 build a vector
    whose length is not the declared one and the shape assertion fails on
    every tick of an episode. *)
Theorem wrong_joint_count_is_refused
    (forward_kinematics : list Q -> vec3) (np_sin np_cos : Q -> Q)
    (a : Agent) (st : State) (rng : Rng) (obs : RawObs) :
  wf_env (env_info a) ->
  (length (get_joint_pos obs)
   <> length (fst (robot_joint_pos_limit (env_info a))) ->
   length (get_joint_pos obs) <> 1%nat ->
   length (fst (robot_joint_pos_limit (env_info a))) <> 1%nat ->
   process_raw_obs forward_kinematics np_sin np_cos a st rng obs
   = Err ValueError)
  /\ (wf_obs (env_info a) obs ->
      scheme a = S6 \/ scheme a = S7 ->
      length (get_joint_pos obs) <> 7%nat ->
      stacks_inv (scheme a) st ->
      process_raw_obs forward_kinematics np_sin np_cos a st rng obs
      = Err AssertionError).
Proof.
  intro He. split.
  - intros Hq _ _. unfold process_raw_obs, normalize_obs.
    destruct (robot_joint_pos_limit (env_info a)) as [lo hi] eqn:Lim.
    rewrite normalize_clip_joints_mismatch; [reflexivity| |exact Hq].
    pose proof (wf_joint_pos_limit _ He) as W. now rewrite Lim in W.
  - intros Hobs Hs Hq Inv.
    destruct (normalize_obs_ok any any_clip forward_kinematics np_sin np_cos
                (fun _ => I) (fun _ => I) a He rng obs Hobs)
      as (ee & n & En & Bn & Jn & Ln & _).
    destruct (encode_ok any any_clip a n
                (set_current st (get_joint_pos obs) ee (ee_pos_xy_norm n)) rng
                Inv (stacks_bounded_any _ _) Bn Jn) as (o & st' & Ee & Enc).
    unfold process_raw_obs. rewrite En. cbn [bind]. rewrite Ee. cbn [bind].
    destruct Enc as (_ & _ & _ & L & _).
    replace (Nat.eqb (length o) (observation_space (scheme a))) with false;
      [reflexivity|].
    symmetry. apply Nat.eqb_neq. rewrite L, Ln.
    unfold encoded_length, observation_space.
    destruct Hs as [-> | ->]; simpl; lia.
Qed.

Lemma wrong_joint_count_is_refused_witness :
  process_raw_obs Sample.forward_kinematics Sample.sin Sample.cos
    (Sample.agent S2 false) (reset (Sample.agent S2 false) Sample.state)
    Sample.no_noise
    {| get_joint_pos := [0; 0; 0];
       get_puck_pos := (2, 0, 0);
       get_opponent_ee_pos := (25 # 10, 0, 0) |}
  = Err ValueError.
Proof.
  apply (proj1 (wrong_joint_count_is_refused Sample.forward_kinematics
                  Sample.sin Sample.cos (Sample.agent S2 false)
                  (reset (Sample.agent S2 false) Sample.state) Sample.no_noise
                  {| get_joint_pos := [0; 0; 0];
                     get_puck_pos := (2, 0, 0);
                     get_opponent_ee_pos := (25 # 10, 0, 0) |}
                  ltac:(constructor;
                        [qcompute | qcompute | repeat constructor])));
    discriminate.
Defined.

(** * Further properties of the decoder *)

(** ** The decoder and the limits of the robot *)




(** ** The target of the decoder *)





(** ** An arm that is already at its target *)

Lemma existsb_outside_still (v lo hi : list Q) :
  Forall (fun x => x == 0) v ->
  Forall (fun l => l < 0) lo -> Forall (fun h => 0 < h) hi ->
  existsb outside_vel_limit (combine v (combine lo hi)) = false.
Proof.
  intros Hv Hlo Hhi.
  pose proof (combine_signed_limits v lo hi Hlo Hhi) as S.
  revert lo hi S Hlo Hhi.
  induction Hv as [|x v Hx Hv IH]; intros lo hi S Hlo Hhi; [reflexivity|].
  destruct lo as [|l lo]; [reflexivity|].
  destruct hi as [|h hi]; [reflexivity|].
  cbn [combine existsb] in *.
  inversion S; subst. inversion Hlo; subst. inversion Hhi; subst.
  rewrite (still_joint_inside (x, (l, h))) by assumption.
  now apply IH.
Qed.

Lemma spec_joint_vel_still (w row disp : vec3) (dt : Q) :
  fst (fst disp) == 0 -> snd (fst disp) == 0 -> snd disp == 0 ->
  spec_joint_vel w row disp dt == 0.
Proof.
  destruct w as [[w0 w1] w2], row as [[p0 p1] p2], disp as [[d0 d1] d2].
  cbn [fst snd spec_joint_vel]. intros -> -> ->.
  unfold Qdiv. ring.
Qed.

Lemma integrate_still (dt : Q) (q v : list Q) :
  length v = length q -> Forall (fun x => x == 0) v ->
  Forall2 Qeq (map (fun qv => fst qv + dt * snd qv) (combine q v)) q.
Proof.
  revert v. induction q as [|x q IH]; intros [|y v] L Hv; try discriminate.
  - constructor.
  - simpl. inversion Hv; subst. constructor.
    + cbn [fst snd]. rewrite H1. ring.
    + apply IH; [simpl in L; lia|assumption].
Qed.

(** The program agrees at the sample input below, whose numbers it
    computes without rounding: in binary64 the velocities are zero and the
    joint positions are the current ones. *)
Lemma binary64_on_target_stays :
  exists st',
    Binary64.process_raw_act Binary64.jacobian Binary64.pinv Binary64.svd
      Binary64.dyadic_agent Binary64.on_target (0, 0)%float (-0.5, 0)%float
    = Ok (repeat 0%float 7, repeat 0%float 7, st').
Proof. eexists. vm_compute. reflexivity. Qed.

(** X11. An arm that is already where it is asked to be.  For an arm that
    can be decoded for (full-rank Jacobian, positive tolerance, non-zero time
    step, limits that enclose zero, one per joint): when the target of
    [process_raw_act] coincides with the current end-effector position in
    all three coordinates, every velocity the inverse Jacobian proposes is
    zero, the limiter rescales nothing and returns them as they are, and the
    returned joint positions are the current ones. *)
Theorem no_displacement_no_motion
    (jacobian : list Q -> list (list Q))
    (np_linalg_pinv : list (list Q) -> list vec3)
    (np_linalg_svd : list (list Q) -> vec3)
    (a : Agent) (st : State) (rng : Rng) (action : vec2) :
  decodable jacobian np_linalg_pinv np_linalg_svd a st ->
  let target := target_position a rng (fst (filter_action a st action)) in
  fst (fst target) == fst (fst (current_ee_pos st)) ->
  snd (fst target) == snd (fst (current_ee_pos st)) ->
  snd target == snd (current_ee_pos st) ->
  exists joint_pos joint_vel st',
    process_raw_act jacobian np_linalg_pinv np_linalg_svd a st rng action
      = Ok ((joint_pos, joint_vel), st')
    /\ inverse_jacobian_vel jacobian np_linalg_pinv np_linalg_svd a st' target
       = Ok joint_vel
    /\ existsb outside_vel_limit
         (combine joint_vel
            (combine (fst (robot_joint_vel_limit_scaled a))
                     (snd (robot_joint_vel_limit_scaled a)))) = false
    /\ limit_joint_vel joint_vel (robot_joint_vel_limit_scaled a)
       = Ok joint_vel
    /\ length joint_vel = length (current_joint_pos st)
    /\ Forall (fun v => v == 0) joint_vel
    /\ Forall2 Qeq joint_pos (current_joint_pos st).
Proof.
  intros Dec target Hx Hy Hz.
  destruct (process_raw_act_ok jacobian np_linalg_pinv np_linalg_svd a st rng
              action Dec)
    as (proposed & jv & jp & Ep & Lp & F2 & Lim & Ljv & Jp & _ & Run).
  fold target in F2, Ep.
  destruct Dec as (_ & Llo & Lhi & Lq & Hlo & Hhi).
  assert (Z : Forall (fun v => v == 0) proposed).
  { clear - F2 Hx Hy Hz.
    induction F2 as [|v row vs rows Hv _ IH]; constructor; [|exact IH].
    rewrite Hv. apply spec_joint_vel_still.
    - destruct target as [[tx ty] tz], (current_ee_pos st) as [[cx cy] cz].
      cbn [fst snd sub3] in *. lra.
    - destruct target as [[tx ty] tz], (current_ee_pos st) as [[cx cy] cz].
      cbn [fst snd sub3] in *. lra.
    - destruct target as [[tx ty] tz], (current_ee_pos st) as [[cx cy] cz].
      cbn [fst snd sub3] in *. lra. }
  destruct (robot_joint_vel_limit_scaled a) as [lo hi]. cbn [fst snd] in *.
  destruct (limit_joint_vel_spec proposed lo hi
              ltac:(congruence) ltac:(congruence) Hlo Hhi)
    as (out & Eo & _ & Same & _).
  rewrite Lim in Eo. inversion Eo; subst out.
  pose proof (existsb_outside_still _ _ _ Z Hlo Hhi) as In.
  rewrite (Same In) in *.
  exists jp, proposed, (snd (filter_action a st action)).
  split; [exact Run|]. split; [exact Ep|]. split; [exact In|].
  split; [exact Lim|].
  split; [congruence|].
  split; [exact Z|].
  rewrite Jp. apply integrate_still; [congruence|exact Z].
Qed.

Lemma no_displacement_no_motion_witness :
  exists joint_pos joint_vel st',
    process_raw_act Sample.jacobian Sample.pinv Sample.svd
      Scenario.dyadic_agent Scenario.on_target Sample.no_noise (- (1 # 2), 0)
    = Ok ((joint_pos, joint_vel), st')
    /\ Forall (fun v => v == 0) joint_vel.
Proof.
  destruct (no_displacement_no_motion Sample.jacobian Sample.pinv Sample.svd
              Scenario.dyadic_agent Scenario.on_target Sample.no_noise
              (- (1 # 2), 0))
    as (jp & jv & st' & Run & _ & _ & _ & _ & Z & _).
  - sample_decodable.
  - qcompute.
  - qcompute.
  - qcompute.
  - exists jp, jv, st'. split; [exact Run|exact Z].
Defined.

(** ** One control step, end to end *)







(** * Further properties of the reward shapers *)

(** ** The bounce point of the hit reward *)

(** X13. The bounce point of [HitReward.__call__], for a puck on a table
    whose effective half width is positive.  The point is computed (no zero
    divisor); it lies on the side wall of the puck's half, at the effective
    half width; it obeys the mirror law the comment in the source asks for,
    incoming angle equal to outgoing angle: the x-distances from the puck
    and to the goal are in the ratio of the y-distances to the wall; and it
    lies between the puck and the goal along x. *)
Theorem side_point_mirrors_the_shot (m : Mdp) :
  let px := fst (fst (puck_pos m)) in
  let py := snd (fst (puck_pos m)) in
  let eff := HitReward.effective_width m in
  let gx := fst HitReward.goal in
  let gy := snd HitReward.goal in
  0 < eff -> Qabs py <= eff ->
  exists w s,
    HitReward.side_point m = Ok (w, s)
    /\ (0 <= py -> s == eff) /\ (py < 0 -> s == - eff)
    /\ (w - px) * (eff - gy) == (gx - w) * (eff - Qabs py)
    /\ (px <= gx -> px <= w <= gx)
    /\ (gx <= px -> gx <= w <= px).
Proof.
  intros px py eff gx gy. subst px py eff gx gy.
  unfold HitReward.side_point.
  generalize (HitReward.effective_width m). intro eff.
  destruct (puck_pos m) as [[px py] yaw]. cbn [fst snd HitReward.goal].
  intros He Hy.
  pose proof (Qabs_nonneg py) as Ha.
  set (ay := Qabs py) in *.
  assert (D : ~ ay + 0 - 2 * eff == 0) by lra.
  rewrite div_ok by exact D. cbn [bind].
  set (w := (ay * (98 # 100) + 0 * px - eff * px - eff * (98 # 100))
            / (ay + 0 - 2 * eff)).
  assert (W : w * (2 * eff - ay) == (98 # 100) * (eff - ay) + px * eff)
    by (subst w; field; lra).
  exists w, (np.copysign eff py).
  split; [reflexivity|].
  assert (Ae : Qabs eff == eff) by (apply Qabs_pos; lra).
  split.
  { intro P. unfold np.copysign.
    replace (np.ltb py 0) with false by (symmetry; apply ltb_false; lra).
    exact Ae. }
  split.
  { intro N. unfold np.copysign.
    replace (np.ltb py 0) with true by (symmetry; apply ltb_true; lra).
    now rewrite Ae. }
  split; [nra|].
  split; intro O; split; nra.
Qed.

Lemma side_point_mirrors_the_shot_witness :
  exists w s,
    HitReward.side_point
      {| mdp_dt := 1 # 50; mdp_table_length := 1948 # 1000;
         mdp_table_width := 1038 # 1000; mdp_goal_width := 25 # 100;
         mdp_puck_radius := 3165 # 100000; mdp_time := 30;
         puck_pos := (- (1 # 2), 1 # 10, 0); puck_vel := (0, 0, 0) |}
    = Ok (w, s)
    /\ - (1 # 2) <= w <= 98 # 100.
Proof.
  destruct (side_point_mirrors_the_shot
              {| mdp_dt := 1 # 50; mdp_table_length := 1948 # 1000;
                 mdp_table_width := 1038 # 1000; mdp_goal_width := 25 # 100;
                 mdp_puck_radius := 3165 # 100000; mdp_time := 30;
                 puck_pos := (- (1 # 2), 1 # 10, 0); puck_vel := (0, 0, 0) |})
    as (w & s & E & _ & _ & _ & B & _).
  - qcompute.
  - qcompute.
  - exists w, s. split; [exact E|]. apply B. qcompute.
Defined.

(** ** The ranges of the shaped rewards *)

Lemma clip_01 (x : Q) : 0 <= np.clip x 0 1 <= 1.
Proof.
  unfold np.clip.
  destruct (Q.max_spec x 0) as [[? ->] | [? ->]];
    destruct (Q.min_spec 1 0) as [[? E] | [? E]];
    destruct (Q.min_spec 1 x) as [[? F] | [? F]];
    try rewrite E; try rewrite F; split; lra.
Qed.

Lemma max_01 (x y : Q) : 0 <= x <= 1 -> 0 <= y <= 1 -> 0 <= Qmax x y <= 1.
Proof.
  intros. destruct (Q.max_spec x y) as [[? ->] | [? ->]]; assumption.
Qed.

Lemma ok_pair_inv {A B : Type} (a a' : A) (b b' : B) :
  @Ok (A * B) (a, b) = Ok (a', b') -> a = a' /\ b = b'.
Proof. intro H. inversion H. auto. Qed.

Lemma norm1_nonneg (v : list Q) : 0 <= Scenario.norm1 v.
Proof.
  induction v as [|x v IH]; simpl; [lra|].
  pose proof (Qabs_nonneg x). lra.
Qed.

Lemma joint_deviation_nonneg (np_linalg_norm : list Q -> Q)
    (i : RewardInput) (dev : Q) :
  (forall v, 0 <= np_linalg_norm v) ->
  joint_deviation np_linalg_norm i = Ok dev -> 0 <= dev.
Proof.
  intro Hn. unfold joint_deviation.
  destruct (np.zip_with _ _ _) as [d|]; [|discriminate].
  cbn [bind]. intro H. inversion H; subst. apply Hn.
Qed.

Section RewardRanges.

Variable np_linalg_norm : list Q -> Q.
Hypothesis norm_nonneg : forall v, 0 <= np_linalg_norm v.

(** X14. The values of [HitReward.__call__].  On an episode boundary
    (absorbing, or less than two steps into the episode) the call always
    returns, whatever the norms and the joint arrays are: 50 when the puck
    is past the opponent's end of the table within the goal width, 0
    otherwise, and the contact flag is cleared.  Within an episode the flag
    is the old one or the contact of this step; before the first contact a
    returned reward lies between [-dist/2 - 1/2] and [-dist/2], where
    [dist] is the distance between mallet and puck, so it is never
    positive; after the contact it is at most 3/2. *)
Theorem hit_reward_ranges (has_hit : bool) (i : RewardInput)
    (absorbing : bool) :
  let m := mdp i in
  let px := fst (fst (puck_pos m)) in
  let py := snd (fst (puck_pos m)) in
  let ee := xy (mdp_ee_pos i) in
  let dist := np_linalg_norm [px - fst ee; py - snd ee] in
  (episode_boundary m absorbing = true ->
   exists r,
     HitReward__call__ np_linalg_norm has_hit i absorbing = Ok (r, false)
     /\ (mdp_table_length m / 2 < px /\ Qabs py < mdp_goal_width m / 2 ->
         r = 50)
     /\ (~ (mdp_table_length m / 2 < px /\ Qabs py < mdp_goal_width m / 2) ->
         r = 0))
  /\ (episode_boundary m absorbing = false ->
      forall r h,
        HitReward__call__ np_linalg_norm has_hit i absorbing = Ok (r, h) ->
        h = has_hit || _has_hit np_linalg_norm i
        /\ (h = false -> - dist / 2 - (1 # 2) <= r <= - dist / 2 /\ r <= 0)
        /\ (h = true -> r <= 3 # 2)).
Proof.
  intros m px py ee dist. subst m px py ee dist.
  unfold HitReward__call__.
  destruct (puck_pos (mdp i)) as [[px py] yaw].
  destruct (puck_vel (mdp i)) as [[vx vy] vyaw]. cbn [fst snd].
  assert (F : (if negb has_hit then _has_hit np_linalg_norm i else has_hit)
              = has_hit || _has_hit np_linalg_norm i)
    by (destruct has_hit; reflexivity).
  rewrite F. clear F.
  split.
  - intros B. rewrite B.
    destruct (np.ltb 0 (px - mdp_table_length (mdp i) / 2)
              && np.ltb (Qabs py - mdp_goal_width (mdp i) / 2) 0) eqn:G.
    + exists 50. split; [reflexivity|]. split; [reflexivity|].
      intro N. exfalso. apply N.
      apply andb_prop in G. destruct G as [G1 G2]. bools. split; lra.
    + exists 0. split; [reflexivity|]. split; [|reflexivity].
      intros [G1 G2]. exfalso.
      apply andb_false_iff in G. destruct G as [G | G]; bools; lra.
  - intros B r h. rewrite B.
    destruct (has_hit || _has_hit np_linalg_norm i) eqn:Hh; cbn [negb].
    + (* after the contact *)
      destruct (joint_deviation np_linalg_norm i) as [dev|] eqn:Dev;
        [|discriminate].
      cbn [bind]. intro H. inversion H; subst. clear H.
      split; [reflexivity|]. split; [discriminate|]. intros _.
      pose proof (joint_deviation_nonneg _ _ _ norm_nonneg Dev) as Dn.
      pose proof (Qabs_nonneg py) as Ay.
      destruct (Q.min_spec 1 ((3 # 10) * Qmax vx 0)) as [[L M] | [L M]];
        destruct (np.ltb (7 # 10) px && np.ltb (1 # 10) vx);
        rewrite M; lra.
    + (* before the first contact *)
      destruct (unit_vector np_linalg_norm HitReward.goal (px, py))
        as [vg|]; [|discriminate].
      cbn [bind].
      destruct (HitReward.side_point (mdp i)) as [sp|]; [|discriminate].
      cbn [bind].
      destruct (unit_vector np_linalg_norm sp (px, py)) as [vs|];
        [|discriminate].
      cbn [bind].
      destruct (np.div _ _) as [ux|]; [|discriminate]. cbn [bind].
      destruct (np.div _ _) as [uy|]; [|discriminate]. cbn [bind].
      intro H. inversion H; subst. clear H.
      split; [reflexivity|]. split; [|discriminate]. intros _.
      match goal with
      | |- context [Qmax ?x ?y] =>
          pose proof (max_01 x y (clip_01 _) (clip_01 _)) as C;
          generalize dependent (Qmax x y)
      end.
      intros c C.
      pose proof (norm_nonneg [px - fst (xy (mdp_ee_pos i));
                               py - snd (xy (mdp_ee_pos i))]) as Dn.
      split; [split|]; qlra.
Qed.

(** X15. The values of [DefendReward.__call__] when it returns.  The contact
    flag restarts from the contact of this step on an episode boundary and
    otherwise keeps what it had or gains the contact of this step.  An
    absorbing step pays at most 150, and at most -100 when the puck is
    behind the robot's end of the table within the goal width; any other
    step pays at most 3/10, and at most -1 when the puck is within 0.85 of
    the robot's end or moves towards the opponent faster than 0.3. *)
Theorem defend_reward_ranges (has_hit : bool) (i : RewardInput)
    (absorbing : bool) (r : Q) (h : bool) :
  let m := mdp i in
  let px := fst (fst (puck_pos m)) in
  let py := snd (fst (puck_pos m)) in
  let vx := fst (fst (puck_vel m)) in
  DefendReward__call__ np_linalg_norm has_hit i absorbing = Ok (r, h) ->
  h = (if episode_boundary m absorbing then _has_hit np_linalg_norm i
       else has_hit || _has_hit np_linalg_norm i)
  /\ (absorbing = true ->
      r <= 150
      /\ (px < - (mdp_table_length m / 2) /\ Qabs py < mdp_goal_width m / 2 ->
          r <= -100))
  /\ (absorbing = false ->
      r <= 3 # 10
      /\ (px <= - (85 # 100) \/ 3 # 10 < vx -> r <= -1)).
Proof.
  intros m px py vx. subst m px py vx.
  unfold DefendReward__call__.
  destruct (puck_pos (mdp i)) as [[px py] yaw].
  destruct (puck_vel (mdp i)) as [[vx vy] vyaw]. cbn [fst snd].
  destruct (joint_deviation np_linalg_norm i) as [dev|] eqn:Dev;
    [|discriminate].
  cbn [bind]. intro H. inversion H; subst. clear H.
  pose proof (joint_deviation_nonneg _ _ _ norm_nonneg Dev) as Dn.
  split.
  { destruct (episode_boundary (mdp i) absorbing); [reflexivity|].
    destruct has_hit; reflexivity. }
  split; intro A; rewrite A.
  - destruct (np.ltb (px + mdp_table_length (mdp i) / 2) 0
              && np.ltb (Qabs py - mdp_goal_width (mdp i) / 2) 0) eqn:G.
    + split; [lra|]. intros _. lra.
    + destruct (np.ltb (np_linalg_norm [vx]) (1 # 10)).
      * split; [lra|]. intros [G1 G2]. exfalso.
        apply andb_false_iff in G. destruct G as [G | G]; bools; lra.
      * split; [lra|]. intros [G1 G2]. exfalso.
        apply andb_false_iff in G. destruct G as [G | G]; bools; lra.
  - destruct (Qle_bool px (- (85 # 100)) || np.ltb (3 # 10) vx) eqn:W.
    + split; [lra|]. intros _. lra.
    + apply orb_false_iff in W. destruct W as [W1 W2]. bools.
      destruct (np.ltb (- (2 # 10)) vx) eqn:V.
      * pose proof (Qabs_nonneg vx). split; [lra|]. intros [C | C]; lra.
      * match goal with
        | |- context [np_linalg_norm ?v] => pose proof (norm_nonneg v)
        end.
        split; [lra|]. intros [C | C]; lra.
Qed.

(** X16. The values of [PrepareReward.__call__].  An absorbing step always
    returns, with 10 when the puck rests in the target zone
    ([|y| < 0.3] and [-0.8 < x < -0.2]) and -10 otherwise, and the flag is
    the contact of this step.  On any other step a returned reward lies
    between [-dist/2 - 1/2] and [-dist/2] before the first contact, and is
    at most 45/100 after it. *)
Theorem prepare_reward_ranges (has_hit : bool) (i : RewardInput)
    (absorbing : bool) :
  let m := mdp i in
  let px := fst (fst (puck_pos m)) in
  let py := snd (fst (puck_pos m)) in
  let ee := xy (mdp_ee_pos i) in
  let dist := np_linalg_norm [px - fst ee; py - snd ee] in
  let in_zone := Qabs py < 3 # 10 /\ - (8 # 10) < px /\ px < - (2 # 10) in
  (absorbing = true ->
   exists r,
     PrepareReward__call__ np_linalg_norm has_hit i absorbing
       = Ok (r, _has_hit np_linalg_norm i)
     /\ (in_zone -> r = 10) /\ (~ in_zone -> r = -10))
  /\ (absorbing = false ->
      forall r h,
        PrepareReward__call__ np_linalg_norm has_hit i absorbing = Ok (r, h) ->
        h = (if episode_boundary m absorbing then _has_hit np_linalg_norm i
             else has_hit || _has_hit np_linalg_norm i)
        /\ (h = false -> - dist / 2 - (1 # 2) <= r <= - dist / 2 /\ r <= 0)
        /\ (h = true -> r <= 45 # 100)).
Proof.
  intros m px py ee dist in_zone. subst m px py ee dist in_zone.
  unfold PrepareReward__call__.
  destruct (puck_pos (mdp i)) as [[px py] yaw]. cbn [fst snd].
  split; intro A; rewrite A.
  - unfold episode_boundary. cbn [orb andb negb].
    replace (if negb false then _has_hit np_linalg_norm i else false)
      with (_has_hit np_linalg_norm i) by reflexivity.
    destruct (np.ltb (Qabs py) (3 # 10)
              && (np.ltb (- (8 # 10)) px && np.ltb px (- (2 # 10)))) eqn:Z.
    + exists 10. split; [reflexivity|]. split; [reflexivity|].
      intro N. exfalso. apply N.
      apply andb_prop in Z. destruct Z as [Z1 Z2].
      apply andb_prop in Z2. destruct Z2 as [Z2 Z3]. bools. auto.
    + exists (-10). split; [reflexivity|]. split; [|reflexivity].
      intros (Z1 & Z2 & Z3). exfalso.
      apply andb_false_iff in Z. destruct Z as [Z | Z];
        [|apply andb_false_iff in Z; destruct Z as [Z | Z]]; bools; lra.
  - intros r h. cbn [andb].
    set (hh := if negb (if episode_boundary (mdp i) false then false
                        else has_hit)
               then _has_hit np_linalg_norm i
               else (if episode_boundary (mdp i) false then false
                     else has_hit)).
    assert (F : hh = (if episode_boundary (mdp i) false
                      then _has_hit np_linalg_norm i
                      else has_hit || _has_hit np_linalg_norm i)).
    { subst hh. destruct (episode_boundary (mdp i) false); [reflexivity|].
      destruct has_hit; reflexivity. }
    rewrite <- F. clearbody hh. clear F.
    destruct hh; cbn [negb].
    + (* after the contact *)
      destruct (joint_deviation np_linalg_norm i) as [dev|] eqn:Dev;
        [|discriminate].
      cbn [bind]. intro H. apply ok_pair_inv in H. destruct H as [<- <-].
      split; [reflexivity|]. split; [discriminate|]. intros _.
      pose proof (joint_deviation_nonneg _ _ _ norm_nonneg Dev) as Dn.
      pose proof (Qabs_nonneg py) as Ay.
      destruct ((np.ltb (- (5 # 10)) px && np.ltb px (- (2 # 10)))
                && np.ltb py (3 # 10)) eqn:Z; [|lra].
      apply andb_prop in Z. destruct Z as [Z _].
      apply andb_prop in Z. destruct Z as [Z1 Z2]. bools.
      assert (Ax : Qabs (- (5 # 10) - px) == px + (5 # 10)).
      { rewrite Qabs_neg by lra. ring. }
      assert (C : np.clip (Qabs (- (5 # 10) - px) / 2) 0 1 <= 15 # 100).
      { unfold np.clip.
        destruct (Q.min_spec 1 (Qmax (Qabs (- (5 # 10) - px) / 2) 0))
          as [[L M] | [L M]]; rewrite M;
          destruct (Q.max_spec (Qabs (- (5 # 10) - px) / 2) 0)
            as [[L' M'] | [L' M']]; rewrite M' in *; qlra. }
      revert C. generalize (np.clip (Qabs (- (5 # 10) - px) / 2) 0 1).
      intros c C. lra.
    + (* before the first contact *)
      destruct (np.div _ _) as [ux|]; [|discriminate]. cbn [bind].
      destruct (np.div _ _) as [uy|]; [|discriminate]. cbn [bind].
      intro H. apply ok_pair_inv in H. destruct H as [<- <-].
      split; [reflexivity|]. split; [|discriminate]. intros _.
      pose proof (norm_nonneg [px - fst (xy (mdp_ee_pos i));
                               py - snd (xy (mdp_ee_pos i))]) as Dn.
      destruct (np.ltb (- (65 # 100)) px).
      * match goal with
        | |- context [np.clip ?x 0 1] =>
            pose proof (clip_01 x) as C; generalize dependent (np.clip x 0 1)
        end.
        intros c C. split; [split|]; qlra.
      * match goal with
        | |- context [Qmax ?x ?y] =>
            pose proof (max_01 x y (clip_01 _) (clip_01 _)) as C;
            generalize dependent (Qmax x y)
        end.
        intros c C. split; [split|]; qlra.
Qed.

End RewardRanges.

Lemma hit_reward_ranges_witness :
  exists r,
    HitReward__call__ Scenario.norm1 false Scenario.approach false
    = Ok (r, false)
    /\ r <= 0.
Proof.
  eexists. split; [lazy; reflexivity|].
  refine (proj2 (proj1 (proj2 (proj2 (hit_reward_ranges Scenario.norm1
                                        norm1_nonneg false Scenario.approach
                                        false)
                                 eq_refl _ false _)) eq_refl)).
  vm_compute. reflexivity.
Defined.

Lemma defend_reward_ranges_witness :
  exists r,
    DefendReward__call__ Scenario.norm1 false Scenario.approach false
    = Ok (r, false)
    /\ r <= 3 # 10.
Proof.
  eexists. split; [lazy; reflexivity|].
  refine (proj1 (proj2 (proj2 (defend_reward_ranges Scenario.norm1
                                 norm1_nonneg false Scenario.approach false
                                 _ false _)) eq_refl)).
  vm_compute. reflexivity.
Defined.

Lemma prepare_reward_ranges_witness :
  exists r,
    PrepareReward__call__ Scenario.norm1 false Scenario.approach true
    = Ok (r, false)
    /\ r = 10.
Proof.
  destruct (proj1 (prepare_reward_ranges Scenario.norm1 norm1_nonneg false
                     Scenario.approach true) eq_refl)
    as (r & E & Z & _).
  exists r. split; [exact E|]. apply Z.
  split; [qcompute|]. split; qcompute.
Defined.

(** ** The possession clock of the tournament reward *)

(** A step within an episode with the puck on the side the clock is
    running for: no reward, and the clock advances by [dt]. *)
Lemma tournament_same_side_step (self : TournamentReward.t) (m : Mdp) (s : Q) :
  TournamentReward.penalty_side self = None
  \/ TournamentReward.penalty_side self = Some s ->
  np.sign (fst (fst (puck_pos m))) = s ->
  episode_boundary m false = false ->
  TournamentReward.__call__ self m false
  = Ok (0, TournamentReward.set_timer self
             (TournamentReward.penalty_timer self + mdp_dt m) (Some s)).
Proof.
  intros Side Sg B. unfold TournamentReward.__call__.
  destruct (puck_pos m) as [[px py] yaw].
  destruct (puck_vel m) as [[vx vy] vyaw]. cbn [fst snd] in *.
  unfold TournamentReward.timer_update.
  assert (E : match TournamentReward.penalty_side self with
              | Some s0 => s0
              | None => np.sign px
              end = s)
    by (destruct Side as [-> | ->]; [exact Sg|reflexivity]).
  rewrite E, Sg.
  replace (Qeq_bool s s) with true
    by (symmetry; apply Qeq_bool_iff; reflexivity).
  unfold episode_boundary in B. rewrite B. reflexivity.
Qed.

(** The same clock in binary64: the sign the code computes for a puck
    that is strictly on one side. *)
Lemma binary64_sign_on_side (negative : bool) (m : Binary64.Mdp) :
  Binary64.on_side negative m ->
  Binary64.sign (fst (fst (Binary64.puck_pos m)))
  = (if negative then -1 else 1)%float.
Proof.
  unfold Binary64.on_side, Binary64.sign. destruct negative.
  - intros ->. reflexivity.
  - intros [-> ->]. reflexivity.
Qed.

Lemma binary64_same_side_step (self : Binary64.Tournament) (negative : bool)
    (m : Binary64.Mdp) :
  Binary64.penalty_side self = None
  \/ Binary64.penalty_side self = Some (if negative then -1 else 1)%float ->
  Binary64.on_side negative m ->
  Binary64.episode_boundary m false = false ->
  Binary64.__call__ self m false
  = Ok (0%float,
        Binary64.set_timer self
          (Binary64.penalty_timer self + Binary64.mdp_dt m)%float
          (Some (if negative then -1 else 1)%float)).
Proof.
  intros Side On B. unfold Binary64.__call__.
  pose proof (binary64_sign_on_side negative m On) as Sg.
  destruct (Binary64.puck_pos m) as [[px py] yaw].
  destruct (Binary64.puck_vel m) as [[vx vy] vyaw]. cbn [fst snd] in *.
  unfold Binary64.timer_update. rewrite Sg, B.
  destruct Side as [-> | ->]; destruct negative; reflexivity.
Qed.

Lemma binary64_boundary_step (self : Binary64.Tournament) (negative : bool)
    (m : Binary64.Mdp) (absorbing : bool) :
  Binary64.penalty_side self = None
  \/ Binary64.penalty_side self = Some (if negative then -1 else 1)%float ->
  Binary64.on_side negative m -> Binary64.in_open_play m ->
  Binary64.episode_boundary m absorbing = true ->
  Binary64.__call__ self m absorbing
  = Ok (if PrimFloat.ltb Binary64._penalty_threshold
             (Binary64.penalty_timer self + Binary64.mdp_dt m)%float
        then if negative then Binary64._reward_agent_faul self
             else Binary64._reward_opponent_faul self
        else 0%float,
        Binary64.set_timer self 0%float None).
Proof.
  intros Side On Play B. unfold Binary64.__call__.
  pose proof (binary64_sign_on_side negative m On) as Sg.
  unfold Binary64.in_open_play in Play.
  destruct (Binary64.puck_pos m) as [[px py] yaw].
  destruct (Binary64.puck_vel m) as [[vx vy] vyaw]. cbn [fst snd] in *.
  destruct Play as (Far & Near & E1 & E2).
  unfold Binary64.timer_update. rewrite Sg, B.
  assert (T : (if PrimFloat.eqb (if negative then -1 else 1)%float
                    match Binary64.penalty_side self with
                    | Some s => s
                    | None => (if negative then -1 else 1)%float
                    end
               then (match Binary64.penalty_side self with
                     | Some s => s
                     | None => (if negative then -1 else 1)%float
                     end,
                     (Binary64.penalty_timer self + Binary64.mdp_dt m)%float)
               else ((match Binary64.penalty_side self with
                      | Some s => s
                      | None => (if negative then -1 else 1)%float
                      end * -1)%float, 0%float))
              = ((if negative then -1 else 1)%float,
                 (Binary64.penalty_timer self + Binary64.mdp_dt m)%float))
    by (destruct Side as [-> | ->]; destruct negative; reflexivity).
  rewrite T. clear T.
  unfold Binary64.penalty_checking, Binary64.puck_stuck,
    Binary64.goal_checking.
  rewrite Far, Near, E1, E2, andb_true_r. cbn [andb].
  destruct (PrimFloat.ltb Binary64._penalty_threshold
              (Binary64.penalty_timer self + Binary64.mdp_dt m)%float).
  - destruct negative; cbn [bind];
      destruct (PrimFloat.leb _ 0%float); reflexivity.
  - cbn [bind]. destruct (PrimFloat.leb _ 0%float); reflexivity.
Qed.

(** X17. The possession clock of [TournamentReward] as the program keeps
    it, in binary64, over the calls of one episode.  Start with no side
    set, as [__init__] and every episode boundary leave it; let the puck stay
    strictly on one side of the centre line for some steps within the
    episode and then for one more step that ends the episode, the puck at
    least 0.15 from the centre line and not past an end of the table.  The
    steps within the episode pay 0.  The clock is the sum of the time
    steps of all these calls, added one after the other to the timer in
    floating point; the last step pays the fault reward exactly when that
    sum exceeds 11.25, the agent's when the puck is on the negative side
    and the opponent's when it is on the positive side, and 0 otherwise.
    The clock is at rest again afterwards. *)
Theorem fault_follows_the_clock
    (self : Binary64.Tournament) (negative : bool)
    (steps : list Binary64.Mdp) (last : Binary64.Mdp) (absorbing : bool) :
  let clock :=
    fold_left PrimFloat.add (map Binary64.mdp_dt (steps ++ [last]))
      (Binary64.penalty_timer self) in
  Binary64.penalty_side self = None ->
  Forall (fun m => Binary64.on_side negative m
                   /\ Binary64.episode_boundary m false = false) steps ->
  Binary64.on_side negative last -> Binary64.in_open_play last ->
  Binary64.episode_boundary last absorbing = true ->
  Binary64.tournament_run self
    (map (fun m => (m, false)) steps ++ [(last, absorbing)])
  = Ok (repeat 0%float (length steps)
          ++ [if PrimFloat.ltb Binary64._penalty_threshold clock
              then if negative then Binary64._reward_agent_faul self
                   else Binary64._reward_opponent_faul self
              else 0%float],
        Binary64.set_timer self 0%float None).
Proof.
  intros clock Side Steps On Play B. subst clock.
  assert (S0 : Binary64.penalty_side self = None
               \/ Binary64.penalty_side self
                  = Some (if negative then -1 else 1)%float) by now left.
  clear Side. revert self S0.
  induction Steps as [|m steps [Om Bm] _ IH]; intros self Side.
  - cbn [map app Binary64.tournament_run length repeat fold_left].
    rewrite (binary64_boundary_step self negative last absorbing Side On Play
               B).
    reflexivity.
  - cbn [map app Binary64.tournament_run length repeat fold_left].
    rewrite (binary64_same_side_step self negative m Side Om Bm).
    cbn [bind].
    rewrite (IH (Binary64.set_timer self
                   (Binary64.penalty_timer self + Binary64.mdp_dt m)%float
                   (Some (if negative then -1 else 1)%float))
                (or_intror eq_refl)).
    reflexivity.
Qed.

Lemma fault_follows_the_clock_witness :
  let self :=
    Binary64.__init__ 1%float (-1)%float (1 / 3)%float (-1 / 3)%float
      0%float in
  let m := Binary64.table 0.05%float 2%float (-0.5)%float in
  Binary64.tournament_run self
    (map (fun m => (m, false)) (repeat m 224) ++ [(m, true)])
  = Ok (repeat 0%float (length (repeat m 224)) ++ [(-1 / 3)%float],
        Binary64.set_timer self 0%float None).
Proof.
  intros self m.
  rewrite (fault_follows_the_clock self true (repeat m 224) m true).
  - reflexivity.
  - reflexivity.
  - apply Forall_forall. intros x Hx. apply repeat_spec in Hx. subst x.
    split; reflexivity.
  - reflexivity.
  - repeat split.
  - reflexivity.
Defined.

(** ** Goals in the tournament reward *)

Lemma tournament_boundary (self : TournamentReward.t) (m : Mdp)
    (absorbing : bool) :
  episode_boundary m absorbing = true ->
  exists r,
    TournamentReward.__call__ self m absorbing
    = Ok (TournamentReward.goal_checking self m
            (fst (fst (puck_pos m))) (snd (fst (puck_pos m)))
            (TournamentReward.puck_stuck self
               (fst (fst (puck_pos m))) (fst (fst (puck_vel m))) r),
          TournamentReward.set_timer self 0 None).
Proof.
  intro B. unfold TournamentReward.__call__.
  destruct (puck_pos m) as [[px py] yaw].
  destruct (puck_vel m) as [[vx vy] vyaw]. cbn [fst snd].
  destruct (penalty_checking_decided self (mdp_dt m) px 0) as [r' E].
  destruct (TournamentReward.timer_update self (mdp_dt m) px) as [side timer].
  unfold episode_boundary in B. rewrite B.
  cbn [fst snd] in E. rewrite E. cbn [bind]. eauto.
Qed.

(** X18. A goal decides the tournament reward.  On a step that ends an
    episode with the puck within the goal width, the reward is the one for
    scoring when the puck is past the opponent's end of the table and the
    one for conceding when it is past the robot's end, whatever the
    possession clock shows and however slow the puck is: neither a fault nor
    a stuck puck changes it.  The call does not raise, and the clock is at
    rest afterwards. *)
Theorem goal_decides_tournament_reward
    (self : TournamentReward.t) (m : Mdp) (absorbing : bool) :
  let px := fst (fst (puck_pos m)) in
  let py := snd (fst (puck_pos m)) in
  episode_boundary m absorbing = true ->
  0 <= mdp_table_length m ->
  Qabs py <= mdp_goal_width m / 2 ->
  (mdp_table_length m / 2 < px ->
   TournamentReward.__call__ self m absorbing
   = Ok (TournamentReward._reward_agent_score_goal self,
         TournamentReward.set_timer self 0 None))
  /\ (px < - (mdp_table_length m / 2) ->
      TournamentReward.__call__ self m absorbing
      = Ok (TournamentReward._reward_agent_receive_goal self,
            TournamentReward.set_timer self 0 None)).
Proof.
  intros px py B L G.
  destruct (tournament_boundary self m absorbing B) as [r E].
  rewrite E. fold px. fold py. clearbody px py.
  unfold TournamentReward.goal_checking.
  replace (Qle_bool (Qabs py - mdp_goal_width m / 2) 0) with true
    by (symmetry; apply Qle_bool_iff; lra).
  split; intro P.
  - replace (np.ltb (mdp_table_length m / 2) px) with true
      by (symmetry; apply ltb_true; exact P).
    reflexivity.
  - replace (np.ltb (mdp_table_length m / 2) px) with false
      by (symmetry; apply ltb_false; qlra).
    replace (np.ltb px (- mdp_table_length m / 2)) with true
      by (symmetry; apply ltb_true; qlra).
    reflexivity.
Qed.

Lemma goal_decides_tournament_reward_witness :
  let self :=
    TournamentReward.set_timer
      (TournamentReward.__init__ 1 (-1) (1 # 3) (- (1 # 3)) 0)
      14 (Some 1) in
  let m :=
    {| mdp_dt := 1 # 50; mdp_table_length := 1948 # 1000;
       mdp_table_width := 1038 # 1000; mdp_goal_width := 25 # 100;
       mdp_puck_radius := 3165 # 100000; mdp_time := 20;
       puck_pos := (1, 1 # 10, 0); puck_vel := (2, 0, 0) |} in
  TournamentReward.__call__ self m true
  = Ok (1, TournamentReward.set_timer self 0 None).
Proof.
  intros self m.
  apply (proj1 (goal_decides_tournament_reward self m true eq_refl
                  ltac:(qcompute) ltac:(qcompute))).
  qcompute.
Defined.

(** ** An episode that starts on the centre line *)

Lemma sign_zero_iff (x : Q) : np.sign x == 0 -> x == 0.
Proof.
  destruct (sign_values x) as [[N S] | [[Z S] | [P S]]]; rewrite S; intro H.
  - exfalso. revert H. vm_compute. discriminate.
  - exact Z.
  - exfalso. revert H. vm_compute. discriminate.
Qed.

(** With the side at zero the clock never reports a fault. *)
Lemma zero_side_boundary (self : TournamentReward.t) (m : Mdp)
    (absorbing : bool) (t z : Q) :
  z == 0 -> episode_boundary m absorbing = true ->
  TournamentReward.__call__ (TournamentReward.set_timer self t (Some z)) m
    absorbing
  = Ok (TournamentReward.goal_checking self m
          (fst (fst (puck_pos m))) (snd (fst (puck_pos m)))
          (TournamentReward.puck_stuck self
             (fst (fst (puck_pos m))) (fst (fst (puck_vel m))) 0),
        TournamentReward.set_timer self 0 None).
Proof.
  intros Z B. unfold TournamentReward.__call__.
  destruct (puck_pos m) as [[px py] yaw].
  destruct (puck_vel m) as [[vx vy] vyaw]. cbn [fst snd].
  unfold TournamentReward.timer_update.
  cbn [TournamentReward.set_timer TournamentReward.penalty_side
       TournamentReward.penalty_timer].
  unfold episode_boundary in B. rewrite B.
  unfold TournamentReward.penalty_checking.
  destruct (Qeq_bool (np.sign px) z) eqn:Same.
  - apply Qeq_bool_iff in Same. rewrite Z in Same.
    apply sign_zero_iff in Same.
    replace (Qle_bool (15 # 100) (Qabs px)) with false.
    + rewrite andb_false_r. reflexivity.
    + symmetry. apply leb_false. rewrite Same. vm_compute. reflexivity.
  - replace (np.ltb TournamentReward._penalty_threshold 0) with false
      by reflexivity.
    reflexivity.
Qed.

Lemma zero_side_step (self : TournamentReward.t) (m : Mdp) (t z : Q) :
  z == 0 -> episode_boundary m false = false ->
  exists t' z',
    TournamentReward.__call__ (TournamentReward.set_timer self t (Some z)) m
      false
    = Ok (0, TournamentReward.set_timer self t' (Some z'))
    /\ z' == 0.
Proof.
  intros Z B. unfold TournamentReward.__call__.
  destruct (puck_pos m) as [[px py] yaw].
  destruct (puck_vel m) as [[vx vy] vyaw]. cbn [fst snd].
  unfold TournamentReward.timer_update.
  cbn [TournamentReward.set_timer TournamentReward.penalty_side
       TournamentReward.penalty_timer].
  unfold episode_boundary in B. rewrite B.
  destruct (Qeq_bool (np.sign px) z).
  - exists (t + mdp_dt m), z. split; [reflexivity|exact Z].
  - exists 0, (z * -1). split; [reflexivity|]. rewrite Z. reflexivity.
Qed.

Lemma zero_side_run (self : TournamentReward.t) (last : Mdp)
    (absorbing : bool) (steps : list Mdp) :
  episode_boundary last absorbing = true ->
  Forall (fun m => episode_boundary m false = false) steps ->
  forall t z, z == 0 ->
  tournament_run (TournamentReward.set_timer self t (Some z))
    (map (fun m => (m, false)) steps ++ [(last, absorbing)])
  = Ok (repeat 0 (length steps)
          ++ [TournamentReward.goal_checking self last
                (fst (fst (puck_pos last))) (snd (fst (puck_pos last)))
                (TournamentReward.puck_stuck self
                   (fst (fst (puck_pos last))) (fst (fst (puck_vel last)))
                   0)],
        TournamentReward.set_timer self 0 None).
Proof.
  intros B H. induction H as [|m steps Hm _ IH]; intros t z Z.
  - cbn [map app tournament_run length repeat].
    rewrite (zero_side_boundary self last absorbing t z Z B). reflexivity.
  - cbn [map app tournament_run length repeat].
    destruct (zero_side_step self m t z Z Hm) as (t' & z' & E & Z').
    rewrite E. cbn [bind]. rewrite (IH t' z' Z'). reflexivity.
Qed.

(** X19. An episode of the tournament reward that starts with the puck
    exactly on the centre line.  The side the clock runs for is then zero
    and stays zero whatever the puck does, so no step of the episode pays a
    fault reward: the steps within the episode pay 0, and the step that
    ends it pays what the stuck-puck and goal checks give, however long the
    puck stayed in one half. *)
Theorem centre_line_start_never_faults
    (self : TournamentReward.t) (first : Mdp) (steps : list Mdp) (last : Mdp)
    (absorbing : bool) :
  TournamentReward.penalty_side self = None ->
  fst (fst (puck_pos first)) == 0 ->
  episode_boundary first false = false ->
  Forall (fun m => episode_boundary m false = false) steps ->
  episode_boundary last absorbing = true ->
  tournament_run self
    ((first, false) :: map (fun m => (m, false)) steps ++ [(last, absorbing)])
  = Ok (repeat 0 (S (length steps))
          ++ [TournamentReward.goal_checking self last
                (fst (fst (puck_pos last))) (snd (fst (puck_pos last)))
                (TournamentReward.puck_stuck self
                   (fst (fst (puck_pos last))) (fst (fst (puck_vel last)))
                   0)],
        TournamentReward.set_timer self 0 None).
Proof.
  intros Side X B0 Steps B.
  cbn [tournament_run].
  assert (Sg : np.sign (fst (fst (puck_pos first))) = 0).
  { destruct (sign_values (fst (fst (puck_pos first))))
      as [[N S] | [[Z S] | [P S]]]; [lra|exact S|lra]. }
  rewrite (tournament_same_side_step self first 0 (or_introl Side) Sg B0).
  cbn [bind].
  rewrite (zero_side_run self last absorbing steps B Steps _ 0
             ltac:(reflexivity)).
  reflexivity.
Qed.

Lemma centre_line_start_never_faults_witness :
  let self := TournamentReward.__init__ 1 (-1) (1 # 3) (- (1 # 3)) 0 in
  let m x :=
    {| mdp_dt := 1 # 50; mdp_table_length := 1948 # 1000;
       mdp_table_width := 1038 # 1000; mdp_goal_width := 25 # 100;
       mdp_puck_radius := 3165 # 100000; mdp_time := 2;
       puck_pos := (x, 1 # 10, 0); puck_vel := (0, 0, 0) |} in
  exists rs self',
    tournament_run self
      ((m 0, false) :: map (fun m => (m, false)) (repeat (m (- (1 # 2))) 700)
         ++ [(m (- (1 # 2)), true)])
    = Ok (rs, self')
    /\ last rs 1 = 0.
Proof.
  intros self m.
  rewrite (centre_line_start_never_faults self (m 0)
             (repeat (m (- (1 # 2))) 700) (m (- (1 # 2))) true).
  - eexists. eexists. split; [reflexivity|].
    rewrite last_last. reflexivity.
  - reflexivity.
  - reflexivity.
  - reflexivity.
  - apply Forall_forall. intros x Hx. apply repeat_spec in Hx. subst x.
    reflexivity.
  - reflexivity.
Defined.

(** * Further properties of the agent *)

(** ** The layout of the observation vector *)

Lemma Forall2_Qeq_refl (l : list Q) : Forall2 Qeq l l.
Proof. induction l; constructor; [reflexivity|assumption]. Qed.

Lemma map_clip_id (l : list Q) :
  Forall in_unit l -> Forall2 Qeq (map (fun x => np.clip x (-1) 1) l) l.
Proof.
  induction 1 as [|x l Hx _ IH]; simpl; constructor;
    [now apply clip_id|assumption].
Qed.

Lemma stacks_flat_in_unit (s : Scheme) (st : State) :
  stacks_bounded in_unit s st ->
  Forall in_unit
    (flatten (stacked_obs_puck_pos st)
       ++ flatten (stacked_obs_participant_ee_pos st)
       ++ flatten (stacked_obs_opponent_ee_pos st)).
Proof.
  intros (B1 & B2 & B3 & _).
  repeat (apply Forall_app; split); now apply flatten_both.
Qed.

(** X20. The layout of the vector [process_raw_obs] returns, on a
    well-formed table during an episode whose deques hold values in
    [[-1, 1]].  After the first entry (the penalty timer) come, in schemes 6
    and 7, the normalised joint positions, and then the flattened deques of
    the state the call leaves: puck, in scheme 7 the puck's rotation,
    participant's end effector, opponent's end effector.  In schemes 2 to 4
    the final clip of the whole vector therefore changes nothing after the
    first entry. *)
Theorem observation_layout
    (forward_kinematics : list Q -> vec3) (np_sin np_cos : Q -> Q)
    (a : Agent) (st : State) (rng : Rng) (obs : RawObs) :
  (forall x, in_unit (np_sin x)) -> (forall x, in_unit (np_cos x)) ->
  wf_env (env_info a) -> obs_ok a obs ->
  stacks_inv (scheme a) st -> stacks_bounded in_unit (scheme a) st ->
  exists o st' ee n,
    normalize_obs forward_kinematics np_sin np_cos a rng obs
      = Ok (get_joint_pos obs, ee, n)
    /\ process_raw_obs forward_kinematics np_sin np_cos a st rng obs
       = Ok (o, st')
    /\ Forall2 Qeq (tl o)
         (layout (scheme a) (current_joint_pos_normalized n) st').
Proof.
  intros Hs Hc He Hobs Inv Bnd.
  destruct (process_raw_obs_ok in_unit clip_unit forward_kinematics np_sin
              np_cos Hs Hc a He st rng obs Hobs Inv Bnd)
    as (o & st' & ee & n & En & Run & Enc & _).
  exists o, st', ee, n. split; [exact En|]. split; [exact Run|].
  destruct (process_raw_obs_inv _ _ _ _ _ _ _ _ _ Run)
    as (q1 & ee1 & n1 & En1 & Ee & _).
  rewrite En in En1. inversion En1; subst q1 ee1 n1. clear En1.
  destruct (normalize_obs_ok in_unit clip_unit forward_kinematics np_sin
              np_cos Hs Hc a He rng obs (proj1 Hobs))
    as (ee2 & n2 & En2 & _ & Jn & _).
  rewrite En in En2. inversion En2; subst ee2 n2. clear En2.
  destruct Enc as (_ & B' & _).
  pose proof (stacks_flat_in_unit _ _ B') as Flat.
  clear - Ee Jn Flat.
  unfold encode in Ee. unfold layout.
  destruct (scheme a).
  - destruct (stack_by_filling _ _ _) as [st1|]; [|discriminate].
    cbn [bind] in Ee.
    destruct (penalty_timer_unsigned _ _ _) as [c t].
    apply ok_pair_inv in Ee. destruct Ee as [<- <-].
    cbn [app map tl]. now apply map_clip_id.
  - destruct (stack_by_filling _ _ _) as [st1|]; [|discriminate].
    cbn [bind] in Ee.
    destruct (update_signed_penalty _ _ _) as [c st2].
    apply ok_pair_inv in Ee. destruct Ee as [<- <-].
    cbn [app map tl]. now apply map_clip_id.
  - destruct (stack_by_filling _ _ _) as [st1|]; [|discriminate].
    cbn [bind] in Ee.
    destruct (update_signed_penalty _ _ _) as [c st2].
    apply ok_pair_inv in Ee. destruct Ee as [<- <-].
    cbn [app map tl]. now apply map_clip_id.
  - destruct (update_signed_penalty _ _ _) as [c st2].
    apply ok_pair_inv in Ee. destruct Ee as [<- <-].
    cbn [app tl]. apply Forall2_Qeq_refl.
  - cbn [set_current current_joint_pos] in Ee. rewrite Jn in Ee.
    cbn [bind] in Ee.
    destruct (update_signed_penalty _ _ _) as [c st2].
    apply ok_pair_inv in Ee. destruct Ee as [<- <-].
    cbn [app tl]. apply Forall2_Qeq_refl.
  - cbn [set_current current_joint_pos] in Ee. rewrite Jn in Ee.
    cbn [bind] in Ee.
    destruct (update_signed_penalty _ _ _) as [c st2].
    destruct (stack_scheme7 _ _ _ _) as [st3|]; [|discriminate].
    cbn [bind] in Ee.
    apply ok_pair_inv in Ee. destruct Ee as [<- <-].
    cbn [app tl]. apply Forall2_Qeq_refl.
Qed.

Lemma observation_layout_witness :
  let a := Sample.agent S3 false in
  exists o st' ee n,
    normalize_obs Sample.forward_kinematics Sample.sin Sample.cos a
      Sample.no_noise (Sample.raw_obs 2 0)
      = Ok (get_joint_pos (Sample.raw_obs 2 0), ee, n)
    /\ process_raw_obs Sample.forward_kinematics Sample.sin Sample.cos a
         (reset a Sample.state) Sample.no_noise (Sample.raw_obs 2 0)
       = Ok (o, st')
    /\ Forall2 Qeq (tl o) (layout S3 (current_joint_pos_normalized n) st').
Proof.
  intro a.
  apply (observation_layout Sample.forward_kinematics Sample.sin Sample.cos a
           (reset a Sample.state) Sample.no_noise (Sample.raw_obs 2 0)).
  - intro x. split; qcompute.
  - intro x. split; qcompute.
  - constructor; [qcompute | qcompute | repeat constructor].
  - repeat constructor.
  - cbn. repeat split; apply Nat.le_0_l.
  - repeat split; constructor.
Defined.

(** ** Episodes do not leak into each other *)

Ltac view_fields :=
  cbn [current_joint_pos current_ee_pos current_ee_pos_xy_norm
       lose_tracking_probability lose_tracking_n_steps_remaining
       previous_ee_pos_xy_norm penalty_timer penalty_side
       stacked_obs_participant_ee_pos stacked_obs_opponent_ee_pos
       stacked_obs_puck_pos stacked_obs_puck_rot _new_episode
       bind res_map fst snd].

Ltac view_cases :=
  repeat (match goal with
          | |- context [bind ?m _] =>
              lazymatch m with
              | bind _ _ => fail
              | match _ with _ => _ end => fail
              | _ => destruct m
              end
          | |- context [match ?x with _ => _ end] =>
              lazymatch x with
              | bind _ _ => fail
              | match _ with _ => _ end => fail
              | _ => destruct x
              end
          end; view_fields).

Lemma encode_view (a : Agent) (st : State) (rng : Rng) (n : Normalized) :
  res_map (fun r => (fst r, episode_view a true (snd r))) (encode a st rng n)
  = res_map (fun r => (fst r, episode_view a true (snd r)))
      (encode a (episode_view a true st) rng n).
Proof.
  unfold encode. destruct st.
  destruct (scheme a) eqn:Sch.
  all: unfold episode_view; rewrite ?Sch.
  all: unfold stack_by_filling, stack_by_episode, stack_scheme7,
         stack_puck_tracked, update_signed_penalty, set_stacks, set_penalty,
         set_tracking; rewrite ?Sch.
  all: view_fields.
  all: view_cases.
  all: reflexivity.
Qed.

Lemma view_of_view (a : Agent) (st : State) :
  episode_view a false (episode_view a true st) = episode_view a false st.
Proof.
  unfold episode_view. view_fields.
  destruct (filter_actions_enabled a), (scheme a); reflexivity.
Qed.

Lemma view_false_of_true (a : Agent) (s1 s2 : State) :
  episode_view a true s1 = episode_view a true s2 ->
  episode_view a false s1 = episode_view a false s2.
Proof.
  intro H. apply (f_equal (episode_view a false)) in H.
  now rewrite !view_of_view in H.
Qed.

Lemma process_raw_obs_view (forward_kinematics : list Q -> vec3)
    (np_sin np_cos : Q -> Q) (a : Agent) (st : State) (rng : Rng)
    (obs : RawObs) :
  res_map (fun r => (fst r, episode_view a true (snd r)))
    (process_raw_obs forward_kinematics np_sin np_cos a st rng obs)
  = res_map (fun r => (fst r, episode_view a true (snd r)))
      (process_raw_obs forward_kinematics np_sin np_cos a
         (episode_view a false st) rng obs).
Proof.
  unfold process_raw_obs.
  destruct (normalize_obs _ _ _ _ _ _) as [[[q ee] n]|]; [|reflexivity].
  cbn [bind].
  pose proof (encode_view a (set_current st q ee (ee_pos_xy_norm n)) rng n)
    as E1.
  pose proof (encode_view a
                (set_current (episode_view a false st) q ee (ee_pos_xy_norm n))
                rng n) as E2.
  assert (V : episode_view a true (set_current st q ee (ee_pos_xy_norm n))
              = episode_view a true
                  (set_current (episode_view a false st) q ee
                     (ee_pos_xy_norm n))).
  { unfold episode_view, set_current. view_fields.
    destruct (filter_actions_enabled a), (scheme a); reflexivity. }
  rewrite V, <- E2 in E1. clear E2 V.
  destruct (encode a (set_current st q ee (ee_pos_xy_norm n)) rng n)
    as [[o1 s1]|];
    destruct (encode a
                (set_current (episode_view a false st) q ee (ee_pos_xy_norm n))
                rng n) as [[o2 s2]|];
    cbn [res_map bind fst snd] in *; try discriminate.
  - apply ok_pair_inv in E1. destruct E1 as [Eo Es]. subst o2.
    destruct (Nat.eqb (length o1) (observation_space (scheme a)));
      cbn [res_map fst snd]; [now rewrite Es|reflexivity].
  - injection E1 as ->. reflexivity.
Qed.

Lemma process_raw_act_view
    (jacobian : list Q -> list (list Q))
    (np_linalg_pinv : list (list Q) -> list vec3)
    (np_linalg_svd : list (list Q) -> vec3)
    (a : Agent) (st : State) (rng : Rng) (action : vec2) :
  res_map (fun r => (fst r, episode_view a true (snd r)))
    (process_raw_act jacobian np_linalg_pinv np_linalg_svd a st rng action)
  = res_map (fun r => (fst r, episode_view a true (snd r)))
      (process_raw_act jacobian np_linalg_pinv np_linalg_svd a
         (episode_view a true st) rng action).
Proof.
  unfold process_raw_act, filter_action, inverse_jacobian_vel, set_previous,
    episode_view.
  destruct st. view_fields.
  destruct (filter_actions_enabled a); view_fields.
  all: view_cases.
  all: reflexivity.
Qed.

(** Two states an episode cannot tell apart give the same result. *)
Lemma same_view_same_result {A : Type} (a : Agent) (k : bool)
    (f : State -> res (A * State)) (k' : bool) (s1 s2 : State) :
  (forall s,
     res_map (fun r => (fst r, episode_view a k' (snd r))) (f s)
     = res_map (fun r => (fst r, episode_view a k' (snd r)))
         (f (episode_view a k s))) ->
  episode_view a k s1 = episode_view a k s2 ->
  res_map (fun r => (fst r, episode_view a k' (snd r))) (f s1)
  = res_map (fun r => (fst r, episode_view a k' (snd r))) (f s2).
Proof.
  intros H E. rewrite (H s1), (H s2), E. reflexivity.
Qed.

Section Isolation.

Variable forward_kinematics : list Q -> vec3.
Variable jacobian : list Q -> list (list Q).
Variable np_linalg_pinv : list (list Q) -> list vec3.
Variable np_linalg_svd : list (list Q) -> vec3.
Variable np_sin np_cos : Q -> Q.
Variable policy : list Q -> vec2.
Variable a : Agent.

Lemma draw_action_same_view (s1 s2 : State) (rng : Rng) (obs : RawObs) :
  episode_view a false s1 = episode_view a false s2 ->
  res_map (fun r => (fst r, episode_view a false (snd r)))
    (draw_action forward_kinematics jacobian np_linalg_pinv np_linalg_svd
       np_sin np_cos policy a s1 rng obs)
  = res_map (fun r => (fst r, episode_view a false (snd r)))
      (draw_action forward_kinematics jacobian np_linalg_pinv np_linalg_svd
         np_sin np_cos policy a s2 rng obs).
Proof.
  intro E. unfold draw_action.
  pose proof (same_view_same_result a false
                (fun s => process_raw_obs forward_kinematics np_sin np_cos a s
                            rng obs)
                true s1 s2
                (fun s => process_raw_obs_view _ _ _ a s rng obs) E) as O.
  cbv beta in O.
  destruct (process_raw_obs _ _ _ a s1 rng obs) as [[o1 t1]|];
    destruct (process_raw_obs _ _ _ a s2 rng obs) as [[o2 t2]|];
    cbn [res_map bind fst snd] in *; try discriminate.
  - apply ok_pair_inv in O. destruct O as [Eo Et]. subst o2.
    destruct (evaluate a); [|reflexivity].
    pose proof (same_view_same_result a true
                  (fun s => process_raw_act jacobian np_linalg_pinv
                              np_linalg_svd a s rng (clip2 (policy o1)))
                  true t1 t2
                  (fun s => process_raw_act_view _ _ _ a s rng _) Et) as P.
    cbv beta in P.
    destruct (process_raw_act _ _ _ a t1 rng _) as [[c1 u1]|];
      destruct (process_raw_act _ _ _ a t2 rng _) as [[c2 u2]|];
      cbn [res_map fst snd] in *; try discriminate.
    + apply ok_pair_inv in P. destruct P as [Ec Eu]. subst c2.
      now rewrite (view_false_of_true a u1 u2 Eu).
    + injection P as ->. reflexivity.
  - injection O as ->. reflexivity.
Qed.

Lemma run_actions_same_view (ticks : list (Rng * RawObs)) :
  forall s1 s2 : State,
  episode_view a false s1 = episode_view a false s2 ->
  res_map fst
    (run_actions forward_kinematics jacobian np_linalg_pinv np_linalg_svd
       np_sin np_cos policy a s1 ticks)
  = res_map fst
      (run_actions forward_kinematics jacobian np_linalg_pinv np_linalg_svd
         np_sin np_cos policy a s2 ticks).
Proof.
  induction ticks as [|[rng obs] ticks IH]; intros s1 s2 E; [reflexivity|].
  cbn [run_actions].
  pose proof (draw_action_same_view s1 s2 rng obs E) as D.
  destruct (draw_action _ _ _ _ _ _ _ a s1 rng obs) as [[c1 u1]|];
    destruct (draw_action _ _ _ _ _ _ _ a s2 rng obs) as [[c2 u2]|];
    cbn [res_map bind fst snd] in *; try discriminate.
  - apply ok_pair_inv in D. destruct D as [Ec Eu]. subst c2.
    specialize (IH u1 u2 Eu).
    destruct (run_actions _ _ _ _ _ _ _ a u1 ticks) as [[cs1 v1]|];
      destruct (run_actions _ _ _ _ _ _ _ a u2 ticks) as [[cs2 v2]|];
      cbn [res_map bind fst snd] in *; try discriminate.
    + injection IH as ->. reflexivity.
    + injection IH as ->. reflexivity.
  - injection D as ->. reflexivity.
Qed.

Lemma run_obs_same_view (ticks : list (Rng * RawObs)) :
  forall s1 s2 : State,
  episode_view a false s1 = episode_view a false s2 ->
  res_map fst (run_obs forward_kinematics np_sin np_cos a s1 ticks)
  = res_map fst (run_obs forward_kinematics np_sin np_cos a s2 ticks).
Proof.
  induction ticks as [|[rng obs] ticks IH]; intros s1 s2 E; [reflexivity|].
  cbn [run_obs].
  pose proof (same_view_same_result a false
                (fun s => process_raw_obs forward_kinematics np_sin np_cos a s
                            rng obs)
                true s1 s2
                (fun s => process_raw_obs_view _ _ _ a s rng obs) E) as O.
  cbv beta in O.
  destruct (process_raw_obs _ _ _ a s1 rng obs) as [[o1 t1]|];
    destruct (process_raw_obs _ _ _ a s2 rng obs) as [[o2 t2]|];
    cbn [res_map bind fst snd] in *; try discriminate.
  - apply ok_pair_inv in O. destruct O as [Eo Et]. subst o2.
    specialize (IH t1 t2 (view_false_of_true a t1 t2 Et)).
    destruct (run_obs _ _ _ a t1 ticks) as [[os1 v1]|];
      destruct (run_obs _ _ _ a t2 ticks) as [[os2 v2]|];
      cbn [res_map bind fst snd] in *; try discriminate.
    + injection IH as ->. reflexivity.
    + injection IH as ->. reflexivity.
  - injection O as ->. reflexivity.
Qed.

Lemma reset_view (s1 s2 : State) :
  episode_view a false (reset a s1) = episode_view a false (reset a s2).
Proof.
  unfold episode_view, reset. view_fields.
  destruct (filter_actions_enabled a), (scheme a); reflexivity.
Qed.

End Isolation.

(** X21. [reset] isolates the episodes from each other.  Whatever state the
    agent was left in, after [reset] a run of ticks gives the same
    observation vectors, and a run of [draw_action] with a policy that is a
    function of the observation vector gives the same commands; where one
    run fails at a tick, the other fails there with the same error.  What
    [reset] leaves untouched (the joint and end-effector positions of the
    last tick, the side of the timer in scheme 2, the filter memory when the
    filter is off, a rotation deque outside scheme 7) is overwritten before
    it is read or never read. *)
Theorem reset_isolates_episodes
    (forward_kinematics : list Q -> vec3)
    (jacobian : list Q -> list (list Q))
    (np_linalg_pinv : list (list Q) -> list vec3)
    (np_linalg_svd : list (list Q) -> vec3)
    (np_sin np_cos : Q -> Q) (policy : list Q -> vec2)
    (a : Agent) (st1 st2 : State) (ticks : list (Rng * RawObs)) :
  res_map fst (run_obs forward_kinematics np_sin np_cos a (reset a st1) ticks)
  = res_map fst
      (run_obs forward_kinematics np_sin np_cos a (reset a st2) ticks)
  /\ res_map fst
       (run_actions forward_kinematics jacobian np_linalg_pinv np_linalg_svd
          np_sin np_cos policy a (reset a st1) ticks)
     = res_map fst
         (run_actions forward_kinematics jacobian np_linalg_pinv np_linalg_svd
            np_sin np_cos policy a (reset a st2) ticks).
Proof.
  split.
  - apply run_obs_same_view, reset_view.
  - apply run_actions_same_view, reset_view.
Qed.

(** ** The length of a blind interval *)

Lemma encode_remaining_bound (a : Agent) (st : State) (rng : Rng)
    (n : Normalized) (o : list Q) (st' : State) (bound : Z) :
  (randint rng <= bound)%Z ->
  (lose_tracking_n_steps_remaining st <= bound)%Z ->
  encode a st rng n = Ok (o, st') ->
  (lose_tracking_n_steps_remaining st' <= bound)%Z.
Proof.
  intros Hr Hb. revert Hb. destruct st.
  cbn [lose_tracking_n_steps_remaining]. intro Hb.
  unfold encode.
  destruct (scheme a) eqn:Sch.
  all: unfold stack_by_filling, stack_by_episode, stack_scheme7,
         stack_puck_tracked, update_signed_penalty, set_stacks, set_penalty,
         set_tracking; rewrite ?Sch.
  all: view_fields.
  all: view_cases.
  all: intro H; try discriminate H.
  all: apply ok_pair_inv in H; destruct H as [_ <-].
  all: cbn [lose_tracking_n_steps_remaining]; lia.
Qed.

(** X22. In training with scheme 7 the agent is never blind for long.  When
    every draw of the length of a blind interval is below
    [loss_of_tracking_max_steps], as [np.random.randint] guarantees, the
    number of blind steps that remain never exceeds
    [loss_of_tracking_max_steps - 1] (or 0) after any number of ticks of an
    episode, so at most that many consecutive ticks repeat an old puck
    reading. *)
Theorem blind_interval_bounded
    (forward_kinematics : list Q -> vec3) (np_sin np_cos : Q -> Q)
    (a : Agent) (ticks : list (Rng * RawObs)) (st : State) :
  let bound := Z.max 0 (loss_of_tracking_max_steps a - 1) in
  wf_env (env_info a) ->
  Forall (fun t => obs_ok a (snd t)
                   /\ (randint (fst t) < loss_of_tracking_max_steps a)%Z)
    ticks ->
  stacks_inv (scheme a) st ->
  (lose_tracking_n_steps_remaining st <= bound)%Z ->
  exists outs st',
    run_obs forward_kinematics np_sin np_cos a st ticks = Ok (outs, st')
    /\ (lose_tracking_n_steps_remaining st' <= bound)%Z.
Proof.
  intros bound He Ht. revert st.
  induction Ht as [|[rng obs] ticks [Hobs Hr] _ IH]; intros st Inv Hb.
  - exists [], st. split; [reflexivity|exact Hb].
  - cbn [fst snd] in *.
    destruct (process_raw_obs_ok any any_clip forward_kinematics np_sin np_cos
                (fun _ => I) (fun _ => I) a He st rng obs Hobs Inv
                (stacks_bounded_any _ _))
      as (o & st1 & ee & n & _ & Run & Enc & _).
    destruct (process_raw_obs_inv _ _ _ _ _ _ _ _ _ Run)
      as (q1 & ee1 & n1 & _ & Ee & _).
    assert (B1 : (lose_tracking_n_steps_remaining st1 <= bound)%Z).
    { apply (encode_remaining_bound _ _ _ _ _ _ bound) in Ee;
        [exact Ee|subst bound; lia|exact Hb]. }
    destruct Enc as (Full & _).
    destruct (IH st1 (stacks_full_inv _ _ Full) B1) as (outs & st' & R & B').
    exists (o :: outs), st'. cbn [run_obs]. rewrite Run. cbn [bind].
    rewrite R. cbn [bind]. split; [reflexivity|exact B'].
Qed.

Lemma blind_interval_bounded_witness :
  let a := Sample.agent S7 true in
  exists outs st',
    run_obs Sample.forward_kinematics Sample.sin Sample.cos a
      (reset a Sample.state)
      (repeat (Sample.some_noise, Sample.raw_obs 2 0) 20)
    = Ok (outs, st')
    /\ (lose_tracking_n_steps_remaining st' <= 4)%Z.
Proof.
  intro a.
  apply (blind_interval_bounded Sample.forward_kinematics Sample.sin
           Sample.cos a (repeat (Sample.some_noise, Sample.raw_obs 2 0) 20)
           (reset a Sample.state)).
  - constructor; [qcompute | qcompute | repeat constructor].
  - apply Forall_forall. intros x Hx. apply repeat_spec in Hx. subst x.
    split; [repeat constructor|reflexivity].
  - cbn. auto.
  - cbn. lia.
Defined.

(** ** Order and saturation of the normalisation *)






